(** * SQLite recovery server: a shallow embedding and its verified properties

    The development follows the recovery server of the repository
    (the Express application with the progress channel, called [Server]
    here), the older revision kept as [src/server.js] ([ServerV1]) and the
    stand-alone materialisation script [src/create-db-from-sql.js]
    ([CreateDbScript]).

    Conventions of the embedding:
    - JavaScript numbers that hold byte counts and millisecond time stamps
      are [Z]; [Math.round (a / b)] on them is [Js.round_div a b];
    - strings are [string]; paths follow the POSIX flavour of Node's [path];
    - an [async] function is a computation in the monad [M]: it threads the
      world (file system, log of observable actions, number of spawned
      children) and ends resolved, rejected, or never settled;
    - a spawned child is described by what it emits: a ['close'] event after
      some delay, an ['error'] event, or nothing at all (a hung child);
    - [console.log] output is not modelled. *)

From Stdlib Require Import ZArith Lia Ascii String List Bool Sorted.
From stdpp Require Import base option list strings gmap pretty.

Local Open Scope Z_scope.

(** ** JavaScript primitives used by the server *)

Module Js.

(** [Math.round (num / den)] for a positive [den]: the nearest integer,
    halves rounded up, that is [floor (num / den + 1/2)]. *)
Definition round_div (num den : Z) : Z := (2 * num + den) / (2 * den).

Definition chars (s : string) : list ascii := list_ascii_of_string s.
Definition str (l : list ascii) : string := string_of_list_ascii l.

(** [s.startsWith(p)] *)
Definition startsWith (s p : string) : bool := String.prefix p s.

(** [s.endsWith(p)] *)
Definition endsWith (s p : string) : bool :=
  String.prefix (str (rev (chars p))) (str (rev (chars s))).

(** [s.includes(sub)] *)
Fixpoint includes (s sub : string) : bool :=
  String.prefix sub s ||
  match s with
  | EmptyString => false
  | String _ s' => includes s' sub
  end.

Definition lower_char (c : ascii) : ascii :=
  let n := nat_of_ascii c in
  if (Nat.leb 65 n && Nat.leb n 90)%bool then ascii_of_nat (n + 32) else c.

(** [s.toLowerCase()] on the ASCII range. *)
Definition toLowerCase (s : string) : string := str (map lower_char (chars s)).

(** [s.length] *)
Definition slen (s : string) : Z := Z.of_nat (String.length s).

(** [arr.join(sep)] on an array of strings *)
Fixpoint join (sep : string) (l : list string) : string :=
  match l with
  | [] => EmptyString
  | [x] => x
  | x :: r => x +:+ sep +:+ join sep r
  end.

Fixpoint split_chars (sep : ascii) (cur : list ascii) (l : list ascii)
  : list (list ascii) :=
  match l with
  | [] => [rev cur]
  | c :: l' =>
      if Ascii.eqb c sep then rev cur :: split_chars sep [] l'
      else split_chars sep (c :: cur) l'
  end.

(** [s.split(sep)] for a one-character separator *)
Definition split (sep : ascii) (s : string) : list string :=
  map str (split_chars sep [] (chars s)).

Definition is_space (c : ascii) : bool :=
  let n := nat_of_ascii c in
  (Nat.eqb n 32 || (Nat.leb 9 n && Nat.leb n 13))%bool.

Fixpoint skip_spaces (l : list ascii) : list ascii :=
  match l with
  | c :: l' => if is_space c then skip_spaces l' else l
  | [] => []
  end.

(** [s.trim()] on the ASCII range. *)
Definition trim (s : string) : string :=
  str (rev (skip_spaces (rev (skip_spaces (chars s))))).

(** A falsy string: [!s] holds for the empty string only. *)
Definition truthy (s : string) : bool :=
  match s with EmptyString => false | _ => true end.

(** [a || b] on strings *)
Definition or_else (a b : string) : string := if truthy a then a else b.

End Js.

(** ** Node's [path] module, POSIX flavour *)

Module Path.

Definition is_dots (s : string) : bool := String.eqb s "..".

(** The segment walk of Node's [normalizeString]: empty and ["."] segments
    are dropped, [".."] removes the segment before it, and is kept only
    when the path is relative ([allowAboveRoot]) and nothing is left to
    remove. [acc] holds the segments kept so far, last one first. *)
Fixpoint normalizeSegments (allowAboveRoot : bool) (acc segs : list string)
  : list string :=
  match segs with
  | [] => rev acc
  | seg :: rest =>
      if (String.eqb seg EmptyString || String.eqb seg ".")%bool then
        normalizeSegments allowAboveRoot acc rest
      else if is_dots seg then
        match acc with
        | top :: acc' =>
            if is_dots top then
              normalizeSegments allowAboveRoot
                (if allowAboveRoot then seg :: acc else acc) rest
            else normalizeSegments allowAboveRoot acc' rest
        | [] =>
            normalizeSegments allowAboveRoot
              (if allowAboveRoot then [seg] else []) rest
        end
      else normalizeSegments allowAboveRoot (seg :: acc) rest
  end.

Definition normalizeString (p : string) (allowAboveRoot : bool) : string :=
  Js.join "/" (normalizeSegments allowAboveRoot [] (Js.split "/" p)).

Definition isAbsolute (p : string) : bool := Js.startsWith p "/".

(** [path.normalize] *)
Definition normalize (p : string) : string :=
  if String.eqb p EmptyString then "."
  else
    let abs := isAbsolute p in
    let trailing := Js.endsWith p "/" in
    let q := normalizeString p (negb abs) in
    if String.eqb q EmptyString then
      if abs then "/" else if trailing then "./" else "."
    else
      let q' := if trailing then q +:+ "/" else q in
      if abs then "/" +:+ q' else q'.

(** [path.join(a, b)] *)
Definition join (a b : string) : string :=
  match Js.truthy a, Js.truthy b with
  | false, false => "."
  | true, false => normalize a
  | false, true => normalize b
  | true, true => normalize (a +:+ "/" +:+ b)
  end.

(** [path.resolve(p)] in a process whose working directory is [cwd]
    (an absolute path). *)
Definition resolve (cwd p : string) : string :=
  let full :=
    if String.eqb p EmptyString then cwd
    else if isAbsolute p then p
    else cwd +:+ "/" +:+ p in
  "/" +:+ normalizeString full false.

(** The last segment of a path, trailing separators ignored. *)
Definition lastSegment (p : string) : string :=
  let segs := filter (fun s => Js.truthy s = true) (Js.split "/" p) in
  List.last segs EmptyString.

(** Splits the characters of a base name at its last dot:
    [Some (stem, ext)] with [ext] starting at that dot. *)
Fixpoint splitLastDot (rev_name ext : list ascii)
  : option (list ascii * list ascii) :=
  match rev_name with
  | [] => None
  | c :: r =>
      if Ascii.eqb c "." then Some (rev r, c :: ext)
      else splitLastDot r (c :: ext)
  end.

(** [path.extname]: from the last dot of the last segment to its end;
    empty when there is no dot, when the only dot opens the segment, and
    for the segment [".."]. *)
Definition extname (p : string) : string :=
  let base := lastSegment p in
  if is_dots base then EmptyString
  else
    match splitLastDot (rev (Js.chars base)) [] with
    | Some (stem, ext) =>
        match stem with
        | [] => EmptyString
        | _ => Js.str ext
        end
    | None => EmptyString
    end.

(** [path.basename(p)] *)
Definition basename (p : string) : string := lastSegment p.

(** [path.basename(p, ext)]: the extension is removed when the base name
    ends with it and is not equal to it. *)
Definition basename_ext (p ext : string) : string :=
  let base := lastSegment p in
  if (Js.truthy ext && Js.endsWith base ext && negb (String.eqb base ext))%bool
  then
    Js.str (firstn (String.length base - String.length ext) (Js.chars base))
  else base.

End Path.


(** ** Children, the world and the monad of asynchronous code *)

(** A line feed and a double quote, for the text the server builds. *)
Definition nl : string := String (ascii_of_nat 10) EmptyString.
Definition dq : string := String (ascii_of_nat 34) EmptyString.

(** What a spawned child lets its parent observe: a ['close'] event with
    the exit code, [after] milliseconds, having written [stdout] and
    [stderr]; an ['error'] event (the binary cannot be started); or no event
    at all. *)
Inductive behaviour :=
| Exits (after code : Z) (stdout stderr : string)
| SpawnFails (message : string)
| Hangs.

(** One row of [sqlite3 -json] output, with the two columns the server
    selects. *)
Record row := Row { name : string; count : Z }.

(** The candidate database that the archive reader picks inside a ZIP. *)
Record zip_entry := ZipEntry { entryName : string; data : string }.

(** The platform around the server. [proc n cmd args] is what the [n]-th
    child spawned since start-up does; [writable p] tells whether writing to
    [p] succeeds; [JSON_parse] is [JSON.parse] on [sqlite3 -json] output
    ([None] when it throws); [replay old script] is the database file that
    [sqlite3 db < script] leaves when the file held [old] before;
    [zip_pick archive] is the entry that the archive reader selects and
    extracts from an archive with these bytes; [cwd] is the working
    directory of the server process. *)
Record env := Env {
  proc : nat -> string -> list string -> behaviour;
  writable : string -> bool;
  JSON_parse : string -> option (list row);
  replay : option string -> string -> string;
  zip_pick : string -> option zip_entry;
  cwd : string
}.

Record file := File { content : string; mtime : Z }.

Definition size (f : file) : Z := Js.slen (content f).

(** Everything a run can be observed to do, in the order it happens. *)
Inductive action :=
| Spawn (pid : nat) (command : string) (args : list string)
| Kill (pid : nat) (signal : string)
| FsAccess (path : string)
| FsStat (path : string)
| FsRead (path : string)
| FsWrite (path : string)
| FsAppend (path : string)
| FsUnlink (path : string)
| FsMkdir (path : string)
| Progress (sessionId phase : string) (percent : Z) (message : string)
| Later (delay : Z) (what : action)
| Listen.

Record world := World {
  files : gmap string file;
  dirs : gset string;
  now : Z;
  spawned : nat
}.

Definition set_files (f : gmap string file -> gmap string file) (w : world) : world :=
  World (f (files w)) (dirs w) (now w) (spawned w).

(** A promise is resolved, rejected with an error message, or never
    settled. *)
Inductive settled (A : Type) :=
| Resolved (a : A)
| Rejected (message : string)
| Pending.
Arguments Resolved {A} a.
Arguments Rejected {A} message.
Arguments Pending {A}.

Record run (A : Type) := Run {
  outcome : settled A;
  final : world;
  trace : list action
}.
Arguments Run {A} outcome final trace.
Arguments outcome {A} r.
Arguments final {A} r.
Arguments trace {A} r.

Definition M (A : Type) : Type := world -> run A.

Definition ret {A} (a : A) : M A := fun w => Run (Resolved a) w [].

Definition throw {A} (message : string) : M A := fun w => Run (Rejected message) w [].

(** Awaiting a promise that never settles. *)
Definition never {A} : M A := fun w => Run Pending w [].

Definition bind {A B} (m : M A) (k : A -> M B) : M B := fun w =>
  let r := m w in
  match outcome r with
  | Resolved a =>
      let r' := k a (final r) in
      Run (outcome r') (final r') (trace r ++ trace r')
  | Rejected e => Run (Rejected e) (final r) (trace r)
  | Pending => Run Pending (final r) (trace r)
  end.

(** [try { m } catch (error) { h error.message }] *)
Definition try_catch {A} (m : M A) (h : string -> M A) : M A := fun w =>
  let r := m w in
  match outcome r with
  | Rejected e =>
      let r' := h e (final r) in
      Run (outcome r') (final r') (trace r ++ trace r')
  | _ => r
  end.

Declare Scope async_scope.
Delimit Scope async_scope with async.
Notation "x <- m ;; k" := (bind m (fun x => k))
  (at level 100, m at next level, right associativity) : async_scope.
Notation "m ;;; k" := (bind m (fun _ => k))
  (at level 100, right associativity) : async_scope.
Local Open Scope async_scope.

Definition emit (a : action) : M unit := fun w => Run (Resolved tt) w [a].

Definition Date_now : M Z := fun w => Run (Resolved (now w)) w [].

(** Time passing while the event loop waits. *)
Definition sleep (ms : Z) : M unit := fun w =>
  Run (Resolved tt) (World (files w) (dirs w) (now w + ms) (spawned w)) [].

Section Platform.

Variable E : env.

(** [fs.writeFile (p, c)] *)
Definition writeFile (p c : string) : M unit := fun w =>
  if writable E p then
    Run (Resolved tt) (set_files (insert p (File c (now w))) w) [FsWrite p]
  else Run (Rejected ("EACCES: permission denied, open " +:+ p)) w [FsWrite p].

(** [fs.appendFile (p, c)]: the file is created when missing. *)
Definition appendFile (p c : string) : M unit := fun w =>
  if writable E p then
    let old := match files w !! p with
               | Some f => content f
               | None => EmptyString
               end in
    Run (Resolved tt) (set_files (insert p (File (old +:+ c) (now w))) w) [FsAppend p]
  else Run (Rejected ("EACCES: permission denied, open " +:+ p)) w [FsAppend p].

(** [fs.unlink p] *)
Definition unlink (p : string) : M unit := fun w =>
  match files w !! p with
  | Some _ => Run (Resolved tt) (set_files (delete p) w) [FsUnlink p]
  | None => Run (Rejected ("ENOENT: no such file or directory, unlink " +:+ p)) w [FsUnlink p]
  end.

(** [fs.access p] *)
Definition access (p : string) : M unit := fun w =>
  match files w !! p with
  | Some _ => Run (Resolved tt) w [FsAccess p]
  | None =>
      if decide (p ∈ dirs w) then Run (Resolved tt) w [FsAccess p]
      else Run (Rejected ("ENOENT: no such file or directory, access " +:+ p)) w [FsAccess p]
  end.

(** [fs.stat p], of which the server reads the size and the
    modification time. *)
Definition stat (p : string) : M file := fun w =>
  match files w !! p with
  | Some f => Run (Resolved f) w [FsStat p]
  | None => Run (Rejected ("ENOENT: no such file or directory, stat " +:+ p)) w [FsStat p]
  end.

(** [fs.mkdir (p, { recursive: true })] *)
Definition mkdir (p : string) : M unit := fun w =>
  Run (Resolved tt) (World (files w) ({[p]} ∪ dirs w) (now w) (spawned w)) [FsMkdir p].

(** [spawn (command, args)]: the child gets the next process number. *)
Definition spawn (command : string) (args : list string) : M (nat * behaviour) := fun w =>
  let pid := spawned w in
  Run (Resolved (pid, proc E pid command args))
      (World (files w) (dirs w) (now w) (S pid))
      [Spawn pid command args].

(** The name of [path] inside the directory [dir], when [path] lies
    directly in it. *)
Definition entryIn (dir path : string) : option string :=
  if Js.startsWith path (dir +:+ "/") then
    let rest := Js.str (drop (String.length dir + 1) (Js.chars path)) in
    if (Js.truthy rest && negb (Js.includes rest "/"))%bool then Some rest else None
  else None.

(** [fs.readdir dir]: the names in the directory, in the order the
    platform lists them. *)
Definition readdir (dir : string) : M (list string) := fun w =>
  if decide (dir ∈ dirs w) then
    Run (Resolved (omap (fun e => entryIn dir (fst e)) (map_to_list (files w)))) w []
  else Run (Rejected ("ENOENT: no such file or directory, scandir " +:+ dir)) w [].

(** [sendProgress (sessionId, {type: 'progress', phase, progress, message})]:
    a publication on the session's channel; its [detail] text and the
    delivery to the subscribers are not modelled. *)
Definition sendProgress (sessionId phase : string) (percent : Z) (message : string) : M unit :=
  emit (Progress sessionId phase percent message).

End Platform.

(** ** The results the strategies hand to each other *)

(** A strategy result: [{success, error, sql, tablesRecovered, tablesFailed,
    timeout, partialData}], absent properties being [None] or [false]. *)
Record result := Result {
  success : bool;
  error : option string;
  sql : option string;
  tablesRecovered : option Z;
  tablesFailed : option Z;
  timeout : bool;
  partialData : bool
}.

Definition succeeded : result := Result true None None None None false false.

Definition failed (message : string) : result :=
  Result false (Some message) None None None false false.

(** [new Error (r.error)].message: an absent property gives the empty text. *)
Definition error_text (r : result) : string :=
  match error r with
  | Some e => e
  | None => EmptyString
  end.

Module VersionCheck.
Record t := Make {
  success : bool;
  error : string;
  hasRecover : bool;
  isAndroidSdk : bool
}.
End VersionCheck.

Module RecoverTest.
Record t := Make { hasRecover : bool; isLimited : bool }.
End RecoverTest.

Module Stats.
Record t := Make {
  tablesRecovered : Z;
  recordsRecovered : Z;
  dataSize : Z;
  sqlSize : Z
}.
End Stats.

(** What [extractSqliteFromZip] returns on success. *)
Module Extracted.
Record t := Make { path : string; baseName : string }.
End Extracted.

(** [req.file], as the upload middleware leaves it. *)
Module Upload.
Record t := Make { path : string; originalname : string }.
End Upload.

(** The parts of a submission that the handlers read: the uploaded file,
    the [x-session-id] header and the three form fields (an absent field is
    the empty text). *)
Module Req.
Record t := Make {
  file : option Upload.t;
  sessionHeader : option string;
  ignoreFreelist : string;
  noRowids : string;
  lostFoundTable : string
}.
End Req.

Module Status.
Record t := Make {
  isActive : bool;
  isStuck : bool;
  message : option string;
  fileName : option string;
  fileSizeMB : option Z;
  idleSeconds : option Z
}.
End Status.

(** The answers of the HTTP handlers. *)
Inductive response :=
| JsonError (status : Z) (error : string)
| RecoverOk (sqlFile dbFile : string) (stats : Stats.t)
| ManualOk (sqlFile dbFile : string) (tablesRecovered totalTables : Z)
| SendFile (path contentType filename : string)
| StatusOk (report : Status.t).

(** The event with which a child ends, as its listeners see it. *)
Inductive child_event :=
| Closed (code : Z) (stdout stderr : string)
| Errored (message : string).

(** Waiting for the ['close'] or the ['error'] event of a child: the clock
    advances to the event; a hung child gives neither. *)
Definition awaitChild (b : behaviour) : M child_event :=
  match b with
  | Exits after code out err => sleep after ;;; ret (Closed code out err)
  | SpawnFails message => ret (Errored message)
  | Hangs => never
  end.

(** ** The recovery server *)

Module Server.
Section WithPlatform.

Variable E : env.

Definition tablesQuery : string :=
  "SELECT name FROM sqlite_master WHERE type='table' AND name NOT LIKE 'sqlite_%'".

(** [testRecoverCommand]: does [sqlite3 :memory: .help] list [.recover]? *)
Definition testRecoverCommand : M RecoverTest.t :=
  child <- spawn E "sqlite3" [":memory:"; ".help"] ;;
  ev <- awaitChild (snd child) ;;
  match ev with
  | Closed _ output _ =>
      let hasRecover := Js.includes (Js.toLowerCase output) ".recover" in
      let isLimited :=
        (negb hasRecover &&
         (Js.includes output "platform-tools" || (Js.slen output <? 1000)))%bool in
      ret (RecoverTest.Make hasRecover isLimited)
  | Errored _ => ret (RecoverTest.Make false true)
  end.

(** [checkSqliteVersion]: the capability probe, [sqlite3 --version]
    followed by [testRecoverCommand]. The version text only goes to the
    console. *)
Definition checkSqliteVersion : M VersionCheck.t :=
  child <- spawn E "sqlite3" ["--version"] ;;
  ev <- awaitChild (snd child) ;;
  match ev with
  | Closed code output _ =>
      if ((code =? 0) && Js.truthy output)%bool then
        recoverTest <- testRecoverCommand ;;
        ret (VersionCheck.Make true EmptyString
               (RecoverTest.hasRecover recoverTest)
               (Js.includes output "platform-tools" || RecoverTest.isLimited recoverTest))
      else
        ret (VersionCheck.Make false "SQLite3 not found or not accessible" false false)
  | Errored message =>
      ret (VersionCheck.Make false ("SQLite3 not found: " +:+ message) false false)
  end.

(** [queryDatabase]. The file declares this function twice; the second
    declaration, which resolves [null] on every failure, is the one in
    force, and is the one embedded here. *)
Definition queryDatabase (dbPath query : string) : M (option (list row)) :=
  child <- spawn E "sqlite3" [dbPath; "-json"; query] ;;
  ev <- awaitChild (snd child) ;;
  match ev with
  | Closed code output _ =>
      if ((code =? 0) && Js.truthy output)%bool then ret (JSON_parse E output)
      else ret None
  | Errored _ => ret None
  end.


Definition dumpTableCommand (tableName : string) : string :=
  ".dump " +:+ dq +:+ tableName +:+ dq.

(** What [dumpSingleTable] resolves, as a function of what the child
    does: the 30 second timer wins over a ['close'] that comes later. *)
Definition dumpResult (b : behaviour) : result :=
  match b with
  | Exits after code output err =>
      if after <? 30000 then
        if ((code =? 0) && (0 <? Js.slen output))%bool then
          Result true None (Some output) None None false false
        else failed (Js.or_else err "dump failed")
      else failed "timeout"
  | SpawnFails message => failed message
  | Hangs => failed "timeout"
  end.

(** [dumpSingleTable]: one table, under a 30 second timer that sends
    SIGTERM to the child. *)
Definition dumpSingleTable (dbPath tableName : string) : M result :=
  child <- spawn E "sqlite3" [dbPath; dumpTableCommand tableName] ;;
  match snd child with
  | Exits after _ _ _ =>
      if after <? 30000 then sleep after ;;; ret (dumpResult (snd child))
      else sleep 30000 ;;; emit (Kill (fst child) "SIGTERM") ;;; ret (dumpResult (snd child))
  | SpawnFails _ => ret (dumpResult (snd child))
  | Hangs =>
      sleep 30000 ;;; emit (Kill (fst child) "SIGTERM") ;;; ret (dumpResult (snd child))
  end.

Definition tableHeader : string :=
  "-- Table-by-Table Recovery" +:+ nl +:+
  "-- Some tables may be skipped due to corruption" +:+ nl +:+
  "PRAGMA foreign_keys=OFF;" +:+ nl +:+ nl.

(** What the loop appends for a recovered table, and the placeholder
    comment it appends for a failed one. *)
Definition tableData (tableName : string) (tableResult : result) : string :=
  nl +:+ "-- Table: " +:+ tableName +:+ nl +:+
  match sql tableResult with Some s => s | None => EmptyString end +:+ nl.

Definition tablePlaceholder (tableName : string) (tableResult : result) : string :=
  nl +:+ "-- Table: " +:+ tableName +:+ " (FAILED - " +:+ error_text tableResult
     +:+ ")" +:+ nl.

Definition tableFooter (successCount total : Z) (failedTables : list string) : string :=
  nl +:+ "-- Recovery Summary:" +:+ nl +:+
  "-- Successfully recovered: " +:+ pretty successCount +:+ "/" +:+ pretty total
     +:+ " tables" +:+ nl +:+
  match failedTables with
  | [] => EmptyString
  | _ => "-- Failed tables: " +:+ Js.join ", " failedTables +:+ nl
  end.

(** The [for] loop of [tryTableByTableRecovery], from index [i] on:
    [tables] are the rows still to visit, [total] is [tables.length]. *)
Fixpoint recoverTables (inputPath outputPath sessionId : string) (total i : Z)
    (tables : list row) (successCount : Z) (failedTables : list string)
  : M (Z * list string) :=
  match tables with
  | [] => ret (successCount, failedTables)
  | t :: rest =>
      let tableName := name t in
      let progress := 35 + Js.round_div (i * 30) total in
      sendProgress sessionId "recovery" progress "Recovering tables individually" ;;;
      tableResult <- dumpSingleTable inputPath tableName ;;
      if success tableResult then
        appendFile E outputPath (tableData tableName tableResult) ;;;
        recoverTables inputPath outputPath sessionId total (i + 1) rest
          (successCount + 1) failedTables
      else
        appendFile E outputPath (tablePlaceholder tableName tableResult) ;;;
        recoverTables inputPath outputPath sessionId total (i + 1) rest
          successCount (failedTables ++ [tableName])
  end.

(** [tryTableByTableRecovery] *)
Definition tryTableByTableRecovery (inputPath outputPath sessionId : string) : M result :=
  try_catch
    (tables <- queryDatabase inputPath tablesQuery ;;
     match tables with
     | None | Some [] => ret (failed "No tables found")
     | Some rows =>
         let total := Z.of_nat (length rows) in
         writeFile E outputPath tableHeader ;;;
         counts <- recoverTables inputPath outputPath sessionId total 0 rows 0 [] ;;
         appendFile E outputPath (tableFooter (fst counts) total (snd counts)) ;;;
         if 0 <? fst counts then
           ret (Result true None None (Some (fst counts))
                  (Some (Z.of_nat (length (snd counts)))) false false)
         else ret (failed "All tables failed to recover")
     end)
    (fun message => ret (failed message)).

(** [trySchemaExtraction]: the table and index definitions only, inside a
    transaction. *)
Definition trySchemaExtraction (inputPath outputPath : string) : M result :=
  child <- spawn E "sqlite3" [inputPath; ".schema"] ;;
  ev <- awaitChild (snd child) ;;
  match ev with
  | Closed code output err =>
      try_catch
        (if ((code =? 0) && (0 <? Js.slen output))%bool then
           let recoverySQL :=
             "-- Schema Recovery" +:+ nl +:+
             "PRAGMA foreign_keys=OFF;" +:+ nl +:+
             "BEGIN TRANSACTION;" +:+ nl +:+ nl +:+
             output +:+
             nl +:+ nl +:+ "-- Note: Data extraction may have failed due to corruption" +:+ nl +:+
             "-- Schema recovered successfully" +:+ nl +:+
             "COMMIT;" +:+ nl in
           writeFile E outputPath recoverySQL ;;; ret succeeded
         else ret (failed err))
        (fun message => ret (failed message))
  | Errored message => ret (failed message)
  end.

(** [tryBasicExtraction]: the last resort, a report of the table names. *)
Definition tryBasicExtraction (inputPath outputPath : string) : M result :=
  child <- spawn E "sqlite3" [inputPath; ".tables"] ;;
  ev <- awaitChild (snd child) ;;
  match ev with
  | Closed code output err =>
      try_catch
        (let recoverySQL :=
           "-- Basic Recovery Attempt" +:+ nl +:+
           "-- Database appears to be severely corrupted" +:+ nl +:+
           "PRAGMA foreign_keys=OFF;" +:+ nl +:+
           "BEGIN TRANSACTION;" +:+ nl +:+ nl +:+
           (if ((code =? 0) && (0 <? Js.slen output))%bool then
              "-- Tables found:" +:+ nl +:+
              "-- " +:+ Js.trim output +:+ nl +:+ nl +:+
              "-- Note: Table structures and data could not be recovered" +:+ nl +:+
              "-- due to severe database corruption" +:+ nl
            else
              "-- No tables could be identified" +:+ nl +:+
              "-- Database is severely corrupted or not a valid SQLite file" +:+ nl) +:+
           "COMMIT;" +:+ nl in
         writeFile E outputPath recoverySQL ;;; ret succeeded)
        (fun message => ret (failed message))
  | Errored message => ret (failed message)
  end.

(** [tryAlternativeRecovery]: the fallbacks after the primary strategy.
    The streaming full dump is passed over on purpose ("Skipping .dump
    (causes hangs)"); the chain goes to the tables one by one. *)
Definition tryAlternativeRecovery (inputPath outputPath sessionId : string) : M result :=
  sendProgress sessionId "recovery" 30 "Using table-by-table recovery" ;;;
  tableResult <- tryTableByTableRecovery inputPath outputPath sessionId ;;
  if success tableResult then ret tableResult
  else
    schemaResult <- trySchemaExtraction inputPath outputPath ;;
    if success schemaResult then ret schemaResult
    else tryBasicExtraction inputPath outputPath.

(** [executeRecovery]: the probe, then the primary strategy when the tool
    has it, then the fallbacks. *)
Definition executeRecovery (inputPath recoverCommand outputPath sessionId : string)
  : M result :=
  versionCheck <- checkSqliteVersion ;;
  if negb (VersionCheck.success versionCheck) then
    ret (failed ("SQLite3 is not available: " +:+ VersionCheck.error versionCheck +:+
                 ". Please install SQLite3 and ensure it's in your PATH."))
  else if negb (VersionCheck.hasRecover versionCheck) then
    tryAlternativeRecovery inputPath outputPath sessionId
  else
    child <- spawn E "sqlite3" [inputPath; recoverCommand] ;;
    ev <- awaitChild (snd child) ;;
    match ev with
    | Closed code output _ =>
        try_catch
          (if ((code =? 0) && (0 <? Js.slen output))%bool then
             writeFile E outputPath output ;;; ret succeeded
           else if ((code =? 0) && (Js.slen output =? 0))%bool then
             writeFile E outputPath ("-- No recoverable data found" +:+ nl) ;;;
             ret succeeded
           else tryAlternativeRecovery inputPath outputPath sessionId)
          (fun message => ret (failed ("Failed to write recovery file: " +:+ message)))
    | Errored message =>
        ret (failed ("Failed to execute sqlite3: " +:+ message +:+
                     ". Make sure sqlite3 is installed and in PATH."))
    end.

(** The database file that the replaying child leaves at [dbPath]: the
    script is applied to whatever the file held when the child opened
    it. *)
Definition childReplays (sqlPath dbPath : string) : M unit := fun w =>
  let script := match files w !! sqlPath with
                | Some f => content f
                | None => EmptyString
                end in
  let image := replay E (content <$> files w !! dbPath) script in
  Run (Resolved tt) (set_files (insert dbPath (File image (now w))) w) [].

(** [createDatabaseFromSql]: the script is streamed into [sqlite3 dbPath].
    The progress published while the script is read depends on the pace of
    the stream and is not modelled. *)
Definition createDatabaseFromSql (sqlPath dbPath sessionId : string) : M result :=
  totalSize <- try_catch (sqlStats <- stat sqlPath ;; ret (size sqlStats))
                         (fun _ => ret 0) ;;
  child <- spawn E "sqlite3" [dbPath] ;;
  emit (FsRead sqlPath) ;;;
  ev <- awaitChild (snd child) ;;
  match ev with
  | Closed code _ err =>
      childReplays sqlPath dbPath ;;;
      if code =? 0 then ret succeeded
      else ret (failed (Js.or_else err "Database creation failed"))
  | Errored message => ret (failed ("Failed to create database: " +:+ message))
  end.

Definition countQuery : string :=
  "SELECT COUNT(*) as count FROM sqlite_master WHERE type='table' AND name NOT LIKE 'sqlite_%'".

(** The loop of [getRecoveryStats] over the tables. *)
Fixpoint countRows (dbPath : string) (tables : list row) (totalRows : Z) : M Z :=
  match tables with
  | [] => ret totalRows
  | table :: rest =>
      rowCount <- queryDatabase dbPath
                    ("SELECT COUNT(*) as count FROM " +:+ dq +:+ name table +:+ dq) ;;
      match rowCount with
      | Some (r :: _) => countRows dbPath rest (totalRows + count r)
      | _ => countRows dbPath rest totalRows
      end
  end.

(** [getRecoveryStats]; the two sizes are kept in bytes, the server
    formats them for display. *)
Definition getRecoveryStats (sqlPath dbPath : string) : M Stats.t :=
  try_catch
    (dbStats <- stat dbPath ;;
     sqlStats <- stat sqlPath ;;
     tableCount <- queryDatabase dbPath countQuery ;;
     tables <- queryDatabase dbPath tablesQuery ;;
     totalRows <- countRows dbPath (match tables with Some l => l | None => [] end) 0 ;;
     ret (Stats.Make
            (match tableCount with Some (r :: _) => count r | _ => 0 end)
            totalRows (size dbStats) (size sqlStats)))
    (fun _ =>
       try_catch
         (dbStats <- stat dbPath ;;
          sqlStats <- stat sqlPath ;;
          ret (Stats.Make 0 0 (size dbStats) (size sqlStats)))
         (fun _ => ret (Stats.Make 0 0 0 0))).

Definition isRecoveryArtifact (file : string) : bool :=
  (Js.startsWith file "recovery_" || Js.startsWith file "recovered_" ||
   Js.startsWith file "manual_recovery_" || Js.startsWith file "manual_recovered_" ||
   Js.startsWith file "extracted_")%bool.

Fixpoint forEach {A} (l : list A) (f : A -> M unit) : M unit :=
  match l with
  | [] => ret tt
  | x :: r => f x ;;; forEach r f
  end.

(** [cleanupOldRecoveryFiles]: recovery artefacts last modified more than
    five minutes ago are deleted; no failure leaves this function. *)
Definition cleanupOldRecoveryFiles : M unit :=
  try_catch
    (entries <- readdir "uploads" ;;
     t <- Date_now ;;
     let fiveMinutesAgo := t - 5 * 60 * 1000 in
     forEach entries (fun file =>
       let filePath := Path.join "uploads" file in
       try_catch
         (stats <- stat filePath ;;
          if (isRecoveryArtifact file && (mtime stats <? fiveMinutesAgo))%bool
          then unlink filePath
          else ret tt)
         (fun _ => ret tt)))
    (fun _ => ret tt).

(** [ensureUploadsDir] *)
Definition ensureUploadsDir : M unit :=
  try_catch (access "uploads") (fun _ => mkdir "uploads").

(** [startServer]: the uploads directory, the capability probe (its
    answer goes to the console and is not kept), then [app.listen]. *)
Definition startServer : M unit :=
  ensureUploadsDir ;;;
  versionCheck <- checkSqliteVersion ;;
  emit Listen.

Definition sanitize_char (c : ascii) : ascii :=
  let n := nat_of_ascii c in
  if ((Nat.leb 97 n && Nat.leb n 122) || (Nat.leb 65 n && Nat.leb n 90) ||
      (Nat.leb 48 n && Nat.leb n 57) || Nat.eqb n 46 || Nat.eqb n 45)%bool
  then c else "_"%char.

(** [name.replace (/[^a-zA-Z0-9.-]/g, '_')] *)
Definition sanitize (s : string) : string := Js.str (map sanitize_char (Js.chars s)).

(** [extractSqliteFromZip]: the candidate that the archive reader picks
    (by extension, then by name, then by size, with its fallbacks for
    damaged archives) is written to the uploads directory. [None] is the
    [null] of the source. *)
Definition extractSqliteFromZip (zipPath : string) (timestamp : Z) (sessionId : string)
  : M (option Extracted.t) :=
  try_catch
    (emit (FsRead zipPath) ;;;
     archive <- (fun w => Run (Resolved (content <$> files w !! zipPath)) w []) ;;
     match archive ≫= zip_pick E with
     | None => ret None
     | Some sqliteEntry =>
         let sanitizedName := sanitize (Path.basename (entryName sqliteEntry)) in
         let extractedFileName :=
           "extracted_" +:+ pretty timestamp +:+ "_" +:+ sanitizedName in
         let extractedPath := Path.join "uploads" extractedFileName in
         writeFile E extractedPath (data sqliteEntry) ;;;
         stats <- stat extractedPath ;;
         ret (Some (Extracted.Make extractedPath
                      (Js.or_else
                         (Path.basename_ext (entryName sqliteEntry)
                            (Path.extname (entryName sqliteEntry)))
                         "extracted_database")))
     end)
    (fun _ => ret None).

(** The [.recover] command line built from the three options. *)
Definition buildRecoverCommand (ignoreFreelist noRowids lostFoundTable : string) : string :=
  let options :=
    (if String.eqb ignoreFreelist "true" then ["--ignore-freelist"] else []) ++
    (if String.eqb noRowids "true" then ["--no-rowids"] else []) ++
    (if (Js.truthy lostFoundTable && negb (String.eqb lostFoundTable "lost_and_found"))%bool
     then ["--lost-and-found " +:+ lostFoundTable] else []) in
  match options with
  | [] => ".recover"
  | _ => ".recover" +:+ " " +:+ Js.join " " options
  end.

(** The [catch] block of the recovery submission. [req] is in scope
    there; [inputPath] and [originalInputPath] are declared with [let]
    inside the [try] block, so the block receives what these two names
    denote at the place of the [catch]: nothing, as the file has no other
    declaration of them. [typeof inputPath !== 'undefined'] is then
    false and the second deletion is passed over. *)
Definition recover_catch (req : Req.t) (inputPath originalInputPath : option string)
    (message : string) : M response :=
  match Req.file req with
  | Some f => try_catch (unlink (Upload.path f)) (fun _ => ret tt)
  | None => ret tt
  end ;;;
  match inputPath, originalInputPath with
  | Some p, Some o =>
      if negb (String.eqb p o) then try_catch (unlink p) (fun _ => ret tt)
      else ret tt
  | Some p, None => throw "ReferenceError: originalInputPath is not defined"
  | None, _ => ret tt
  end ;;;
  ret (JsonError 500 (Js.or_else message "Recovery failed")).

(** The [try] block of the recovery submission. *)
Definition recover_try (req : Req.t) (sessionId : string) : M response :=
  match Req.file req with
  | None => ret (JsonError 400 "No database file uploaded")
  | Some f =>
      sendProgress sessionId "upload" 10 "File uploaded successfully" ;;;
      let originalInputPath := Upload.path f in
      timestamp <- Date_now ;;
      let ext := Path.extname (Upload.originalname f) in
      input <-
        (if String.eqb (Js.toLowerCase ext) ".zip" then
           sendProgress sessionId "extraction" 15 "Extracting ZIP archive" ;;;
           extractedPath <- extractSqliteFromZip (Upload.path f) timestamp sessionId ;;
           match extractedPath with
           | None => throw "No SQLite database file found in the ZIP archive"
           | Some extracted =>
               sendProgress sessionId "extraction" 20 "ZIP extraction complete" ;;;
               unlink (Upload.path f) ;;;
               ret (Extracted.path extracted, Extracted.baseName extracted)
           end
         else ret (Upload.path f, Path.basename_ext (Upload.originalname f) ext)) ;;
      let inputPath := fst input in
      let baseName := snd input in
      let sqlOutputPath :=
        "uploads/recovery_" +:+ pretty timestamp +:+ "_" +:+ baseName +:+ ".sql" in
      let dbOutputPath :=
        "uploads/recovered_" +:+ pretty timestamp +:+ "_" +:+ baseName +:+ ".db" in
      let recoverCommand :=
        buildRecoverCommand (Req.ignoreFreelist req) (Req.noRowids req)
          (Req.lostFoundTable req) in
      sendProgress sessionId "recovery" 25 "Starting database recovery" ;;;
      recoveryResult <- executeRecovery inputPath recoverCommand sqlOutputPath sessionId ;;
      if negb (success recoveryResult) then throw (error_text recoveryResult)
      else
        sendProgress sessionId "database" 70 "Creating recovered database" ;;;
        dbCreationResult <- createDatabaseFromSql sqlOutputPath dbOutputPath sessionId ;;
        if negb (success dbCreationResult) then throw (error_text dbCreationResult)
        else
          sendProgress sessionId "stats" 95 "Calculating statistics" ;;;
          stats <- getRecoveryStats sqlOutputPath dbOutputPath ;;
          try_catch (unlink inputPath) (fun _ => ret tt) ;;;
          ret (RecoverOk (Path.basename sqlOutputPath) (Path.basename dbOutputPath) stats)
  end.

Definition sessionOf (req : Req.t) (t : Z) : string :=
  match Req.sessionHeader req with
  | Some s => Js.or_else s (pretty t)
  | None => pretty t
  end.

(** [app.post ('/api/recover')]: the recovery submission. *)
Definition post_api_recover (req : Req.t) : M response :=
  t <- Date_now ;;
  let sessionId := sessionOf req t in
  cleanupOldRecoveryFiles ;;;
  try_catch (recover_try req sessionId) (recover_catch req None None).

(** [app.get ('/api/download/:filename')]: artefact retrieval. The file is
    deleted five seconds after it has been streamed. *)
Definition get_api_download (filename : string) : M response :=
  try_catch
    (let filePath := Path.join "uploads" filename in
     let resolvedPath := Path.resolve (cwd E) filePath in
     let uploadsPath := Path.resolve (cwd E) "uploads" in
     if negb (Js.startsWith resolvedPath uploadsPath) then
       ret (JsonError 403 "Access denied")
     else
       access filePath ;;;
       let ext := Js.toLowerCase (Path.extname filename) in
       let contentType :=
         if String.eqb ext ".sql" then "text/sql"
         else if existsb (String.eqb ext) [".db"; ".sqlite"; ".sqlite3"]
              then "application/x-sqlite3"
              else "application/octet-stream" in
       emit (FsRead filePath) ;;;
       emit (Later 5000 (FsUnlink filePath)) ;;;
       ret (SendFile filePath contentType filename))
    (fun _ => ret (JsonError 404 "File not found")).

(** One object of the array that the status probe builds from the
    directory listing: [{name, mtime, size}]. *)
Record dirent := Dirent { d_name : string; d_mtime : Z; d_size : Z }.

Definition isRecoverySql (f : dirent) : bool :=
  ((Js.startsWith (d_name f) "recovery_" || Js.startsWith (d_name f) "manual_recovery_")
   && Js.endsWith (d_name f) ".sql")%bool.

(** [sort ((a, b) => b.mtime - a.mtime)]: the stable sort, newest
    first. [insertNewest x l] puts [x], which came before the elements of
    [l], into the sorted [l]. *)
Fixpoint insertNewest (x : dirent) (l : list dirent) : list dirent :=
  match l with
  | [] => [x]
  | y :: r => if d_mtime y <=? d_mtime x then x :: l else y :: insertNewest x r
  end.

Definition sortNewestFirst (l : list dirent) : list dirent := foldr insertNewest [] l.

(** The answer of the status probe at time [t] for a directory listing. *)
Definition statusOf (t : Z) (listing : list dirent) : Status.t :=
  let sqlFiles := sortNewestFirst (List.filter isRecoverySql listing) in
  match sqlFiles with
  | [] => Status.Make false false (Some "No recovery files found") None None None
  | latestFile :: _ =>
      let ageSeconds := Js.round_div (t - d_mtime latestFile) 1000 in
      let sizeMB := Js.round_div (d_size latestFile) (1024 * 1024) in
      Status.Make (ageSeconds <=? 120) (120 <? ageSeconds) None
        (Some (d_name latestFile)) (Some sizeMB) (Some ageSeconds)
  end.

(** [readdirSync] followed by [statSync] on every name. *)
Definition listing (dir : string) : M (list dirent) :=
  names <- readdir dir ;;
  fun w =>
    Run (Resolved
           (omap (fun n => (fun f => Dirent n (mtime f) (size f))
                             <$> files w !! Path.join dir n) names)) w [].

(** [app.get ('/api/status')]: the status probe. *)
Definition get_api_status : M response :=
  try_catch
    (l <- listing "uploads" ;;
     t <- Date_now ;;
     ret (StatusOk (statusOf t l)))
    (fun message => ret (JsonError 500 message)).

End WithPlatform.
End Server.

(** ** The older revision of the server ([src/server.js])

    Its probe, [trySchemaExtraction] and [tryBasicExtraction] are the ones
    of [Server], text for text; its fallback chain differs. *)

Module ServerV1.
Section WithPlatform.

Variable E : env.

(** [tryDumpCommand], not streamed: the whole dump is held in memory and
    written at the end. *)
Definition tryDumpCommand (inputPath outputPath : string) : M result :=
  child <- spawn E "sqlite3" [inputPath; ".dump"] ;;
  ev <- awaitChild (snd child) ;;
  match ev with
  | Closed code output err =>
      try_catch
        (if ((code =? 0) && (0 <? Js.slen output))%bool then
           writeFile E outputPath output ;;; ret succeeded
         else ret (failed err))
        (fun message => ret (failed message))
  | Errored message => ret (failed message)
  end.

(** [tryAlternativeRecovery]: full dump, schema only, table list. *)
Definition tryAlternativeRecovery (inputPath outputPath : string) : M result :=
  dumpResult <- tryDumpCommand inputPath outputPath ;;
  if success dumpResult then ret dumpResult
  else
    schemaResult <- Server.trySchemaExtraction E inputPath outputPath ;;
    if success schemaResult then ret schemaResult
    else Server.tryBasicExtraction E inputPath outputPath.

(** [executeRecovery] *)
Definition executeRecovery (inputPath recoverCommand outputPath : string) : M result :=
  versionCheck <- Server.checkSqliteVersion E ;;
  if negb (VersionCheck.success versionCheck) then
    ret (failed ("SQLite3 is not available: " +:+ VersionCheck.error versionCheck +:+
                 ". Please install SQLite3 and ensure it's in your PATH."))
  else if negb (VersionCheck.hasRecover versionCheck) then
    tryAlternativeRecovery inputPath outputPath
  else
    child <- spawn E "sqlite3" [inputPath; recoverCommand] ;;
    ev <- awaitChild (snd child) ;;
    match ev with
    | Closed code output _ =>
        try_catch
          (if ((code =? 0) && (0 <? Js.slen output))%bool then
             writeFile E outputPath output ;;; ret succeeded
           else if ((code =? 0) && (Js.slen output =? 0))%bool then
             writeFile E outputPath ("-- No recoverable data found" +:+ nl) ;;;
             ret succeeded
           else tryAlternativeRecovery inputPath outputPath)
          (fun message => ret (failed ("Failed to write recovery file: " +:+ message)))
    | Errored message =>
        ret (failed ("Failed to execute sqlite3: " +:+ message +:+
                     ". Make sure sqlite3 is installed and in PATH."))
    end.

(** [createDatabaseFromSql] *)
Definition createDatabaseFromSql (sqlPath dbPath : string) : M result :=
  child <- spawn E "sqlite3" [dbPath] ;;
  emit (FsRead sqlPath) ;;;
  ev <- awaitChild (snd child) ;;
  match ev with
  | Closed code _ err =>
      Server.childReplays E sqlPath dbPath ;;;
      if code =? 0 then ret succeeded
      else ret (failed (Js.or_else err "Database creation failed"))
  | Errored message => ret (failed ("Failed to create database: " +:+ message))
  end.

End WithPlatform.
End ServerV1.

(** ** The stand-alone materialisation script ([src/create-db-from-sql.js]) *)

Module CreateDbScript.
Section WithPlatform.

Variable E : env.

Definition sqlPath : string := "uploads/manual_recovery_klopos.sql".
Definition dbPath : string := "uploads/recovered_klopos.db".

(** [fs.existsSync p] *)
Definition existsSync (p : string) : M bool := fun w =>
  Run (Resolved (bool_decide (is_Some (files w !! p)))) w [FsAccess p].

(** The script from its first line to the end of the child; the value is
    the exit status of the script. *)
Definition main : M Z :=
  present <- existsSync dbPath ;;
  (if present then unlink dbPath else ret tt) ;;;
  child <- spawn E "sqlite3" [dbPath] ;;
  emit (FsRead sqlPath) ;;;
  ev <- awaitChild (snd child) ;;
  match ev with
  | Closed code _ _ =>
      Server.childReplays E sqlPath dbPath ;;;
      if code =? 0 then stats <- stat dbPath ;; ret 0
      else ret 1
  | Errored _ => ret 1
  end.

End WithPlatform.
End CreateDbScript.

(** ** The streaming dump and its watchdog ([tryDumpCommand] of the server)

    The function is a set of listeners and timers around one child whose
    standard output is piped to the output file. It is embedded as the
    state machine that these callbacks drive: the state holds the local
    variables of the function, an event is one callback being run, and
    [step t e] is the body of that callback run at time [t]. [error_] is
    the variable [error] of the source, the text read from the child's
    standard error. *)

Module Watchdog.

Record state := State {
  error_ : string;
  bytesWritten : Z;
  writeError : option string;
  lastProgressUpdate : Z;
  lastDataReceived : Z;
  processComplete : bool;
  lastSignificantProgress : Z;
  bytesAtLastCheck : Z;
  lastSignificantSize : Z;
  timeAtLastSignificantSize : Z;
  processStartTime : Z;
  heartbeatCount : Z;
  heartbeatArmed : bool;
  watchdogArmed : bool;
  streamEnded : bool;
  signals : list (Z * string);
  published : list (Z * Z);
  resolved : option (Z * result)
}.

Definition set_error_ (v : string) (s : state) : state :=
  State v (bytesWritten s) (writeError s) (lastProgressUpdate s) (lastDataReceived s)
    (processComplete s) (lastSignificantProgress s) (bytesAtLastCheck s)
    (lastSignificantSize s) (timeAtLastSignificantSize s) (processStartTime s)
    (heartbeatCount s) (heartbeatArmed s) (watchdogArmed s) (streamEnded s)
    (signals s) (published s) (resolved s).

Definition set_bytesWritten (v : Z) (s : state) : state :=
  State (error_ s) v (writeError s) (lastProgressUpdate s) (lastDataReceived s)
    (processComplete s) (lastSignificantProgress s) (bytesAtLastCheck s)
    (lastSignificantSize s) (timeAtLastSignificantSize s) (processStartTime s)
    (heartbeatCount s) (heartbeatArmed s) (watchdogArmed s) (streamEnded s)
    (signals s) (published s) (resolved s).

Definition set_writeError (v : option string) (s : state) : state :=
  State (error_ s) (bytesWritten s) v (lastProgressUpdate s) (lastDataReceived s)
    (processComplete s) (lastSignificantProgress s) (bytesAtLastCheck s)
    (lastSignificantSize s) (timeAtLastSignificantSize s) (processStartTime s)
    (heartbeatCount s) (heartbeatArmed s) (watchdogArmed s) (streamEnded s)
    (signals s) (published s) (resolved s).

Definition set_lastProgressUpdate (v : Z) (s : state) : state :=
  State (error_ s) (bytesWritten s) (writeError s) v (lastDataReceived s)
    (processComplete s) (lastSignificantProgress s) (bytesAtLastCheck s)
    (lastSignificantSize s) (timeAtLastSignificantSize s) (processStartTime s)
    (heartbeatCount s) (heartbeatArmed s) (watchdogArmed s) (streamEnded s)
    (signals s) (published s) (resolved s).

Definition set_lastDataReceived (v : Z) (s : state) : state :=
  State (error_ s) (bytesWritten s) (writeError s) (lastProgressUpdate s) v
    (processComplete s) (lastSignificantProgress s) (bytesAtLastCheck s)
    (lastSignificantSize s) (timeAtLastSignificantSize s) (processStartTime s)
    (heartbeatCount s) (heartbeatArmed s) (watchdogArmed s) (streamEnded s)
    (signals s) (published s) (resolved s).

Definition set_processComplete (v : bool) (s : state) : state :=
  State (error_ s) (bytesWritten s) (writeError s) (lastProgressUpdate s)
    (lastDataReceived s) v (lastSignificantProgress s) (bytesAtLastCheck s)
    (lastSignificantSize s) (timeAtLastSignificantSize s) (processStartTime s)
    (heartbeatCount s) (heartbeatArmed s) (watchdogArmed s) (streamEnded s)
    (signals s) (published s) (resolved s).

Definition set_lastSignificantProgress (v : Z) (s : state) : state :=
  State (error_ s) (bytesWritten s) (writeError s) (lastProgressUpdate s)
    (lastDataReceived s) (processComplete s) v (bytesAtLastCheck s)
    (lastSignificantSize s) (timeAtLastSignificantSize s) (processStartTime s)
    (heartbeatCount s) (heartbeatArmed s) (watchdogArmed s) (streamEnded s)
    (signals s) (published s) (resolved s).

Definition set_bytesAtLastCheck (v : Z) (s : state) : state :=
  State (error_ s) (bytesWritten s) (writeError s) (lastProgressUpdate s)
    (lastDataReceived s) (processComplete s) (lastSignificantProgress s) v
    (lastSignificantSize s) (timeAtLastSignificantSize s) (processStartTime s)
    (heartbeatCount s) (heartbeatArmed s) (watchdogArmed s) (streamEnded s)
    (signals s) (published s) (resolved s).

Definition set_lastSignificantSize (v : Z) (s : state) : state :=
  State (error_ s) (bytesWritten s) (writeError s) (lastProgressUpdate s)
    (lastDataReceived s) (processComplete s) (lastSignificantProgress s)
    (bytesAtLastCheck s) v (timeAtLastSignificantSize s) (processStartTime s)
    (heartbeatCount s) (heartbeatArmed s) (watchdogArmed s) (streamEnded s)
    (signals s) (published s) (resolved s).

Definition set_timeAtLastSignificantSize (v : Z) (s : state) : state :=
  State (error_ s) (bytesWritten s) (writeError s) (lastProgressUpdate s)
    (lastDataReceived s) (processComplete s) (lastSignificantProgress s)
    (bytesAtLastCheck s) (lastSignificantSize s) v (processStartTime s)
    (heartbeatCount s) (heartbeatArmed s) (watchdogArmed s) (streamEnded s)
    (signals s) (published s) (resolved s).

Definition set_processStartTime (v : Z) (s : state) : state :=
  State (error_ s) (bytesWritten s) (writeError s) (lastProgressUpdate s)
    (lastDataReceived s) (processComplete s) (lastSignificantProgress s)
    (bytesAtLastCheck s) (lastSignificantSize s) (timeAtLastSignificantSize s) v
    (heartbeatCount s) (heartbeatArmed s) (watchdogArmed s) (streamEnded s)
    (signals s) (published s) (resolved s).

Definition set_heartbeatCount (v : Z) (s : state) : state :=
  State (error_ s) (bytesWritten s) (writeError s) (lastProgressUpdate s)
    (lastDataReceived s) (processComplete s) (lastSignificantProgress s)
    (bytesAtLastCheck s) (lastSignificantSize s) (timeAtLastSignificantSize s)
    (processStartTime s) v (heartbeatArmed s) (watchdogArmed s) (streamEnded s)
    (signals s) (published s) (resolved s).

Definition set_heartbeatArmed (v : bool) (s : state) : state :=
  State (error_ s) (bytesWritten s) (writeError s) (lastProgressUpdate s)
    (lastDataReceived s) (processComplete s) (lastSignificantProgress s)
    (bytesAtLastCheck s) (lastSignificantSize s) (timeAtLastSignificantSize s)
    (processStartTime s) (heartbeatCount s) v (watchdogArmed s) (streamEnded s)
    (signals s) (published s) (resolved s).

Definition set_watchdogArmed (v : bool) (s : state) : state :=
  State (error_ s) (bytesWritten s) (writeError s) (lastProgressUpdate s)
    (lastDataReceived s) (processComplete s) (lastSignificantProgress s)
    (bytesAtLastCheck s) (lastSignificantSize s) (timeAtLastSignificantSize s)
    (processStartTime s) (heartbeatCount s) (heartbeatArmed s) v (streamEnded s)
    (signals s) (published s) (resolved s).

Definition set_streamEnded (v : bool) (s : state) : state :=
  State (error_ s) (bytesWritten s) (writeError s) (lastProgressUpdate s)
    (lastDataReceived s) (processComplete s) (lastSignificantProgress s)
    (bytesAtLastCheck s) (lastSignificantSize s) (timeAtLastSignificantSize s)
    (processStartTime s) (heartbeatCount s) (heartbeatArmed s) (watchdogArmed s) v
    (signals s) (published s) (resolved s).

Definition set_signals (v : list (Z * string)) (s : state) : state :=
  State (error_ s) (bytesWritten s) (writeError s) (lastProgressUpdate s)
    (lastDataReceived s) (processComplete s) (lastSignificantProgress s)
    (bytesAtLastCheck s) (lastSignificantSize s) (timeAtLastSignificantSize s)
    (processStartTime s) (heartbeatCount s) (heartbeatArmed s) (watchdogArmed s)
    (streamEnded s) v (published s) (resolved s).

Definition set_published (v : list (Z * Z)) (s : state) : state :=
  State (error_ s) (bytesWritten s) (writeError s) (lastProgressUpdate s)
    (lastDataReceived s) (processComplete s) (lastSignificantProgress s)
    (bytesAtLastCheck s) (lastSignificantSize s) (timeAtLastSignificantSize s)
    (processStartTime s) (heartbeatCount s) (heartbeatArmed s) (watchdogArmed s)
    (streamEnded s) (signals s) v (resolved s).

Definition set_resolved (v : option (Z * result)) (s : state) : state :=
  State (error_ s) (bytesWritten s) (writeError s) (lastProgressUpdate s)
    (lastDataReceived s) (processComplete s) (lastSignificantProgress s)
    (bytesAtLastCheck s) (lastSignificantSize s) (timeAtLastSignificantSize s)
    (processStartTime s) (heartbeatCount s) (heartbeatArmed s) (watchdogArmed s)
    (streamEnded s) (signals s) (published s) v.

Inductive event :=
| Data (length : Z)
| Stderr (text : string)
| StreamError (message : string)
| ZeroOutputTimer
| WatchdogTick
| HeartbeatTick
| KillEscalation
| Close (code : Z)
| Error (message : string).

Definition MB : Z := 1024 * 1024.

Definition list_sum_Z (l : list Z) : Z := fold_right Z.add 0 l.

(** [resolve (r)]: only the first call settles the promise. *)
Definition resolve (t : Z) (r : result) (s : state) : state :=
  match resolved s with
  | Some _ => s
  | None => set_resolved (Some (t, r)) s
  end.

(** [sqlite3.kill (signal)] *)
Definition kill (t : Z) (signal : string) (s : state) : state :=
  set_signals (signals s ++ [(t, signal)]) s.

(** [sqlite3.killed]: a signal has been sent to the child. *)
Definition killed (s : state) : bool :=
  match signals s with
  | [] => false
  | _ => true
  end.

Definition clearIntervals (s : state) : state :=
  set_heartbeatArmed false (set_watchdogArmed false s).

Definition zeroOutputResult : result :=
  Result false
    (Some "Database too corrupted for full dump - switching to table recovery")
    None None None true false.

Definition noOutputResult : result :=
  Result false
    (Some "Process produced no output - database may be too corrupted for .dump")
    None None None true false.

Definition absoluteTimeoutResult (bytes : Z) : result :=
  Result false (Some "Process stuck on corrupted data - timeout")
    None None None true (0 <? bytes).

Definition stalledResult (bytes : Z) : result :=
  Result false (Some "Dump process timeout - database too corrupted for full dump")
    None None None true (0 <? bytes).

(** The state when the timers have been armed, at time [t0]. *)
Definition init (t0 : Z) : state :=
  State EmptyString 0 None t0 t0 false t0 0 0 t0 t0 0 true true false [] [] None.

(** The one-shot timer of 20 seconds. *)
Definition onZeroOutputTimer (t : Z) (s : state) : state :=
  if ((bytesWritten s =? 0) && negb (processComplete s))%bool then
    resolve t zeroOutputResult
      (set_streamEnded true (kill t "SIGKILL" (set_processComplete true s)))
  else s.

(** The watchdog interval of 15 seconds. *)
Definition onWatchdogTick (t : Z) (s : state) : state :=
  if processComplete s then s
  else
    let timeSinceSignificant := Js.round_div (t - timeAtLastSignificantSize s) 1000 in
    let timeSinceStart := Js.round_div (t - processStartTime s) 1000 in
    if ((bytesWritten s =? 0) && (15 <=? timeSinceStart))%bool then
      resolve t noOutputResult
        (set_streamEnded true
           (kill t "SIGKILL" (clearIntervals (set_processComplete true s))))
    else if ((180 <=? timeSinceSignificant) && (0 <? bytesWritten s))%bool then
      resolve t (absoluteTimeoutResult (bytesWritten s))
        (set_streamEnded true
           (kill t "SIGKILL" (clearIntervals (set_processComplete true s))))
    else s.

(** The heartbeat interval of 10 seconds. *)
Definition onHeartbeatTick (t : Z) (s0 : state) : state :=
  let s1 := set_heartbeatCount (heartbeatCount s0 + 1) s0 in
  if processComplete s1 then s1
  else
    let progressSinceLastCheck := bytesWritten s1 - bytesAtLastCheck s1 in
    let s2 :=
      if MB <? progressSinceLastCheck then
        set_bytesAtLastCheck (bytesWritten s1) (set_lastSignificantProgress t s1)
      else s1 in
    let timeSinceProgress := Js.round_div (t - lastSignificantProgress s2) 1000 in
    if ((120 <? timeSinceProgress) && (0 <? bytesWritten s2))%bool then
      resolve t (stalledResult (bytesWritten s2))
        (set_streamEnded true
           (kill t "SIGTERM" (set_heartbeatArmed false (set_processComplete true s2))))
    else s2.

(** The timer set one second after SIGTERM. *)
Definition onKillEscalation (t : Z) (s : state) : state :=
  if killed s then s else kill t "SIGKILL" s.

(** The ['data'] listener of the child's standard output. *)
Definition onData (t len : Z) (s0 : state) : state :=
  let s1 := set_lastDataReceived t (set_bytesWritten (bytesWritten s0 + len) s0) in
  let s2 :=
    if 10 * MB <? bytesWritten s1 - lastSignificantSize s1 then
      set_timeAtLastSignificantSize t (set_lastSignificantSize (bytesWritten s1) s1)
    else s1 in
  if ((3000 <? t - lastProgressUpdate s2) || (bytesWritten s2 mod (50 * MB) <? len))%bool
  then set_lastProgressUpdate t (set_published (published s2 ++ [(t, bytesWritten s2)]) s2)
  else s2.

(** The ['close'] listener; the wait for the output stream to finish is
    taken to end. *)
Definition onClose (t code : Z) (s0 : state) : state :=
  let s1 := set_streamEnded true (clearIntervals (set_processComplete true s0)) in
  match writeError s1 with
  | Some message => resolve t (failed message) s1
  | None =>
      if ((code =? 0) && (0 <? bytesWritten s1))%bool then resolve t succeeded s1
      else resolve t (failed (Js.or_else (error_ s1) "No data recovered")) s1
  end.

(** The ['error'] listener of the child. *)
Definition onError (t : Z) (message : string) (s : state) : state :=
  resolve t (failed message)
    (set_streamEnded true (clearIntervals (set_processComplete true s))).

(** One callback run at time [t]. A cleared interval does not fire. *)
Definition step (t : Z) (e : event) (s : state) : state :=
  match e with
  | Data len => onData t len s
  | Stderr text => set_error_ (error_ s +:+ text) s
  | StreamError message => set_writeError (Some message) s
  | ZeroOutputTimer => onZeroOutputTimer t s
  | WatchdogTick => if watchdogArmed s then onWatchdogTick t s else s
  | HeartbeatTick => if heartbeatArmed s then onHeartbeatTick t s else s
  | KillEscalation => onKillEscalation t s
  | Close code => onClose t code s
  | Error message => onError t message s
  end.

(** *** A child and the schedule of the timers

    A child is given by the chunks it writes to its standard output, each
    with the time after the start at which it arrives and its length, and
    by the time and code of its own exit, if it ever exits. *)
Record child := Child {
  output : list (Z * Z);
  exit : option (Z * Z)
}.

(** The timers fall on a grid of five seconds: tick [k] is the instant
    [5000 * k] milliseconds after the start. The 20 second timer is due at
    tick 4, the watchdog at every third tick, the heartbeat at every second
    one; timers due at the same instant run in the order they were set. *)
Definition timersAt (k : nat) : list event :=
  (if Nat.eqb k 4 then [ZeroOutputTimer] else []) ++
  (if Nat.eqb (k mod 3) 0 then [WatchdogTick] else []) ++
  (if Nat.eqb (k mod 2) 0 then [HeartbeatTick] else []).

Definition inWindow (k : nat) (offset : Z) : bool :=
  ((5000 * (Z.of_nat k - 1) <=? offset) && (offset <? 5000 * Z.of_nat k))%bool.

(** What the child does between tick [k - 1] and tick [k]: its chunks of
    that window, then its exit when it falls there and no signal has ended
    the child before. *)
Definition deliver (t0 : Z) (c : child) (k : nat) (s : state) : state :=
  let chunks := List.filter (fun d => inWindow k (fst d)) (output c) in
  let s1 := fold_left (fun a d => step (t0 + fst d) (Data (snd d)) a) chunks s in
  match exit c with
  | Some (offset, code) =>
      if (inWindow k offset && negb (killed s1))%bool
      then step (t0 + offset) (Close code) s1
      else s1
  | None => s1
  end.

Definition tick (t0 : Z) (c : child) (s : state) (k : nat) : state :=
  fold_left (fun a e => step (t0 + 5000 * Z.of_nat k) e a) (timersAt k) (deliver t0 c k s).

(** The run of [tryDumpCommand] on the child [c], started at [t0], up to
    and including tick [n]. The escalation timer is left out of the
    schedule: it runs one second after a SIGTERM, finds [killed] set and
    does nothing. *)
Definition runFor (t0 : Z) (c : child) (n : nat) : state :=
  fold_left (tick t0 c) (seq 1 n) (init t0).

(** A child that writes one byte every 200 seconds, the first one [first]
    milliseconds after the start, [n] bytes in all, and never exits. *)
Definition trickle (first : Z) (n : nat) : child :=
  Child (map (fun i => (first + 200000 * Z.of_nat i, 1)) (seq 0 n)) None.

(** The bytes of the chunks that arrive between tick [k - 1] and tick [k],
    and of those that have arrived before tick [k]. *)
Definition windowBytes (c : child) (k : nat) : Z :=
  list_sum_Z (map snd (List.filter (fun d => inWindow k (fst d)) (output c))).

Definition arrivedBy (c : child) (k : nat) : Z :=
  list_sum_Z (map snd (List.filter (fun d => ((0 <=? fst d) && (fst d <? 5000 * Z.of_nat k))%bool)
                         (output c))).

(** The run is under way and nothing has counted as progress yet: the
    child is alive, the promise is open, both intervals are armed, the
    marks of the last progress are those of the start, and [bytes] bytes
    have been written. *)
Definition quiet (t0 bytes : Z) (s : state) : Prop :=
  processComplete s = false /\ resolved s = None /\ signals s = [] /\
  heartbeatArmed s = true /\ watchdogArmed s = true /\ writeError s = None /\
  lastSignificantProgress s = t0 /\ bytesAtLastCheck s = 0 /\
  lastSignificantSize s = 0 /\ timeAtLastSignificantSize s = t0 /\
  processStartTime s = t0 /\ bytesWritten s = bytes.

Ltac st_simpl :=
  cbn [error_ bytesWritten writeError lastProgressUpdate lastDataReceived processComplete
       lastSignificantProgress bytesAtLastCheck lastSignificantSize
       timeAtLastSignificantSize processStartTime heartbeatCount heartbeatArmed
       watchdogArmed streamEnded signals published resolved
       set_error_ set_bytesWritten set_writeError set_lastProgressUpdate
       set_lastDataReceived set_processComplete set_lastSignificantProgress
       set_bytesAtLastCheck set_lastSignificantSize set_timeAtLastSignificantSize
       set_heartbeatCount set_heartbeatArmed set_watchdogArmed set_streamEnded
       set_signals set_published set_resolved kill clearIntervals].

Ltac bool_facts :=
  repeat match goal with
         | H : (_ && _)%bool = true |- _ => apply andb_true_iff in H; destruct H
         | H : (_ && _)%bool = false |- _ => apply andb_false_iff in H; destruct H
         | H : (_ || _)%bool = true |- _ => apply orb_true_iff in H; destruct H
         | H : (_ || _)%bool = false |- _ => apply orb_false_iff in H; destruct H
         | H : negb _ = true |- _ => apply negb_true_iff in H
         | H : negb _ = false |- _ => apply negb_false_iff in H
         | H : (_ <=? _) = true |- _ => apply Z.leb_le in H
         | H : (_ <=? _) = false |- _ => apply Z.leb_gt in H
         | H : (_ <? _) = true |- _ => apply Z.ltb_lt in H
         | H : (_ <? _) = false |- _ => apply Z.ltb_ge in H
         | H : (_ =? _) = true |- _ => apply Z.eqb_eq in H
         | H : (_ =? _) = false |- _ => apply Z.eqb_neq in H
         end.

Ltac time_lia :=
  unfold Js.round_div, MB in *; Z.to_euclidean_division_equations; lia.

(** The branch taken by a callback: every test of the body is put among
    the hypotheses as an inequality. *)
Ltac branches :=
  repeat match goal with
         | |- context [if ?b then _ else _] =>
             match type of b with
             | bool => let Hb := fresh "Hb" in destruct b eqn:Hb; st_simpl
             end
         end.

End Watchdog.

(** ** Reading a run

    Definitions used to state what a run did: the children it spawned, the
    strategy a child belongs to, the text that the table loop is expected
    to leave. *)

Definition spawnArgs (a : action) : option (list string) :=
  match a with
  | Spawn _ _ args => Some args
  | _ => None
  end.

(** The argument lists of the children spawned along a trace, in order. *)
Definition spawnsOf (tr : list action) : list (list string) := omap spawnArgs tr.

Inductive strategy :=
| Probe
| Primary
| FullDump
| TableByTable
| SchemaOnly
| TableList
| Unknown.

(** The strategy that a [sqlite3] child serves, read off its arguments. *)
Definition strategyOf (args : list string) : strategy :=
  match args with
  | [a] => if String.eqb a "--version" then Probe else Unknown
  | [a; c] =>
      if (String.eqb a ":memory:" && String.eqb c ".help")%bool then Probe
      else if String.eqb c ".dump" then FullDump
      else if String.eqb c ".schema" then SchemaOnly
      else if String.eqb c ".tables" then TableList
      else if Js.startsWith c (".dump " +:+ dq) then TableByTable
      else if Js.startsWith c ".recover" then Primary
      else Unknown
  | [_; j; _] => if String.eqb j "-json" then TableByTable else Unknown
  | _ => Unknown
  end.

(** The place of a strategy in the chain. *)
Definition rank (s : strategy) : Z :=
  match s with
  | Probe => 0
  | Primary => 1
  | FullDump => 2
  | TableByTable => 3
  | SchemaOnly => 4
  | TableList => 5
  | Unknown => 6
  end.

Definition strategiesOf (tr : list action) : list strategy := map strategyOf (spawnsOf tr).

(** Every child of the trace serves a strategy of rank [lo] to [hi]. *)
Definition ranksWithin (lo hi : Z) (tr : list action) : Prop :=
  Forall (fun s => lo <= rank s <= hi) (strategiesOf tr).

(** The strategies are met in the order of the chain. *)
Definition inChainOrder (tr : list action) : Prop :=
  StronglySorted Z.le (map rank (strategiesOf tr)).

(** No child of the trace serves the full-dump strategy. *)
Definition noFullDump (tr : list action) : Prop :=
  Forall (fun s => s <> FullDump) (strategiesOf tr).

(** The children of the trace serve strategies of rank [lo] to [hi], in the
    order of the chain, and none of them is a full dump. *)
Definition staged (lo hi : Z) (tr : list action) : Prop :=
  ranksWithin lo hi tr /\ inChainOrder tr /\ noFullDump tr.




(** What [dumpSingleTable] resolves for each of [rows], the first of them
    being dumped by the child number [pid]. *)
Fixpoint tableResults (E : env) (pid : nat) (inputPath : string) (rows : list row)
  : list result :=
  match rows with
  | [] => []
  | t :: rest =>
      Server.dumpResult
        (proc E pid "sqlite3" [inputPath; Server.dumpTableCommand (name t)])
      :: tableResults E (S pid) inputPath rest
  end.

(** The text owed to one table: its dump, or its placeholder comment. *)
Definition tableEntry (tableName : string) (tableResult : result) : string :=
  if success tableResult then Server.tableData tableName tableResult
  else Server.tablePlaceholder tableName tableResult.

Fixpoint entriesText (rows : list row) (results : list result) : string :=
  match rows, results with
  | t :: rows', r :: results' => tableEntry (name t) r +:+ entriesText rows' results'
  | _, _ => EmptyString
  end.

Fixpoint failedNames (rows : list row) (results : list result) : list string :=
  match rows, results with
  | t :: rows', r :: results' =>
      if success r then failedNames rows' results'
      else name t :: failedNames rows' results'
  | _, _ => []
  end.

Definition recoveredCount (results : list result) : Z :=
  Z.of_nat (length (List.filter success results)).

(** A resolved path lies in a directory when it is the directory or is
    below it. *)
Definition insideDir (dir p : string) : bool :=
  (String.eqb p dir || Js.startsWith p (dir +:+ "/"))%bool.

(** A run is followed one [await] at a time: [after acc r] is the run [r]
    with the actions [acc] already done before it. *)
Definition after {A} (acc : list action) (r : run A) : run A :=
  Run (outcome r) (final r) (acc ++ trace r).

Ltac world_simpl :=
  cbn [outcome final trace files dirs now spawned set_files fst snd app
       after ret throw never emit sleep Date_now].

(** ** Scenarios *)

Module Scenario.

(** A host on which [sqlite3] cannot be started. *)
Definition missingTool : env :=
  Env (fun _ _ _ => SpawnFails "spawn sqlite3 ENOENT")
      (fun _ => true)
      (fun _ => None)
      (fun _ script => script)
      (fun _ => Some (ZipEntry "shop.db" "SQLite format 3"))
      "/app".

(** An archive has just been uploaded into the uploads directory. *)
Definition zipUploaded : world :=
  World {[ "uploads/corrupt_1700000000000_backup.zip" := File "PK" 1700000000000 ]}
        {[ "uploads" ]} 1700000000005 0.

Definition zipRequest : Req.t :=
  Req.Make (Some (Upload.Make "uploads/corrupt_1700000000000_backup.zip" "backup.zip"))
           (Some "s1") EmptyString EmptyString EmptyString.

Definition extractedPath : string := "uploads/extracted_1700000000005_shop.db".

(** A tool built without [.recover]: the probe succeeds and finds the
    command missing; the database has one table, [t], which dumps well. *)
Definition restrictedTool : env :=
  Env (fun _ _ args =>
         match args with
         | [a] => Exits 10 0 "3.22.0 2018-01-22" EmptyString
         | [_; c] =>
             if String.eqb c ".help" then Exits 10 0 ".dump  .schema  .tables" EmptyString
             else if Js.startsWith c ".dump " then Exits 50 0 "CREATE TABLE t(a);" EmptyString
             else Exits 10 1 EmptyString "Error: unknown command"
         | _ => Exits 20 0 "[{name:t}]" EmptyString
         end)
      (fun _ => true)
      (fun _ => Some [Row "t" 0])
      (fun _ script => script)
      (fun _ => None)
      "/app".

(** A full tool whose [.recover] fails on the damaged file; the database
    has two tables, of which [orders] hangs and [items] dumps well. *)
Definition damagedFile : env :=
  Env (fun _ _ args =>
         match args with
         | [a] => Exits 10 0 "3.45.1 2024-01-30" EmptyString
         | [_; c] =>
             if String.eqb c ".help" then Exits 10 0 ".dump  .recover  .schema" EmptyString
             else if String.eqb c (".dump " +:+ dq +:+ "orders" +:+ dq) then Hangs
             else if Js.startsWith c ".dump " then Exits 50 0 "CREATE TABLE items(a);" EmptyString
             else Exits 10 1 EmptyString "Error: database disk image is malformed"
         | _ => Exits 20 0 "[{name:orders},{name:items}]" EmptyString
         end)
      (fun _ => true)
      (fun _ => Some [Row "orders" 0; Row "items" 0])
      (fun old script =>
         match old with
         | Some stale => stale +:+ script
         | None => script
         end)
      (fun _ => None)
      "/app".

(** An uploads directory that holds a damaged database, a recovered
    script, and a database file left at the target of the replay. *)
Definition staleTarget : world :=
  World {[ "uploads/corrupt_1_shop.db" := File "damaged" 1000;
           "uploads/recovery_1_shop.sql" := File "CREATE TABLE items(a);" 2000;
           "uploads/recovered_1_shop.db" := File "[old rows]" 500 ]}
        {[ "uploads" ]} 3000 0.

End Scenario.

(** ** The choice of the database inside an archive *)

Module Zip.

(** An entry of the archive as the selection reads it: [entryName],
    [isDirectory] and [header.size]. *)
Record entry := Entry {
  entryName : string;
  isDirectory : bool;
  size : Z
}.

Definition sqliteExtensions : list string := [".db"; ".sqlite"; ".sqlite3"].

(** [sqliteExtensions.includes (path.extname (entry.entryName).toLowerCase ())] *)
Definition hasSqliteExtension (e : entry) : bool :=
  let entryExt := Js.toLowerCase (Path.extname (entryName e)) in
  existsb (String.eqb entryExt) sqliteExtensions.

(** The test of the second loop, on the lower-cased entry name. *)
Definition looksLikeDatabase (e : entry) : bool :=
  let fileName := Js.toLowerCase (entryName e) in
  (Js.includes fileName "db" || Js.includes fileName "database" ||
   Js.includes fileName "sqlite" || Js.includes fileName "klopos")%bool.

(** A [for] loop that skips the directories and breaks at the first entry
    that passes [test]. *)
Fixpoint firstFile (test : entry -> bool) (zipEntries : list entry) : option entry :=
  match zipEntries with
  | [] => None
  | e :: rest =>
      if isDirectory e then firstFile test rest
      else if test e then Some e
      else firstFile test rest
  end.

(** The third loop: the largest file, [largestEntry] and [largestSize]
    being the variables of the loop. *)
Fixpoint largest (zipEntries : list entry) (largestEntry : option entry) (largestSize : Z)
  : option entry :=
  match zipEntries with
  | [] => largestEntry
  | e :: rest =>
      if isDirectory e then largest rest largestEntry largestSize
      else if largestSize <? size e then largest rest (Some e) (size e)
      else largest rest largestEntry largestSize
  end.

(** The entry that [extractSqliteFromZip] extracts: by extension, then by
    name, then by size. *)
Definition selectEntry (zipEntries : list entry) : option entry :=
  match firstFile hasSqliteExtension zipEntries with
  | Some e => Some e
  | None =>
      match firstFile looksLikeDatabase zipEntries with
      | Some e => Some e
      | None => largest zipEntries None 0
      end
  end.

End Zip.

(** ** The progress channel

    [progressStore] maps a session to the responses of the clients that
    listen to it. A response is known by its identity, a number here, and
    a write to a response is the pair of the response and the text. *)

Module ProgressStore.

Definition connectedMessage : string :=
  "data: {" +:+ dq +:+ "type" +:+ dq +:+ ":" +:+ dq +:+ "connected" +:+ dq +:+ "," +:+
  dq +:+ "message" +:+ dq +:+ ":" +:+ dq +:+ "Progress stream connected" +:+ dq +:+ "}" +:+
  nl +:+ nl.

(** [app.get ('/api/progress/:sessionId')]: the greeting is written and
    the response is stored under the session. *)
Definition subscribe (sessionId : string) (res : nat) (store : gmap string (list nat))
  : gmap string (list nat) * list (nat * string) :=
  let store1 :=
    match store !! sessionId with
    | Some _ => store
    | None => <[sessionId := []]> store
    end in
  let clients := match store1 !! sessionId with Some l => l | None => [] end in
  (<[sessionId := clients ++ [res]]> store1, [(res, connectedMessage)]).

(** [clients.splice (clients.indexOf (res), 1)] when the index is not -1. *)
Fixpoint removeFirst (res : nat) (clients : list nat) : list nat :=
  match clients with
  | [] => []
  | c :: rest => if Nat.eqb c res then rest else c :: removeFirst res rest
  end.

(** The ['close'] listener of the request. *)
Definition onClose (sessionId : string) (res : nat) (store : gmap string (list nat))
  : gmap string (list nat) :=
  match store !! sessionId with
  | Some clients =>
      match removeFirst res clients with
      | [] => delete sessionId store
      | clients' => <[sessionId := clients']> store
      end
  | None => store
  end.

(** [sendProgress (sessionId, data)], [json] being [JSON.stringify (data)]:
    the writes it makes. *)
Definition sendProgress (sessionId json : string) (store : gmap string (list nat))
  : list (nat * string) :=
  match store !! sessionId with
  | Some clients => map (fun c => (c, "data: " +:+ json +:+ nl +:+ nl)) clients
  | None => []
  end.

(** What happens to the store: a client connects, or a connection ends. *)
Inductive event :=
| Connect (sessionId : string) (res : nat)
| Disconnect (sessionId : string) (res : nat).

Definition step (store : gmap string (list nat)) (e : event) : gmap string (list nat) :=
  match e with
  | Connect sessionId res => fst (subscribe sessionId res store)
  | Disconnect sessionId res => onClose sessionId res store
  end.

(** The store after the events, the server having started with an empty
    map. *)
Definition after (events : list event) : gmap string (list nat) := fold_left step events ∅.

End ProgressStore.

(** ** The diagnostic script ([src/check-stuck.js]) *)

Module CheckStuck.

Inductive verdict :=
| NoFiles
| Stuck (name : string) (sizeMB ageSeconds : Z)
| Active (name : string) (sizeMB ageSeconds checkAgainIn : Z).

Definition isRecoverySql (f : Server.dirent) : bool :=
  (Js.startsWith (Server.d_name f) "recovery_" && Js.endsWith (Server.d_name f) ".sql")%bool.

(** What the script prints at time [t] for a listing of the uploads
    directory. *)
Definition main (t : Z) (listing : list Server.dirent) : verdict :=
  let sqlFiles := Server.sortNewestFirst (List.filter isRecoverySql listing) in
  match sqlFiles with
  | [] => NoFiles
  | latestFile :: _ =>
      let sizeMB := Js.round_div (Server.d_size latestFile) (1024 * 1024) in
      let ageSeconds := Js.round_div (t - Server.d_mtime latestFile) 1000 in
      if 120 <? ageSeconds then Stuck (Server.d_name latestFile) sizeMB ageSeconds
      else Active (Server.d_name latestFile) sizeMB ageSeconds (120 - ageSeconds)
  end.

End CheckStuck.

(** ** The manual recovery submission *)

Module Manual.
Section WithPlatform.

Variable E : env.





End WithPlatform.
End Manual.

(** ** More readings of a run *)

Definition progressOf (a : action) : option Z :=
  match a with
  | Progress _ _ percent _ => Some percent
  | _ => None
  end.

(** The percentages published along a trace, in order. *)
Definition percentsOf (tr : list action) : list Z := omap progressOf tr.

(** The percentages of the trace lie between [lo] and [hi] and never go
    down. *)
Definition paced (lo hi : Z) (tr : list action) : Prop :=
  Forall (fun p => lo <= p <= hi) (percentsOf tr) /\ StronglySorted Z.le (percentsOf tr).

(** A file name that [path.join ('uploads', name)] leaves as it is: not
    empty, not a dot segment, and without a separator. *)
Definition plainName (name : string) : Prop :=
  name <> EmptyString /\ name <> "." /\ name <> ".." /\
  Forall (fun c => c <> "/"%char) (Js.chars name).

(** The characters that [sanitize] lets through. *)
Definition safeChar (c : ascii) : bool :=
  let n := nat_of_ascii c in
  ((Nat.leb 97 n && Nat.leb n 122) || (Nat.leb 65 n && Nat.leb n 90) ||
   (Nat.leb 48 n && Nat.leb n 57) || Nat.eqb n 46 || Nat.eqb n 45 || Nat.eqb n 95)%bool.

(** What the cleanup has done to the files of [w0] when it has reached
    [w]: a file is as it was, or it is gone and was a recovery artefact of
    the uploads directory last modified before [limit]. *)
Definition cleaned (limit : Z) (w0 w : world) : Prop :=
  forall p,
    files w !! p = files w0 !! p \/
    (files w !! p = None /\
     exists name f, p = Path.join "uploads" name /\ files w0 !! p = Some f /\
                    Server.isRecoveryArtifact name = true /\ mtime f < limit).
Example round_half_up : Js.round_div 120500 1000 = 121.
Proof. reflexivity. Qed.

Example round_down : Js.round_div 120499 1000 = 120.
Proof. reflexivity. Qed.

Example join_plain : Path.join "uploads" "recovery_1_a.sql" = "uploads/recovery_1_a.sql".
Proof. reflexivity. Qed.

Example join_climbs : Path.join "uploads" "../../etc/passwd" = "../etc/passwd".
Proof. reflexivity. Qed.

Example resolve_relative : Path.resolve "/app" "uploads" = "/app/uploads".
Proof. reflexivity. Qed.

Example resolve_above_root : Path.resolve "/app" "../../../etc" = "/etc".
Proof. reflexivity. Qed.

Example extname_upper : Js.toLowerCase (Path.extname "Backup.v2.ZIP") = ".zip".
Proof. reflexivity. Qed.

Example extname_hidden : Path.extname ".profile" = EmptyString.
Proof. reflexivity. Qed.

Example basename_ext_strip : Path.basename_ext "dir/shop.db" ".db" = "shop".
Proof. reflexivity. Qed.

(** ** Reasoning about runs *)

Lemma after_nil {A} (r : run A) : after [] r = r.
Proof. destruct r; reflexivity. Qed.

Lemma after_after {A} (a b : list action) (r : run A) :
  after a (after b r) = after (a ++ b) r.
Proof. unfold after; cbn [outcome final trace]. now rewrite app_assoc. Qed.

Lemma after_Run {A} (acc t : list action) (o : settled A) (w : world) :
  after acc (Run o w t) = Run o w (acc ++ t).
Proof. reflexivity. Qed.

Lemma bind_resolved {A B} (m : M A) (k : A -> M B) (w w' : world) (a : A) (t : list action) :
  m w = Run (Resolved a) w' t -> bind m k w = after t (k a w').
Proof. intros H. unfold bind. rewrite H. reflexivity. Qed.

Lemma bind_rejected {A B} (m : M A) (k : A -> M B) (w w' : world) (e : string)
    (t : list action) :
  m w = Run (Rejected e) w' t -> bind m k w = Run (Rejected e) w' t.
Proof. intros H. unfold bind. rewrite H. reflexivity. Qed.

Lemma bind_pending {A B} (m : M A) (k : A -> M B) (w w' : world) (t : list action) :
  m w = Run Pending w' t -> bind m k w = Run Pending w' t.
Proof. intros H. unfold bind. rewrite H. reflexivity. Qed.

Lemma try_resolved {A} (m : M A) (h : string -> M A) (w w' : world) (a : A)
    (t : list action) :
  m w = Run (Resolved a) w' t -> try_catch m h w = Run (Resolved a) w' t.
Proof. intros H. unfold try_catch. rewrite H. reflexivity. Qed.

Lemma try_rejected {A} (m : M A) (h : string -> M A) (w w' : world) (e : string)
    (t : list action) :
  m w = Run (Rejected e) w' t -> try_catch m h w = after t (h e w').
Proof. intros H. unfold try_catch. rewrite H. reflexivity. Qed.

Lemma try_pending {A} (m : M A) (h : string -> M A) (w w' : world) (t : list action) :
  m w = Run Pending w' t -> try_catch m h w = Run Pending w' t.
Proof. intros H. unfold try_catch. rewrite H. reflexivity. Qed.

(** The three components of a sequence, in terms of its two halves. *)
Lemma trace_bind {A B} (m : M A) (k : A -> M B) (w : world) :
  trace (bind m k w)
  = trace (m w) ++ match outcome (m w) with
                   | Resolved a => trace (k a (final (m w)))
                   | _ => []
                   end.
Proof. unfold bind. destruct (outcome (m w)); cbn [trace]; now rewrite ?app_nil_r. Qed.

Lemma outcome_bind {A B} (m : M A) (k : A -> M B) (w : world) :
  outcome (bind m k w)
  = match outcome (m w) with
    | Resolved a => outcome (k a (final (m w)))
    | Rejected e => Rejected e
    | Pending => Pending
    end.
Proof. unfold bind. destruct (outcome (m w)); reflexivity. Qed.

Lemma final_bind {A B} (m : M A) (k : A -> M B) (w : world) :
  final (bind m k w)
  = match outcome (m w) with
    | Resolved a => final (k a (final (m w)))
    | _ => final (m w)
    end.
Proof. unfold bind. destruct (outcome (m w)); reflexivity. Qed.

Lemma run_eta {A} (r : run A) : r = Run (outcome r) (final r) (trace r).
Proof. destruct r; reflexivity. Qed.

(** Waiting for a child never rejects. *)
Lemma awaitChild_run (b : behaviour) (w : world) :
  awaitChild b w
  = match b with
    | Exits d code out err =>
        Run (Resolved (Closed code out err))
            (World (files w) (dirs w) (now w + d) (spawned w)) []
    | SpawnFails message => Run (Resolved (Errored message)) w []
    | Hangs => Run Pending w []
    end.
Proof. destruct b; reflexivity. Qed.

Lemma spawn_run (E : env) (command : string) (args : list string) (w : world) :
  spawn E command args w
  = Run (Resolved (spawned w, proc E (spawned w) command args))
        (World (files w) (dirs w) (now w) (S (spawned w)))
        [Spawn (spawned w) command args].
Proof. reflexivity. Qed.


(** The file-system primitives, case by case. *)
Lemma access_present (p : string) (w : world) (f : file) :
  files w !! p = Some f -> access p w = Run (Resolved tt) w [FsAccess p].
Proof. intros H. unfold access. now rewrite H. Qed.

Lemma access_directory (p : string) (w : world) :
  files w !! p = None -> p ∈ dirs w -> access p w = Run (Resolved tt) w [FsAccess p].
Proof. intros H Hd. unfold access. rewrite H. now destruct (decide (p ∈ dirs w)). Qed.

Lemma access_absent (p : string) (w : world) :
  files w !! p = None -> p ∉ dirs w ->
  access p w
  = Run (Rejected ("ENOENT: no such file or directory, access " +:+ p)) w [FsAccess p].
Proof. intros H Hd. unfold access. rewrite H. now destruct (decide (p ∈ dirs w)). Qed.

Lemma stat_present (p : string) (w : world) (f : file) :
  files w !! p = Some f -> stat p w = Run (Resolved f) w [FsStat p].
Proof. intros H. unfold stat. now rewrite H. Qed.

Lemma stat_absent (p : string) (w : world) :
  files w !! p = None ->
  stat p w = Run (Rejected ("ENOENT: no such file or directory, stat " +:+ p)) w [FsStat p].
Proof. intros H. unfold stat. now rewrite H. Qed.

Lemma unlink_present (p : string) (w : world) (f : file) :
  files w !! p = Some f ->
  unlink p w = Run (Resolved tt) (set_files (delete p) w) [FsUnlink p].
Proof. intros H. unfold unlink. now rewrite H. Qed.

Lemma unlink_absent (p : string) (w : world) :
  files w !! p = None ->
  unlink p w
  = Run (Rejected ("ENOENT: no such file or directory, unlink " +:+ p)) w [FsUnlink p].
Proof. intros H. unfold unlink. now rewrite H. Qed.

Lemma writeFile_ok (E : env) (p c : string) (w : world) :
  writable E p = true ->
  writeFile E p c w
  = Run (Resolved tt) (set_files (insert p (File c (now w))) w) [FsWrite p].
Proof. intros H. unfold writeFile. now rewrite H. Qed.

Lemma writeFile_denied (E : env) (p c : string) (w : world) :
  writable E p = false ->
  writeFile E p c w
  = Run (Rejected ("EACCES: permission denied, open " +:+ p)) w [FsWrite p].
Proof. intros H. unfold writeFile. now rewrite H. Qed.

Lemma appendFile_ok (E : env) (p c : string) (w : world) :
  writable E p = true ->
  appendFile E p c w
  = Run (Resolved tt)
        (set_files (insert p (File (match files w !! p with
                                    | Some f => content f
                                    | None => EmptyString
                                    end +:+ c) (now w))) w)
        [FsAppend p].
Proof. intros H. unfold appendFile. now rewrite H. Qed.

(** An ignored failure: [try { await m } catch {}]. *)
Lemma try_ignore_final (m : M unit) (w : world) :
  outcome (m w) <> Pending ->
  try_catch m (fun _ => ret tt) w = Run (Resolved tt) (final (m w)) (trace (m w)).
Proof.
  intros H. unfold try_catch. destruct (m w) as [[[]|e|] w' t]; cbn in *;
    try congruence. unfold ret. now rewrite app_nil_r.
Qed.

(** ** The status probe *)




(** The handler answers with that report whenever the directory can be
    listed. *)
Lemma get_api_status_answers (w : world) :
  "uploads" ∈ dirs w ->
  exists l, outcome (Server.get_api_status w) = Resolved (StatusOk (Server.statusOf (now w) l)).
Proof.
  intros Hd. unfold Server.get_api_status, Server.listing, readdir, try_catch, bind.
  destruct (decide ("uploads" ∈ dirs w)) as [_|Hn]; [|contradiction].
  simpl. eexists. reflexivity.
Qed.

(** ** Artefact retrieval *)

(** A refused identifier costs no access to the file system: the refusal is
    the first thing the handler does. *)
Lemma download_refusal_precedes_access (E : env) (w : world) (filename : string) :
  Js.startsWith (Path.resolve (cwd E) (Path.join "uploads" filename))
                (Path.resolve (cwd E) "uploads") = false ->
  Server.get_api_download E filename w = Run (Resolved (JsonError 403 "Access denied")) w [].
Proof.
  intros H. unfold Server.get_api_download. cbv zeta. rewrite H. reflexivity.
Qed.

(** Identifiers that climb out of the working directory are refused. *)
Example download_refuses_climb (w : world) :
  Server.get_api_download Scenario.missingTool "../../etc/passwd" w
  = Run (Resolved (JsonError 403 "Access denied")) w [].
Proof. apply download_refusal_precedes_access. vm_compute. reflexivity. Qed.

(** C8, at the failing input. The identifier [../uploads_old/recovery.sql]
    resolves to [/app/uploads_old/recovery.sql], outside the uploads
    directory [/app/uploads]; the handler does not refuse it, because the
    test compares text prefixes, and goes on to access the file: it is
    streamed when it exists. *)
Theorem download_admits_sibling_directory (w : world) :
  let filename := "../uploads_old/recovery.sql" in
  let r := Server.get_api_download Scenario.missingTool filename w in
  Path.resolve "/app" (Path.join "uploads" filename) = "/app/uploads_old/recovery.sql" /\
  insideDir (Path.resolve "/app" "uploads")
            (Path.resolve "/app" (Path.join "uploads" filename)) = false /\
  outcome r <> Resolved (JsonError 403 "Access denied") /\
  In (FsAccess "uploads_old/recovery.sql") (trace r) /\
  (is_Some (files w !! "uploads_old/recovery.sql") ->
   outcome r = Resolved (SendFile "uploads_old/recovery.sql" "text/sql" filename)).
Proof.
  cbv zeta.
  split; [vm_compute; reflexivity|]. split; [vm_compute; reflexivity|].
  assert (Hck : Js.startsWith
                  (Path.resolve (cwd Scenario.missingTool)
                     (Path.join "uploads" "../uploads_old/recovery.sql"))
                  (Path.resolve (cwd Scenario.missingTool) "uploads") = true)
    by (vm_compute; reflexivity).
  assert (Hj : Path.join "uploads" "../uploads_old/recovery.sql" = "uploads_old/recovery.sql")
    by (vm_compute; reflexivity).
  assert (Hx : Js.toLowerCase (Path.extname "../uploads_old/recovery.sql") = ".sql")
    by (vm_compute; reflexivity).
  unfold Server.get_api_download. cbv zeta. rewrite Hck, Hj, Hx.
  cbn [negb]. rewrite String.eqb_refl.
  destruct (files w !! "uploads_old/recovery.sql") as [f|] eqn:Hf.
  - erewrite try_resolved.
    2:{ erewrite bind_resolved by (eapply access_present; eassumption).
        erewrite bind_resolved by reflexivity.
        erewrite bind_resolved by reflexivity.
        unfold ret, after. world_simpl. reflexivity. }
    world_simpl. split; [discriminate|]. split; [now left|]. intros _. reflexivity.
  - destruct (decide ("uploads_old/recovery.sql" ∈ dirs w)).
    + erewrite try_resolved.
      2:{ erewrite bind_resolved by (eapply access_directory; eassumption).
          erewrite bind_resolved by reflexivity.
          erewrite bind_resolved by reflexivity.
          unfold ret, after. world_simpl. reflexivity. }
      world_simpl. split; [discriminate|]. split; [now left|].
      intros [x Hx']. discriminate Hx'.
    + erewrite try_rejected
        by (erewrite bind_rejected by (eapply access_absent; eassumption); reflexivity).
      unfold ret, after. world_simpl.
      split; [discriminate|]. split; [now left|]. intros [x Hx']. discriminate Hx'.
Qed.

(** ** Materialisation *)

(** C6, on the server. [createDatabaseFromSql] deletes nothing, and the
    replaying child opens whatever the target path holds: when a file is
    there, the new database is the script applied to the old content. *)
Theorem materialisation_keeps_stale_target (E : env) (w : world)
    (sqlPath dbPath sessionId : string) :
  let r := Server.createDatabaseFromSql E sqlPath dbPath sessionId w in
  (forall p, ~ In (FsUnlink p) (trace r)) /\
  (forall d code out err,
     proc E (spawned w) "sqlite3" [dbPath] = Exits d code out err ->
     content <$> files (final r) !! dbPath
     = Some (replay E (content <$> files w !! dbPath)
               (match files w !! sqlPath with
                | Some f => content f
                | None => EmptyString
                end))).
Proof.
  cbv zeta.
  assert (Hstat : exists n,
    try_catch (bind (stat sqlPath) (fun sqlStats => ret (size sqlStats))) (fun _ => ret 0) w
    = Run (Resolved n) w [FsStat sqlPath]).
  { unfold try_catch, bind, stat. destruct (files w !! sqlPath); eexists; reflexivity. }
  destruct Hstat as [n Hstat].
  unfold Server.createDatabaseFromSql.
  rewrite (bind_resolved _ _ _ _ _ _ Hstat).
  rewrite (bind_resolved _ _ _ _ _ _ (spawn_run _ _ _ _)), after_after.
  rewrite (bind_resolved _ _ _ _ _ _ (eq_refl : emit _ _ = Run (Resolved tt) _ _)), after_after.
  unfold after. cbn [outcome final trace].
  rewrite final_bind, trace_bind, awaitChild_run.
  destruct (proc E (spawned w) "sqlite3" [dbPath]) as [d code out err|msg|] eqn:Hp;
    world_simpl.
  - unfold Server.childReplays.
    rewrite final_bind, trace_bind. world_simpl.
    destruct (code =? 0); world_simpl.
    all: (split; [intros p Hin; cbn [In] in Hin; intuition discriminate|]).
    all: intros ? ? ? ? _; rewrite lookup_insert_eq; reflexivity.
  - split; [intros p Hin; cbn [In] in Hin; intuition discriminate|]. intros; discriminate.
  - split; [intros p Hin; cbn [In] in Hin; intuition discriminate|]. intros; discriminate.
Qed.

(** The same, computed: a database file left at the target is neither
    removed nor replaced; its rows stay under the replayed script. *)
Example materialisation_mixes_stale_rows :
  let r := Server.createDatabaseFromSql Scenario.damagedFile
             "uploads/recovery_1_shop.sql" "uploads/recovered_1_shop.db" "s1"
             Scenario.staleTarget in
  outcome r = Resolved succeeded /\
  trace r = [FsStat "uploads/recovery_1_shop.sql";
             Spawn 0 "sqlite3" ["uploads/recovered_1_shop.db"];
             FsRead "uploads/recovery_1_shop.sql"] /\
  content <$> files (final r) !! "uploads/recovered_1_shop.db"
  = Some "[old rows]CREATE TABLE items(a);".
Proof. vm_compute. repeat split. Qed.

(** The stand-alone script does remove the target first: its child always
    starts from an absent file. *)
Lemma script_removes_target_first (E : env) (w : world) :
  let r := CreateDbScript.main E w in
  (is_Some (files w !! CreateDbScript.dbPath) ->
   exists rest, trace r = FsAccess CreateDbScript.dbPath :: FsUnlink CreateDbScript.dbPath
                          :: Spawn (spawned w) "sqlite3" [CreateDbScript.dbPath] :: rest) /\
  (forall d code out err,
     proc E (spawned w) "sqlite3" [CreateDbScript.dbPath] = Exits d code out err ->
     content <$> files (final r) !! CreateDbScript.dbPath
     = Some (replay E None
               (match files w !! CreateDbScript.sqlPath with
                | Some f => content f
                | None => EmptyString
                end))).
Proof.
  cbv zeta.
  assert (Hne : CreateDbScript.dbPath <> CreateDbScript.sqlPath) by discriminate.
  unfold CreateDbScript.main.
  set (db := CreateDbScript.dbPath) in *. set (sq := CreateDbScript.sqlPath) in *.
  erewrite bind_resolved by reflexivity.
  assert (Hrm : exists w1 t1,
    bind (if bool_decide (is_Some (files w !! db)) then unlink db else ret tt)
      (fun _ : unit => ret tt) w = Run (Resolved tt) w1 t1 /\
    files w1 !! db = None /\ files w1 !! sq = files w !! sq /\ spawned w1 = spawned w /\
    (is_Some (files w !! db) -> t1 = [FsUnlink db])).
  { destruct (files w !! db) as [old|] eqn:Hold.
    - rewrite bool_decide_eq_true_2 by eauto.
      eexists _, _. split.
      + erewrite bind_resolved by (eapply unlink_present; eassumption). reflexivity.
      + world_simpl. rewrite lookup_delete_eq, lookup_delete_ne by exact Hne.
        repeat split.
    - rewrite bool_decide_eq_false_2 by (intros [x Hx]; discriminate Hx).
      eexists _, _. split; [reflexivity|]. world_simpl.
      repeat split; try assumption. intros [x Hx]; discriminate Hx. }
  destruct Hrm as (w1 & t1 & Hrun & Hdb & Hsq & Hsp & Ht1).
  assert (Hrm' : (if bool_decide (is_Some (files w !! db)) then unlink db else ret tt) w
                 = Run (Resolved tt) w1 t1).
  { revert Hrun. unfold bind.
    destruct ((if bool_decide (is_Some (files w !! db)) then unlink db else ret tt) w)
      as [[[]|e|] w2 t2]; cbn; intros H; inversion H; subst.
    now rewrite app_nil_r. }
  rewrite (bind_resolved _ _ _ _ _ _ Hrm'), after_after.
  rewrite (bind_resolved _ _ _ _ _ _ (spawn_run _ _ _ _)), after_after.
  erewrite bind_resolved by reflexivity. rewrite after_after.
  world_simpl.
  rewrite (run_eta (bind (awaitChild _) _ _)).
  rewrite outcome_bind, final_bind, trace_bind, awaitChild_run. rewrite Hsp.
  destruct (proc E (spawned w) "sqlite3" [db]) as [d code out err|msg|] eqn:Hp;
    unfold after; world_simpl.
  - split.
    + intros Hsome. rewrite (Ht1 Hsome). cbn [app]. eexists. reflexivity.
    + intros ? ? ? ? _. unfold Server.childReplays.
      rewrite final_bind. world_simpl. rewrite Hdb, Hsq.
      destruct (code =? 0).
      * rewrite final_bind. unfold stat. world_simpl. rewrite lookup_insert_eq.
        world_simpl. unfold ret. world_simpl. rewrite lookup_insert_eq. reflexivity.
      * unfold ret. world_simpl. rewrite lookup_insert_eq. reflexivity.
  - split; [|intros; discriminate].
    intros Hsome. rewrite (Ht1 Hsome). cbn [app]. eexists. reflexivity.
  - split; [|intros; discriminate].
    intros Hsome. rewrite (Ht1 Hsome). cbn [app]. eexists. reflexivity.
Qed.

(** ** The recovery submission *)

(** The [catch] block of the recovery submission, run where the source
    runs it, deletes at most the uploaded file: any other file, the
    extracted one included, is left in place. *)
Lemma catch_block_spares_other_files (req : Req.t) (message p : string) (w : world) :
  (forall f, Req.file req = Some f -> Upload.path f <> p) ->
  files (final (Server.recover_catch req None None message w)) !! p = files w !! p.
Proof.
  intros Hp. unfold Server.recover_catch.
  destruct (Req.file req) as [f|] eqn:Hf.
  - specialize (Hp f eq_refl).
    rewrite final_bind.
    rewrite try_ignore_final.
    2:{ unfold unlink. destruct (files w !! Upload.path f); discriminate. }
    world_simpl. rewrite final_bind. world_simpl.
    unfold unlink. destruct (files w !! Upload.path f); world_simpl; [|reflexivity].
    now apply lookup_delete_ne.
  - rewrite final_bind. world_simpl. rewrite final_bind. world_simpl. reflexivity.
Qed.

(** Had the two paths been visible in the [catch] block, the block would
    delete the extracted file. *)
Lemma catch_block_with_paths_in_scope (req : Req.t) (message p o : string)
    (w : world) :
  p <> o ->
  files (final (Server.recover_catch req (Some p) (Some o) message w)) !! p = None.
Proof.
  intros Hne. unfold Server.recover_catch.
  rewrite final_bind.
  set (m1 := match Req.file req with
             | Some f => try_catch (unlink (Upload.path f)) (fun _ : string => ret tt)
             | None => ret tt
             end).
  assert (Hm1 : exists w1 t1, m1 w = Run (Resolved tt) w1 t1).
  { subst m1. destruct (Req.file req) as [f|]; [|eexists _, _; reflexivity].
    rewrite try_ignore_final.
    - eexists _, _; reflexivity.
    - unfold unlink. destruct (files w !! Upload.path f); discriminate. }
  destruct Hm1 as (w1 & t1 & Hm1). rewrite Hm1. world_simpl.
  apply String.eqb_neq in Hne. rewrite Hne. cbn [negb].
  rewrite final_bind.
  rewrite try_ignore_final.
  2:{ unfold unlink. destruct (files w1 !! p); discriminate. }
  world_simpl.
  unfold unlink. destruct (files w1 !! p) eqn:Hl; world_simpl; [|exact Hl].
  apply lookup_delete_eq.
Qed.

(** C1, at the failing input. An archive is uploaded and a database is
    extracted from it; the tool cannot be started, so the submission ends
    with the error answer 500. The uploaded archive is gone, the extracted
    database is still on disk, and no deletion of it was attempted. *)
Theorem failed_recovery_leaves_extracted_file :
  let r := Server.post_api_recover Scenario.missingTool Scenario.zipRequest
             Scenario.zipUploaded in
  outcome r = Resolved (JsonError 500
    ("SQLite3 is not available: SQLite3 not found: spawn sqlite3 ENOENT" +:+
     ". Please install SQLite3 and ensure it's in your PATH.")) /\
  files (final r) !! "uploads/corrupt_1700000000000_backup.zip" = None /\
  content <$> files (final r) !! Scenario.extractedPath = Some "SQLite format 3" /\
  ~ In (FsUnlink Scenario.extractedPath) (trace r).
Proof.
  vm_compute. repeat split. intros H.
  repeat (destruct H as [H|H]; [discriminate H|]). exact H.
Qed.

(** ** The watchdog of the streaming dump *)

Section WatchdogProofs.

Import Watchdog.

(** Once the promise is settled, no callback changes its value. *)
Lemma resolve_settled (t : Z) (r : result) (s : state) (v : Z * result) :
  resolved s = Some v -> resolved (resolve t r s) = Some v.
Proof. intros H. unfold resolve. now rewrite H. Qed.

Lemma step_keeps_settled (t : Z) (e : event) (s : state) (v : Z * result) :
  resolved s = Some v -> resolved (step t e s) = Some v.
Proof.
  intros H.
  destruct e; unfold step, onData, onZeroOutputTimer, onWatchdogTick, onHeartbeatTick,
    onKillEscalation, onClose, onError, resolve, killed; cbv zeta; st_simpl; rewrite ?H;
    repeat match goal with
           | |- context [if ?b then _ else _] =>
               match type of b with bool => destruct b; st_simpl; rewrite ?H end
           | |- context [match writeError ?x with _ => _ end] =>
               destruct (writeError x); st_simpl; rewrite ?H
           | |- context [match signals ?x with _ => _ end] =>
               destruct (signals x); st_simpl; rewrite ?H
           end; st_simpl; try assumption; try reflexivity.
Qed.

(** A finished run sends no further signal, whatever the timers and the
    child do (the escalation timer apart, which the schedule leaves out). *)
Lemma step_keeps_finished (t : Z) (e : event) (s : state) :
  processComplete s = true -> e <> KillEscalation ->
  processComplete (step t e s) = true /\ signals (step t e s) = signals s.
Proof.
  intros H He.
  destruct e; try congruence;
    unfold step, onData, onZeroOutputTimer, onWatchdogTick, onHeartbeatTick,
      onClose, onError, resolve; cbv zeta; st_simpl; rewrite ?H; rewrite ?andb_false_r;
    repeat match goal with
           | |- context [if ?b then _ else _] =>
               match type of b with bool => destruct b; st_simpl; rewrite ?H end
           | |- context [match ?o with Some _ => _ | None => _ end] =>
               destruct o; st_simpl; rewrite ?H
           end; st_simpl; split; try assumption; try reflexivity.
Qed.

Lemma quiet_init (t0 : Z) : quiet t0 0 (init t0).
Proof. unfold quiet, init; st_simpl. repeat split. Qed.

Lemma quiet_data (t0 b t len : Z) (s : state) :
  quiet t0 b s -> 0 <= b -> 0 <= len -> b + len <= 10 * MB ->
  quiet t0 (b + len) (step t (Data len) s).
Proof.
  unfold quiet. intros (Hc & Hr & Hs & Hh & Hw & He & Hp & Hl & Hz & Ht & Hst & Hb) H0 Hlen Hmax.
  unfold step, onData. cbv zeta. st_simpl. rewrite Hb, Hz.
  destruct (10 * MB <? b + len - 0) eqn:Hjump; [bool_facts; lia|].
  st_simpl. branches; st_simpl; rewrite ?Hb; repeat split; assumption.
Qed.

Lemma quiet_heartbeat (t0 b t : Z) (s : state) :
  quiet t0 b s -> b <= MB -> (b <= 0 \/ Js.round_div (t - t0) 1000 <= 120) ->
  quiet t0 b (step t HeartbeatTick s).
Proof.
  unfold quiet. intros (Hc & Hr & Hs & Hh & Hw & He & Hp & Hl & Hz & Ht & Hst & Hb) Hmax Hidle.
  unfold step. rewrite Hh. unfold onHeartbeatTick. cbv zeta. st_simpl. rewrite Hc, Hb, Hl.
  destruct (MB <? b - 0) eqn:Hjump; [bool_facts; lia|].
  st_simpl. rewrite Hp, Hb.
  destruct ((120 <? Js.round_div (t - t0) 1000) && (0 <? b))%bool eqn:Hkill;
    [bool_facts; lia|].
  st_simpl. repeat split; assumption.
Qed.

Lemma quiet_watchdog (t0 b t : Z) (s : state) :
  quiet t0 b s -> 0 < b -> Js.round_div (t - t0) 1000 < 180 ->
  step t WatchdogTick s = s.
Proof.
  unfold quiet. intros (Hc & Hr & Hs & Hh & Hw & He & Hp & Hl & Hz & Ht & Hst & Hb) Hpos Hidle.
  unfold step. rewrite Hw. unfold onWatchdogTick. cbv zeta. rewrite Hc, Hb, Ht, Hst.
  destruct ((b =? 0) && (15 <=? Js.round_div (t - t0) 1000))%bool eqn:H1; [bool_facts; lia|].
  destruct ((180 <=? Js.round_div (t - t0) 1000) && (0 <? b))%bool eqn:H2; [bool_facts; lia|].
  reflexivity.
Qed.

Lemma quiet_zero_timer (t0 b t : Z) (s : state) :
  quiet t0 b s -> 0 < b -> step t ZeroOutputTimer s = s.
Proof.
  unfold quiet. intros (Hc & Hr & Hs & Hh & Hw & He & Hp & Hl & Hz & Ht & Hst & Hb) Hpos.
  unfold step, onZeroOutputTimer. rewrite Hc, Hb.
  destruct (b =? 0) eqn:H1; [bool_facts; lia|]. reflexivity.
Qed.

(** A watchdog tick that finds no byte written, 15 seconds or more after
    the start, kills the child and reports that it gave no output. *)
Lemma watchdog_kills_silent_child (t0 t : Z) (s : state) :
  quiet t0 0 s -> 15 <= Js.round_div (t - t0) 1000 ->
  resolved (step t WatchdogTick s) = Some (t, noOutputResult) /\
  signals (step t WatchdogTick s) = [(t, "SIGKILL")] /\
  processComplete (step t WatchdogTick s) = true.
Proof.
  unfold quiet. intros (Hc & Hr & Hs & Hh & Hw & He & Hp & Hl & Hz & Ht & Hst & Hb) Hlate.
  unfold step. rewrite Hw. unfold onWatchdogTick. cbv zeta. rewrite Hc, Hb, Hst.
  destruct ((0 =? 0) && (15 <=? Js.round_div (t - t0) 1000))%bool eqn:H1;
    [|bool_facts; lia].
  unfold resolve. st_simpl. rewrite Hr. st_simpl. rewrite ?Hs. repeat split.
Qed.

(** The 20 second timer does the same when it is the first to find the
    child silent. *)
Lemma zero_timer_kills_silent_child (t0 t : Z) (s : state) :
  quiet t0 0 s ->
  resolved (step t ZeroOutputTimer s) = Some (t, zeroOutputResult) /\
  signals (step t ZeroOutputTimer s) = [(t, "SIGKILL")] /\
  processComplete (step t ZeroOutputTimer s) = true.
Proof.
  unfold quiet. intros (Hc & Hr & Hs & Hh & Hw & He & Hp & Hl & Hz & Ht & Hst & Hb).
  unfold step, onZeroOutputTimer. rewrite Hc, Hb. cbn [Z.eqb negb andb].
  unfold resolve. st_simpl. rewrite Hr. st_simpl. rewrite ?Hs. repeat split.
Qed.

(** A heartbeat that finds less than one megabyte of progress since the
    start, more than 120 seconds after it, ends the child as stalled. *)
Lemma heartbeat_kills_stalled_child (t0 b t : Z) (s : state) :
  quiet t0 b s -> 0 < b <= MB -> 120 < Js.round_div (t - t0) 1000 ->
  resolved (step t HeartbeatTick s) = Some (t, stalledResult b) /\
  signals (step t HeartbeatTick s) = [(t, "SIGTERM")] /\
  processComplete (step t HeartbeatTick s) = true.
Proof.
  unfold quiet. intros (Hc & Hr & Hs & Hh & Hw & He & Hp & Hl & Hz & Ht & Hst & Hb) Hpos Hlate.
  unfold step. rewrite Hh. unfold onHeartbeatTick. cbv zeta. st_simpl. rewrite Hc, Hb, Hl.
  destruct (MB <? b - 0) eqn:Hjump; [bool_facts; lia|].
  st_simpl. rewrite Hp, Hb.
  destruct ((120 <? Js.round_div (t - t0) 1000) && (0 <? b))%bool eqn:Hkill;
    [|bool_facts; lia].
  unfold resolve. st_simpl. rewrite Hr. st_simpl. rewrite ?Hs. repeat split.
Qed.

(** The watchdog reports the absolute ceiling only to a child that has
    written something and whose last jump of ten megabytes is 180 seconds
    old. *)
Lemma absolute_timeout_needs_180_seconds (t : Z) (s : state) (v : Z * result) :
  resolved s = None ->
  resolved (step t WatchdogTick s) = Some v ->
  snd v = absoluteTimeoutResult (bytesWritten s) ->
  0 < bytesWritten s /\ 180 <= Js.round_div (t - timeAtLastSignificantSize s) 1000.
Proof.
  intros Hr. unfold step. destruct (watchdogArmed s); [|congruence].
  unfold onWatchdogTick. cbv zeta. destruct (processComplete s); [congruence|].
  destruct ((bytesWritten s =? 0) && _)%bool eqn:H1.
  - unfold resolve. st_simpl. rewrite Hr. st_simpl. intros [= <-]. cbn [snd].
    unfold noOutputResult, absoluteTimeoutResult. intros [=].
  - destruct ((180 <=? _) && _)%bool eqn:H2; [|congruence].
    intros _ _. bool_facts; lia.
Qed.

Lemma round_tick (t0 : Z) (k : nat) :
  Js.round_div (t0 + 5000 * Z.of_nat k - t0) 1000 = 5 * Z.of_nat k.
Proof.
  replace (t0 + 5000 * Z.of_nat k - t0) with (5000 * Z.of_nat k) by lia.
  unfold Js.round_div. symmetry. apply Z.div_unique with (r := 1000); lia.
Qed.

Lemma fold_data_quiet (t0 : Z) (chunks : list (Z * Z)) :
  forall (b : Z) (s : state),
    quiet t0 b s -> 0 <= b ->
    Forall (fun d => 0 <= snd d) chunks ->
    b + list_sum_Z (map snd chunks) <= 10 * MB ->
    quiet t0 (b + list_sum_Z (map snd chunks))
      (fold_left (fun a d => step (t0 + fst d) (Data (snd d)) a) chunks s).
Proof.
  induction chunks as [|d chunks IH]; intros b s Hq Hb Hpos Hmax.
  - cbn [map list_sum_Z fold_right fold_left]. now rewrite Z.add_0_r.
  - inversion Hpos as [|? ? Hd Hrest]; subst.
    cbn [map list_sum_Z fold_right fold_left] in *.
    assert (Htail : 0 <= list_sum_Z (map snd chunks)).
    { clear -Hrest. induction Hrest; cbn [map list_sum_Z fold_right]; [lia|].
      unfold list_sum_Z in IHHrest. lia. }
    unfold list_sum_Z in Htail.
    replace (b + (snd d + fold_right Z.add 0 (map snd chunks)))
      with ((b + snd d) + list_sum_Z (map snd chunks)) by (unfold list_sum_Z; lia).
    apply IH; try assumption; [|lia|unfold list_sum_Z; lia].
    apply quiet_data; try assumption; lia.
Qed.

Lemma windowBytes_nonneg (c : child) (k : nat) :
  Forall (fun d => 0 <= snd d) (output c) -> 0 <= windowBytes c k.
Proof.
  unfold windowBytes. intros H. induction H as [|d l Hd Hl IH]; [cbn; lia|].
  cbn [List.filter]. destruct (inWindow k (fst d)); [|exact IH].
  cbn [map list_sum_Z fold_right]. unfold list_sum_Z in IH. lia.
Qed.

Lemma arrivedBy_succ (c : child) (k : nat) :
  arrivedBy c (S k) = arrivedBy c k + windowBytes c (S k).
Proof.
  unfold arrivedBy, windowBytes, inWindow.
  induction (output c) as [|d l IH]; [reflexivity|].
  cbn [List.filter].
  destruct (Z.leb_spec 0 (fst d)), (Z.ltb_spec (fst d) (5000 * Z.of_nat (S k))),
           (Z.ltb_spec (fst d) (5000 * Z.of_nat k)),
           (Z.leb_spec (5000 * (Z.of_nat (S k) - 1)) (fst d));
    cbn [andb map list_sum_Z fold_right]; unfold list_sum_Z in IH; lia.
Qed.

Lemma arrivedBy_zero (c : child) : arrivedBy c 0 = 0.
Proof.
  unfold arrivedBy. induction (output c) as [|d l IH]; [reflexivity|].
  cbn [List.filter].
  destruct (Z.leb_spec 0 (fst d)), (Z.ltb_spec (fst d) (5000 * Z.of_nat 0));
    cbn [andb]; try exact IH; lia.
Qed.

Lemma arrivedBy_mono (c : child) (k m : nat) :
  Forall (fun d => 0 <= snd d) (output c) -> (k <= m)%nat ->
  0 <= arrivedBy c k <= arrivedBy c m.
Proof.
  intros Hpos Hkm. induction Hkm as [|m Hkm IH].
  - split; [|lia]. induction k as [|k IHk]; [rewrite arrivedBy_zero; lia|].
    rewrite arrivedBy_succ. pose proof (windowBytes_nonneg c (S k) Hpos). lia.
  - rewrite arrivedBy_succ. pose proof (windowBytes_nonneg c (S m) Hpos). lia.
Qed.

(** The child leaves on its own no sooner than tick [m]. *)
Lemma deliver_quiet (t0 : Z) (c : child) (k : nat) (b : Z) (s : state) :
  quiet t0 b s -> 0 <= b ->
  Forall (fun d => 0 <= snd d) (output c) ->
  (forall offset code, exit c = Some (offset, code) -> inWindow k offset = false) ->
  b + windowBytes c k <= 10 * MB ->
  quiet t0 (b + windowBytes c k) (deliver t0 c k s).
Proof.
  intros Hq Hb Hpos Hexit Hmax. unfold deliver. cbv zeta.
  assert (Hq' : quiet t0 (b + windowBytes c k)
                  (fold_left (fun a d => step (t0 + fst d) (Data (snd d)) a)
                     (List.filter (fun d => inWindow k (fst d)) (output c)) s)).
  { apply fold_data_quiet; try assumption.
    clear -Hpos. induction Hpos as [|d l Hd Hl IH]; [constructor|].
    cbn [List.filter]. destruct (inWindow k (fst d)); [constructor|]; assumption. }
  destruct (exit c) as [[offset code]|]; [|exact Hq'].
  rewrite (Hexit offset code eq_refl). cbn [andb]. exact Hq'.
Qed.

Lemma timers_quiet (t0 : Z) (k : nat) (b : Z) (s : state) :
  quiet t0 b s -> 0 <= b <= MB -> (1 <= k < 26)%nat -> (b = 0 -> (k < 3)%nat) ->
  quiet t0 b (fold_left (fun a e => step (t0 + 5000 * Z.of_nat k) e a) (timersAt k) s).
Proof.
  intros Hq Hb Hk Hsilent.
  assert (Hround := round_tick t0 k).
  unfold timersAt.
  destruct (Nat.eqb k 4) eqn:H4; cbn [app fold_left].
  - apply Nat.eqb_eq in H4. subst k.
    change (timersAt 4) with [ZeroOutputTimer; HeartbeatTick].
    change (Nat.eqb (4 mod 3) 0) with false. change (Nat.eqb (4 mod 2) 0) with true.
    cbn [app fold_left].
    rewrite (quiet_zero_timer t0 b) by (try assumption; lia).
    apply quiet_heartbeat; try assumption; [lia|]. right. rewrite Hround. lia.
  - destruct (Nat.eqb (k mod 3) 0) eqn:H3, (Nat.eqb (k mod 2) 0) eqn:H2; cbn [app fold_left].
    + apply Nat.eqb_eq in H3, H2.
      assert (3 <= k)%nat by (destruct k as [|[|[|k]]]; try discriminate; lia).
      assert (k <= 24)%nat.
      { destruct (Nat.eq_dec k 25%nat) as [->|]; [discriminate H2|]. lia. }
      rewrite (quiet_watchdog t0 b) by (try assumption; rewrite ?Hround; lia).
      apply quiet_heartbeat; try assumption; [lia|]. right. rewrite Hround. lia.
    + apply Nat.eqb_eq in H3.
      assert (3 <= k)%nat by (destruct k as [|[|[|k]]]; try discriminate; lia).
      rewrite (quiet_watchdog t0 b) by (try assumption; rewrite ?Hround; lia).
      assumption.
    + apply Nat.eqb_eq in H2.
      assert (k <= 24)%nat.
      { destruct (Nat.eq_dec k 25%nat) as [->|]; [discriminate H2|]. lia. }
      apply quiet_heartbeat; try assumption; [lia|]. right. rewrite Hround. lia.
    + assumption.
Qed.

Lemma tick_quiet (t0 : Z) (c : child) (k : nat) (b : Z) (s : state) :
  quiet t0 b s -> 0 <= b ->
  Forall (fun d => 0 <= snd d) (output c) ->
  (forall offset code, exit c = Some (offset, code) -> inWindow k offset = false) ->
  b + windowBytes c k <= MB -> (1 <= k < 26)%nat ->
  (b + windowBytes c k = 0 -> (k < 3)%nat) ->
  quiet t0 (b + windowBytes c k) (tick t0 c s k).
Proof.
  intros Hq Hb Hpos Hexit Hmax Hk Hsilent. unfold tick.
  pose proof (windowBytes_nonneg c k Hpos).
  apply timers_quiet; try assumption; [|lia].
  apply deliver_quiet; try assumption. unfold MB in *. lia.
Qed.

Lemma runFor_succ (t0 : Z) (c : child) (m : nat) :
  runFor t0 c (S m) = tick t0 c (runFor t0 c m) (S m).
Proof. unfold runFor. rewrite seq_S, fold_left_app. reflexivity. Qed.

Lemma exit_outside_window (c : child) (m k : nat) :
  (forall offset code, exit c = Some (offset, code) -> 5000 * Z.of_nat m <= offset) ->
  (k <= m)%nat ->
  forall offset code, exit c = Some (offset, code) -> inWindow k offset = false.
Proof.
  intros Hexit Hk offset code He. specialize (Hexit offset code He).
  unfold inWindow. apply andb_false_iff. right. apply Z.ltb_ge. lia.
Qed.

(** While the child writes less than a megabyte in all, and has written
    something by the first watchdog tick, the run stays quiet up to tick
    25. *)
Lemma run_quiet (t0 : Z) (c : child) (m : nat) :
  Forall (fun d => 0 <= snd d) (output c) ->
  (forall offset code, exit c = Some (offset, code) -> 5000 * Z.of_nat m <= offset) ->
  (m < 26)%nat -> arrivedBy c m <= MB ->
  (forall k, (3 <= k <= m)%nat -> 0 < arrivedBy c k) ->
  quiet t0 (arrivedBy c m) (runFor t0 c m).
Proof.
  intros Hpos. induction m as [|m IH]; intros Hexit Hm Hmax Hheard.
  - rewrite arrivedBy_zero. apply quiet_init.
  - rewrite runFor_succ, arrivedBy_succ.
    pose proof (arrivedBy_mono c m (S m) Hpos ltac:(lia)) as Hmono.
    rewrite arrivedBy_succ in Hmax, Hmono.
    apply tick_quiet; try assumption; try lia.
    + apply IH; try lia.
      * intros offset code He. specialize (Hexit offset code He). lia.
      * intros k Hk. apply Hheard. lia.
    + eapply exit_outside_window; [exact Hexit|lia].
    + intros Hz. destruct (le_lt_dec 3 (S m)) as [Hge|]; [|assumption].
      specialize (Hheard (S m) ltac:(lia)). rewrite arrivedBy_succ in Hheard. lia.
Qed.

Lemma ticks_keep_settled (t0 : Z) (c : child) (v : Z * result) (ks : list nat) :
  forall s, resolved s = Some v -> resolved (fold_left (tick t0 c) ks s) = Some v.
Proof.
  induction ks as [|k ks IH]; intros s H; [exact H|].
  cbn [fold_left]. apply IH. unfold tick.
  assert (Hd : resolved (deliver t0 c k s) = Some v).
  { unfold deliver. cbv zeta.
    assert (Hf : forall l s', resolved s' = Some v ->
              resolved (fold_left (fun a d => step (t0 + fst d) (Data (snd d)) a) l s')
              = Some v).
    { induction l as [|d l IHl]; intros s' Hs'; [exact Hs'|].
      cbn [fold_left]. apply IHl. now apply step_keeps_settled. }
    destruct (exit c) as [[offset code]|]; [|now apply Hf].
    destruct (inWindow k offset && negb _)%bool; [|now apply Hf].
    apply step_keeps_settled. now apply Hf. }
  revert Hd. generalize (deliver t0 c k s). generalize (timersAt k).
  induction l as [|e l IHl]; intros s' Hs'; [exact Hs'|].
  cbn [fold_left]. apply IHl. now apply step_keeps_settled.
Qed.

Lemma ticks_keep_finished (t0 : Z) (c : child) (ks : list nat) :
  forall s, processComplete s = true ->
            processComplete (fold_left (tick t0 c) ks s) = true /\
            signals (fold_left (tick t0 c) ks s) = signals s.
Proof.
  induction ks as [|k ks IH]; intros s H; [now split|].
  cbn [fold_left].
  assert (Ht : processComplete (tick t0 c s k) = true /\ signals (tick t0 c s k) = signals s).
  { unfold tick.
    assert (Hd : processComplete (deliver t0 c k s) = true /\
                 signals (deliver t0 c k s) = signals s).
    { unfold deliver. cbv zeta.
      assert (Hf : forall l s', processComplete s' = true ->
                processComplete
                  (fold_left (fun a d => step (t0 + fst d) (Data (snd d)) a) l s') = true /\
                signals (fold_left (fun a d => step (t0 + fst d) (Data (snd d)) a) l s')
                = signals s').
      { induction l as [|d l IHl]; intros s' Hs'; [now split|].
        cbn [fold_left].
        destruct (step_keeps_finished (t0 + fst d) (Data (snd d)) s' Hs' ltac:(discriminate))
          as [Hc Hsig].
        destruct (IHl _ Hc) as [Hc' Hsig']. split; [assumption|congruence]. }
      destruct (Hf (List.filter (fun d => inWindow k (fst d)) (output c)) s H) as [Hc Hsig].
      destruct (exit c) as [[offset code]|]; [|now split].
      destruct (inWindow k offset && negb _)%bool; [|now split].
      destruct (step_keeps_finished (t0 + offset) (Close code) _ Hc ltac:(discriminate))
        as [Hc' Hsig']. split; [assumption|congruence]. }
    destruct Hd as [Hc Hsig]. rewrite <- Hsig. revert Hc.
    generalize (deliver t0 c k s).
    assert (Hev : Forall (fun e => e <> KillEscalation) (timersAt k)).
    { unfold timersAt.
      destruct (Nat.eqb k 4), (Nat.eqb (k mod 3) 0), (Nat.eqb (k mod 2) 0);
        cbn [app]; repeat constructor; discriminate. }
    induction Hev as [|e l He Hl IHl]; intros s' Hs'; [now split|].
    cbn [fold_left].
    destruct (step_keeps_finished (t0 + 5000 * Z.of_nat k) e s' Hs' He) as [Hc' Hsig'].
    destruct (IHl _ Hc') as [Hc'' Hsig'']. split; [assumption|congruence]. }
  destruct Ht as [Hc Hsig]. destruct (IH _ Hc) as [Hc' Hsig'].
  split; [assumption|congruence].
Qed.

Lemma runFor_split (t0 : Z) (c : child) (m n : nat) :
  (m <= n)%nat ->
  runFor t0 c n = fold_left (tick t0 c) (seq (1 + m) (n - m)) (runFor t0 c m).
Proof.
  intros H. unfold runFor.
  replace n with (m + (n - m))%nat at 1 by lia.
  now rewrite seq_app, fold_left_app.
Qed.

(** A child that has written nothing by the first watchdog tick, and has
    not left on its own, is killed at that tick, 15 seconds after the
    start, with the no-output outcome. *)
Lemma silent_child_killed_at_15s (t0 : Z) (c : child) (n : nat) :
  Forall (fun d => 0 <= snd d) (output c) ->
  (forall offset code, exit c = Some (offset, code) -> 15000 <= offset) ->
  arrivedBy c 3 = 0 -> (3 <= n)%nat ->
  resolved (runFor t0 c n) = Some (t0 + 15000, noOutputResult) /\
  signals (runFor t0 c n) = [(t0 + 15000, "SIGKILL")].
Proof.
  intros Hpos Hexit Hsilent Hn.
  assert (H2 : arrivedBy c 2 = 0).
  { pose proof (arrivedBy_mono c 2 3 Hpos ltac:(lia)). lia. }
  assert (Hq : quiet t0 (arrivedBy c 2) (runFor t0 c 2)).
  { apply run_quiet; try assumption; try lia.
    - intros offset code He. specialize (Hexit offset code He). lia.
    - unfold MB. lia. }
  assert (Hw : windowBytes c 3 = 0).
  { pose proof (arrivedBy_succ c 2). lia. }
  assert (H3 : resolved (runFor t0 c 3) = Some (t0 + 15000, noOutputResult) /\
               signals (runFor t0 c 3) = [(t0 + 15000, "SIGKILL")] /\
               processComplete (runFor t0 c 3) = true).
  { rewrite runFor_succ. unfold tick.
    change (timersAt 3) with [WatchdogTick]. cbn [fold_left].
    change (5000 * Z.of_nat 3) with 15000.
    apply (watchdog_kills_silent_child t0).
    - replace 0 with (arrivedBy c 2 + windowBytes c 3) by lia.
      apply deliver_quiet; try assumption; try lia.
      + eapply exit_outside_window; [|reflexivity].
        intros offset code He. specialize (Hexit offset code He). lia.
      + unfold MB. lia.
    - replace (t0 + 15000 - t0) with 15000 by lia. vm_compute. discriminate. }
  destruct H3 as (Hr & Hs & Hc).
  rewrite (runFor_split t0 c 3 n Hn). split.
  - now apply ticks_keep_settled.
  - destruct (ticks_keep_finished t0 c (seq (1 + 3) (n - 3)) _ Hc) as [_ Hsig]. congruence.
Qed.

(** A child that has written something by the first watchdog tick, less
    than a megabyte by the 130th second, and has not left on its own, is
    ended at the heartbeat of the 130th second with the stalled outcome. *)
Lemma slow_child_stalled_at_130s (t0 : Z) (c : child) (n : nat) :
  Forall (fun d => 0 <= snd d) (output c) ->
  (forall offset code, exit c = Some (offset, code) -> 130000 <= offset) ->
  0 < arrivedBy c 3 -> arrivedBy c 26 <= MB -> (26 <= n)%nat ->
  resolved (runFor t0 c n) = Some (t0 + 130000, stalledResult (arrivedBy c 26)) /\
  signals (runFor t0 c n) = [(t0 + 130000, "SIGTERM")].
Proof.
  intros Hpos Hexit Hheard Hmax Hn.
  assert (Hq : quiet t0 (arrivedBy c 25) (runFor t0 c 25)).
  { apply run_quiet; try assumption; try lia.
    - intros offset code He. specialize (Hexit offset code He). lia.
    - pose proof (arrivedBy_mono c 25 26 Hpos ltac:(lia)). lia.
    - intros k Hk. pose proof (arrivedBy_mono c 3 k Hpos ltac:(lia)). lia. }
  assert (H26 : resolved (runFor t0 c 26) = Some (t0 + 130000, stalledResult (arrivedBy c 26)) /\
                signals (runFor t0 c 26) = [(t0 + 130000, "SIGTERM")] /\
                processComplete (runFor t0 c 26) = true).
  { rewrite runFor_succ. unfold tick.
    change (timersAt 26) with [HeartbeatTick]. cbn [fold_left].
    change (5000 * Z.of_nat 26) with 130000.
    apply (heartbeat_kills_stalled_child t0).
    - rewrite arrivedBy_succ.
      pose proof (arrivedBy_mono c 25 26 Hpos ltac:(lia)) as Hm. rewrite arrivedBy_succ in Hm.
      rewrite arrivedBy_succ in Hmax.
      apply deliver_quiet; try assumption; try lia.
      + pose proof (arrivedBy_mono c 0 25 Hpos ltac:(lia)). lia.
      + eapply exit_outside_window; [|reflexivity].
        intros offset code He. specialize (Hexit offset code He). lia.
      + unfold MB in *. lia.
    - pose proof (arrivedBy_mono c 3 26 Hpos ltac:(lia)). lia.
    - replace (t0 + 130000 - t0) with 130000 by lia. vm_compute. reflexivity. }
  destruct H26 as (Hr & Hs & Hc).
  rewrite (runFor_split t0 c 26 n Hn). split.
  - now apply ticks_keep_settled.
  - destruct (ticks_keep_finished t0 c (seq (1 + 26) (n - 26)) _ Hc) as [_ Hsig]. congruence.
Qed.

Lemma trickle_nonneg (first : Z) (count : nat) :
  Forall (fun d => 0 <= snd d) (output (trickle first count)).
Proof.
  unfold trickle. cbn [output]. apply List.Forall_forall. intros d Hd.
  apply in_map_iff in Hd. destruct Hd as (i & <- & _). cbn [snd]. lia.
Qed.

(** Before the 200th second the trickling child has written its first byte
    at most. *)
Lemma trickle_arrivedBy (first : Z) (count k : nat) :
  0 <= first -> (k <= 40)%nat ->
  arrivedBy (trickle first count) k
  = if ((0 <? Z.of_nat count) && (first <? 5000 * Z.of_nat k))%bool then 1 else 0.
Proof.
  intros Hfirst Hk. unfold arrivedBy, trickle. cbn [output].
  destruct count as [|count]; [reflexivity|].
  change (0 <? Z.of_nat (S count)) with true. cbn [andb].
  cbn [seq map List.filter fst].
  assert (Htail :
    List.filter (fun d : Z * Z => ((0 <=? fst d) && (fst d <? 5000 * Z.of_nat k))%bool)
      (map (fun i : nat => (first + 200000 * Z.of_nat i, 1)) (seq 1 count)) = []).
  { assert (Hlo : forall lo, (1 <= lo)%nat ->
      List.filter (fun d : Z * Z => ((0 <=? fst d) && (fst d <? 5000 * Z.of_nat k))%bool)
        (map (fun i : nat => (first + 200000 * Z.of_nat i, 1)) (seq lo count)) = []).
    { induction count as [|count IH]; intros lo Hlo; [reflexivity|].
      cbn [seq map List.filter fst].
      destruct (Z.ltb_spec (first + 200000 * Z.of_nat lo) (5000 * Z.of_nat k)); [lia|].
      rewrite andb_false_r. apply IH. lia. }
    now apply Hlo. }
  replace (first + 200000 * Z.of_nat 0) with first by lia.
  destruct (Z.leb_spec 0 first); [|lia]. cbn [andb].
  destruct (first <? 5000 * Z.of_nat k).
  - cbn [map snd]. rewrite Htail. reflexivity.
  - rewrite Htail. reflexivity.
Qed.

(** The outcome of the run on the trickling child, once 130 seconds have
    passed. *)
Lemma trickle_outcome (t0 first : Z) (count n : nat) :
  0 <= first -> (26 <= n)%nat ->
  resolved (runFor t0 (trickle first count) n)
  = Some (if ((0 <? Z.of_nat count) && (first <? 15000))%bool
          then (t0 + 130000, stalledResult 1)
          else (t0 + 15000, noOutputResult)).
Proof.
  intros Hfirst Hn.
  pose proof (trickle_nonneg first count) as Hpos.
  pose proof (trickle_arrivedBy first count 3 Hfirst ltac:(lia)) as H3.
  pose proof (trickle_arrivedBy first count 26 Hfirst ltac:(lia)) as H26.
  change (5000 * Z.of_nat 3) with 15000 in H3.
  change (5000 * Z.of_nat 26) with 130000 in H26.
  destruct ((0 <? Z.of_nat count) && (first <? 15000))%bool eqn:Hheard.
  - assert (Hb : ((0 <? Z.of_nat count) && (first <? 130000))%bool = true).
    { apply andb_true_iff in Hheard. destruct Hheard as [Hc Hf].
      apply andb_true_iff. split; [assumption|]. apply Z.ltb_lt in Hf. apply Z.ltb_lt. lia. }
    rewrite Hb in H26.
    destruct (slow_child_stalled_at_130s t0 (trickle first count) n) as [Hr _];
      try assumption; try (rewrite ?H3, ?H26; unfold MB; lia);
      try (intros offset code He; discriminate He).
    rewrite Hr, H26. reflexivity.
  - destruct (silent_child_killed_at_15s t0 (trickle first count) n) as [Hr _];
      try assumption; try lia; try (intros offset code He; discriminate He).
Qed.

Lemma not_absolute (t t' b : Z) (r : result) :
  error r <> error (absoluteTimeoutResult b) ->
  Some (t, r) <> Some (t', absoluteTimeoutResult b).
Proof. intros H Heq. apply H. congruence. Qed.

(** No run on the trickling child ends with the absolute-ceiling outcome,
    however long it is watched. *)
Lemma trickle_never_absolute (t0 first : Z) (count n : nat) (t b : Z) :
  0 <= first ->
  resolved (runFor t0 (trickle first count) n) <> Some (t, absoluteTimeoutResult b).
Proof.
  intros Hfirst.
  pose proof (trickle_nonneg first count) as Hpos.
  assert (Hexit : forall m offset code,
            exit (trickle first count) = Some (offset, code) -> 5000 * Z.of_nat m <= offset)
    by (intros m offset code He; discriminate He).
  destruct (le_lt_dec 26 n) as [Hn|Hn].
  - rewrite (trickle_outcome t0 first count n Hfirst Hn).
    destruct ((0 <? Z.of_nat count) && (first <? 15000))%bool;
      apply not_absolute; discriminate.
  - pose proof (trickle_arrivedBy first count 3 Hfirst ltac:(lia)) as H3.
    change (5000 * Z.of_nat 3) with 15000 in H3.
    destruct ((0 <? Z.of_nat count) && (first <? 15000))%bool eqn:Hheard.
    + assert (Hq : quiet t0 (arrivedBy (trickle first count) n)
                     (runFor t0 (trickle first count) n)).
      { apply run_quiet; try assumption; try lia.
        - apply Hexit.
        - rewrite trickle_arrivedBy by lia.
          destruct ((0 <? Z.of_nat count) && (first <? 5000 * Z.of_nat n))%bool; unfold MB; lia.
        - intros k Hk. pose proof (arrivedBy_mono (trickle first count) 3 k Hpos ltac:(lia)).
          lia. }
      destruct Hq as (_ & Hr & _). rewrite Hr. discriminate.
    + destruct (le_lt_dec 3 n) as [Hn3|Hn3].
      * destruct (silent_child_killed_at_15s t0 (trickle first count) n) as [Hr _];
          try assumption; try lia; try (intros offset code He; discriminate He).
        rewrite Hr. apply not_absolute. discriminate.
      * assert (Hq : quiet t0 (arrivedBy (trickle first count) n)
                       (runFor t0 (trickle first count) n)).
        { apply run_quiet; try assumption; try lia.
          - apply Hexit.
          - rewrite trickle_arrivedBy by lia.
            destruct ((0 <? Z.of_nat count) && (first <? 5000 * Z.of_nat n))%bool; unfold MB; lia. }
        destruct Hq as (_ & Hr & _). rewrite Hr. discriminate.
Qed.



(** C5, as amended. A streaming dump whose child writes one byte every 200
    seconds is killed with the no-output outcome at the watchdog tick of
    the 15th second when its first byte has not arrived by then, and is
    otherwise ended with the stalled outcome at the heartbeat of the 130th
    second; it never ends with the absolute-ceiling outcome. *)
Theorem trickling_child_ends_silent_or_stalled (t0 first : Z) (count n : nat) :
  0 <= first -> (26 <= n)%nat ->
  resolved (runFor t0 (trickle first count) n)
  = Some (if ((0 <? Z.of_nat count) && (first <? 15000))%bool
          then (t0 + 130000, stalledResult 1)
          else (t0 + 15000, noOutputResult)) /\
  forall m t b,
    resolved (runFor t0 (trickle first count) m) <> Some (t, absoluteTimeoutResult b).
Proof.
  intros Hfirst Hn. split.
  - now apply trickle_outcome.
  - intros m t b. now apply trickle_never_absolute.
Qed.

Lemma trickling_child_ends_silent_or_stalled_witness :
  resolved (runFor 0 (trickle 200000 10) 40) = Some (0 + 15000, noOutputResult) /\
  forall m t b,
    resolved (runFor 0 (trickle 200000 10) m) <> Some (t, absoluteTimeoutResult b).
Proof.
  apply (trickling_child_ends_silent_or_stalled 0 200000 10 40); lia.
Defined.

(** C5 as stated fails: the child that writes one byte every 200 seconds,
    the first one 200 seconds after the start, never gets the
    absolute-ceiling outcome; the run is over after 15 seconds. *)
Lemma trickle_is_not_killed_by_absolute_timeout :
  ~ (exists count n t b,
       resolved (runFor 0 (trickle 200000 count) n) = Some (t, absoluteTimeoutResult b)) /\
  resolved (runFor 0 (trickle 200000 1000) 400) = Some (15000, noOutputResult).
Proof.
  split.
  - intros (count & n & t & b & H). revert H. apply trickle_never_absolute. lia.
  - apply (trickle_outcome 0 200000 1000 400); lia.
Qed.

End WatchdogProofs.
(** ** Table-by-table recovery *)

Lemma append_cons (c : ascii) (a b : string) : String c a +:+ b = String c (a +:+ b).
Proof. reflexivity. Qed.

Lemma append_assoc (a b c : string) : (a +:+ b) +:+ c = a +:+ (b +:+ c).
Proof.
  induction a as [|x a IH]; [reflexivity|].
  rewrite !append_cons. now rewrite IH.
Qed.

Lemma prefix_append (x b : string) : String.prefix x (x +:+ b) = true.
Proof.
  induction x as [|c x IH]; [now destruct b|].
  rewrite append_cons. cbn [String.prefix].
  destruct (ascii_dec c c); [exact IH|contradiction].
Qed.


Lemma includes_unfold (s x : string) :
  Js.includes s x
  = (String.prefix x s || match s with
                          | EmptyString => false
                          | String _ s' => Js.includes s' x
                          end)%bool.
Proof. destruct s; reflexivity. Qed.




(** [dumpSingleTable] always resolves, with [dumpResult] of what its child
    does; it spawns that child and touches no file. *)
Lemma dumpSingleTable_run (E : env) (dbPath tableName : string) (w : world) :
  exists w' t,
    Server.dumpSingleTable E dbPath tableName w
    = Run (Resolved (Server.dumpResult
                       (proc E (spawned w) "sqlite3"
                          [dbPath; Server.dumpTableCommand tableName]))) w' t /\
    files w' = files w /\ spawned w' = S (spawned w) /\
    spawnsOf t = [[dbPath; Server.dumpTableCommand tableName]].
Proof.
  unfold Server.dumpSingleTable.
  rewrite (bind_resolved _ _ _ _ _ _ (spawn_run _ _ _ _)). cbn [fst snd].
  destruct (proc E (spawned w) "sqlite3" [dbPath; Server.dumpTableCommand tableName])
    as [d code out err|msg|] eqn:Hp.
  - destruct (d <? 30000) eqn:Hd.
    + erewrite bind_resolved by reflexivity. world_simpl.
      eexists _, _. split; [reflexivity|]. world_simpl. repeat split.
    + erewrite bind_resolved by reflexivity.
      erewrite bind_resolved by reflexivity. world_simpl.
      eexists _, _. split; [reflexivity|]. world_simpl. repeat split.
  - world_simpl. eexists _, _. split; [reflexivity|]. world_simpl. repeat split.
  - erewrite bind_resolved by reflexivity.
    erewrite bind_resolved by reflexivity. world_simpl.
    eexists _, _. split; [reflexivity|]. world_simpl. repeat split.
Qed.

Lemma recoveredCount_cons (r : result) (results : list result) :
  recoveredCount (r :: results)
  = (if success r then 1 else 0) + recoveredCount results.
Proof.
  unfold recoveredCount. cbn [List.filter]. destruct (success r); cbn [length]; lia.
Qed.

Lemma spawnsOf_app (t1 t2 : list action) : spawnsOf (t1 ++ t2) = spawnsOf t1 ++ spawnsOf t2.
Proof. unfold spawnsOf. apply omap_app. Qed.

(** The loop over the tables visits every row: one child per row, in the
    order of the rows, and one entry appended to the output per row. *)
Lemma recoverTables_run (E : env) (inputPath outputPath sessionId : string) (total : Z)
    (rows : list row) :
  writable E outputPath = true ->
  forall (i successCount : Z) (failedTables : list string) (w : world) (f : file),
    files w !! outputPath = Some f ->
    exists w' t,
      Server.recoverTables E inputPath outputPath sessionId total i rows
        successCount failedTables w
      = Run (Resolved (successCount + recoveredCount (tableResults E (spawned w) inputPath rows),
                       failedTables ++ failedNames rows (tableResults E (spawned w) inputPath rows)))
            w' t /\
      spawned w' = (spawned w + length rows)%nat /\
      content <$> files w' !! outputPath
      = Some (content f +:+ entriesText rows (tableResults E (spawned w) inputPath rows)) /\
      spawnsOf t = map (fun r => [inputPath; Server.dumpTableCommand (name r)]) rows.
Proof.
  intros Hw. induction rows as [|row rows IH]; intros i sc ft w f Hf.
  - cbn [Server.recoverTables tableResults entriesText failedNames map length].
    exists w, []. unfold ret. rewrite Hf. cbn [fmap option_fmap option_map].
    unfold recoveredCount. cbn [List.filter length Z.of_nat].
    rewrite Z.add_0_r, app_nil_r, Nat.add_0_r.
    repeat split. f_equal.
    clear. induction (content f) as [|c s IHs]; [reflexivity|].
    rewrite append_cons. now rewrite <- IHs.
  - cbn [Server.recoverTables tableResults].
    set (res := Server.dumpResult
                  (proc E (spawned w) "sqlite3"
                     [inputPath; Server.dumpTableCommand (name row)])).
    unfold sendProgress.
    erewrite bind_resolved by reflexivity.
    destruct (dumpSingleTable_run E inputPath (name row) w) as (w1 & t1 & Hrun & Hfiles & Hsp & Ht1).
    fold res in Hrun.
    rewrite (bind_resolved _ _ _ _ _ _ Hrun), after_after.
    assert (Hf1 : files w1 !! outputPath = Some f) by (now rewrite Hfiles).
    rewrite recoveredCount_cons. cbn [entriesText failedNames length map].
    unfold tableEntry.
    destruct (success res) eqn:Hres.
    + rewrite (bind_resolved _ _ _ _ _ _ (appendFile_ok E _ _ _ Hw)), after_after.
      rewrite Hf1.
      set (w2 := set_files _ w1).
      assert (Hf2 : files w2 !! outputPath
                    = Some (File (content f +:+ Server.tableData (name row) res) (now w1))).
      { subst w2. cbn [files set_files]. apply lookup_insert_eq. }
      destruct (IH (i + 1) (sc + 1) ft w2 _ Hf2) as (w' & t & Hrest & Hsp' & Hc & Ht).
      assert (Hs2 : spawned w2 = S (spawned w)) by (subst w2; cbn [spawned set_files]; exact Hsp).
      rewrite Hs2 in Hrest, Hsp', Hc.
      rewrite Hrest, after_Run.
      exists w', ([Progress sessionId "recovery" (35 + Js.round_div (i * 30) total)
                     "Recovering tables individually"] ++ t1 ++ [FsAppend outputPath] ++ t).
      repeat split.
      * rewrite <- ?app_assoc. cbn [app].
        replace (sc + 1 + recoveredCount (tableResults E (S (spawned w)) inputPath rows))
          with (sc + (1 + recoveredCount (tableResults E (S (spawned w)) inputPath rows)))
          by lia.
        reflexivity.
      * lia.
      * rewrite Hc. cbn [content]. now rewrite append_assoc.
      * rewrite !spawnsOf_app, Ht1, Ht. reflexivity.
    + rewrite (bind_resolved _ _ _ _ _ _ (appendFile_ok E _ _ _ Hw)), after_after.
      rewrite Hf1.
      set (w2 := set_files _ w1).
      assert (Hf2 : files w2 !! outputPath
                    = Some (File (content f +:+ Server.tablePlaceholder (name row) res)
                              (now w1))).
      { subst w2. cbn [files set_files]. apply lookup_insert_eq. }
      destruct (IH (i + 1) sc (ft ++ [name row]) w2 _ Hf2) as (w' & t & Hrest & Hsp' & Hc & Ht).
      assert (Hs2 : spawned w2 = S (spawned w)) by (subst w2; cbn [spawned set_files]; exact Hsp).
      rewrite Hs2 in Hrest, Hsp', Hc.
      rewrite Hrest, after_Run.
      exists w', ([Progress sessionId "recovery" (35 + Js.round_div (i * 30) total)
                     "Recovering tables individually"] ++ t1 ++ [FsAppend outputPath] ++ t).
      repeat split.
      * rewrite <- ?app_assoc. cbn [app]. rewrite Z.add_0_l. reflexivity.
      * lia.
      * rewrite Hc. cbn [content]. now rewrite append_assoc.
      * rewrite !spawnsOf_app, Ht1, Ht. reflexivity.
Qed.





(** ** The order of the strategies *)
Lemma trace_try {A} (m : M A) (h : string -> M A) (w : world) :
  trace (try_catch m h w)
  = trace (m w) ++ match outcome (m w) with
                   | Rejected e => trace (h e (final (m w)))
                   | _ => []
                   end.
Proof. unfold try_catch. destruct (outcome (m w)); cbn [trace]; now rewrite ?app_nil_r. Qed.

Lemma strategiesOf_app (t1 t2 : list action) :
  strategiesOf (t1 ++ t2) = strategiesOf t1 ++ strategiesOf t2.
Proof. unfold strategiesOf. now rewrite spawnsOf_app, map_app. Qed.

Lemma staged_silent (lo hi : Z) (tr : list action) : spawnsOf tr = [] -> staged lo hi tr.
Proof.
  intros H. unfold staged, ranksWithin, inChainOrder, noFullDump, strategiesOf. rewrite H.
  repeat split; constructor.
Qed.

Lemma staged_weaken (lo hi lo' hi' : Z) (tr : list action) :
  staged lo hi tr -> lo' <= lo -> hi <= hi' -> staged lo' hi' tr.
Proof.
  intros (Hr & Ho & Hn) Hlo Hhi. repeat split; try assumption.
  unfold ranksWithin in *. eapply List.Forall_impl; [|exact Hr]. cbn. intros s Hs. lia.
Qed.

Lemma staged_app (lo mid hi : Z) (t1 t2 : list action) :
  lo <= mid <= hi ->
  staged lo mid t1 -> staged mid hi t2 -> staged lo hi (t1 ++ t2).
Proof.
  intros Hm (Hr1 & Ho1 & Hn1) (Hr2 & Ho2 & Hn2).
  unfold staged, ranksWithin, inChainOrder, noFullDump in *.
  rewrite strategiesOf_app. repeat split.
  - apply List.Forall_app. split.
    + eapply List.Forall_impl; [|exact Hr1]. cbn. intros; lia.
    + eapply List.Forall_impl; [|exact Hr2]. cbn. intros; lia.
  - rewrite map_app.
    revert Ho1 Hr1. generalize (strategiesOf t1) as l1. intros l1.
    induction l1 as [|s l1 IH]; intros Ho1 Hr1; [exact Ho2|].
    cbn [map app]. inversion Ho1 as [|? ? Hs Hall]; subst. inversion Hr1; subst.
    constructor; [now apply IH|].
    apply List.Forall_app. split; [exact Hall|].
    apply List.Forall_forall. intros x Hx. apply in_map_iff in Hx.
    destruct Hx as (y & <- & Hy).
    rewrite List.Forall_forall in Hr2. specialize (Hr2 y Hy). lia.
  - apply List.Forall_app. now split.
Qed.

Lemma staged_bind {A B} (lo mid hi : Z) (m : M A) (k : A -> M B) (w : world) :
  lo <= mid <= hi ->
  staged lo mid (trace (m w)) ->
  (forall a w', staged mid hi (trace (k a w'))) ->
  staged lo hi (trace (bind m k w)).
Proof.
  intros Hm H1 H2. rewrite trace_bind. apply (staged_app lo mid hi); try assumption.
  destruct (outcome (m w)); [apply H2|now apply staged_silent|now apply staged_silent].
Qed.

Lemma staged_try {A} (lo mid hi : Z) (m : M A) (h : string -> M A) (w : world) :
  lo <= mid <= hi ->
  staged lo mid (trace (m w)) ->
  (forall e w', staged mid hi (trace (h e w'))) ->
  staged lo hi (trace (try_catch m h w)).
Proof.
  intros Hm H1 H2. rewrite trace_try. apply (staged_app lo mid hi); try assumption.
  destruct (outcome (m w)); [now apply staged_silent|apply H2|now apply staged_silent].
Qed.

Lemma staged_spawn (E : env) (r : Z) (args : list string) (w : world) :
  rank (strategyOf args) = r -> r <> 2 ->
  staged r r (trace (spawn E "sqlite3" args w)).
Proof.
  intros H H2. cbn [trace spawn]. repeat split.
  - unfold ranksWithin, strategiesOf. cbn. constructor; [lia|constructor].
  - unfold inChainOrder, strategiesOf. cbn. constructor; constructor.
  - unfold noFullDump, strategiesOf. cbn. constructor; [|constructor].
    intros Hf. rewrite Hf in H. cbn in H. lia.
Qed.

Lemma trace_awaitChild (b : behaviour) (w : world) : trace (awaitChild b w) = [].
Proof. rewrite awaitChild_run. now destruct b. Qed.

Lemma trace_writeFile (E : env) (p c : string) (w : world) :
  trace (writeFile E p c w) = [FsWrite p].
Proof. unfold writeFile. now destruct (writable E p). Qed.

Lemma trace_appendFile (E : env) (p c : string) (w : world) :
  trace (appendFile E p c w) = [FsAppend p].
Proof. unfold appendFile. now destruct (writable E p). Qed.

(** The arguments of the children, classified. *)
Lemma strategy_version : strategyOf ["--version"] = Probe.
Proof. reflexivity. Qed.

Lemma strategy_help : strategyOf [":memory:"; ".help"] = Probe.
Proof. reflexivity. Qed.

Lemma strategy_query (dbPath query : string) : strategyOf [dbPath; "-json"; query] = TableByTable.
Proof. reflexivity. Qed.

Lemma strategy_table_dump (dbPath tableName : string) :
  strategyOf [dbPath; Server.dumpTableCommand tableName] = TableByTable.
Proof.
  unfold strategyOf, Server.dumpTableCommand.
  change (String.eqb (".dump " +:+ dq +:+ tableName +:+ dq) ".help") with false.
  change (String.eqb (".dump " +:+ dq +:+ tableName +:+ dq) ".dump") with false.
  change (String.eqb (".dump " +:+ dq +:+ tableName +:+ dq) ".schema") with false.
  change (String.eqb (".dump " +:+ dq +:+ tableName +:+ dq) ".tables") with false.
  rewrite andb_false_r.
  change (".dump " +:+ dq +:+ tableName +:+ dq)
    with ((".dump " +:+ dq) +:+ (tableName +:+ dq)).
  unfold Js.startsWith. now rewrite prefix_append.
Qed.

Lemma strategy_schema (dbPath : string) : strategyOf [dbPath; ".schema"] = SchemaOnly.
Proof.
  unfold strategyOf. change (String.eqb ".schema" ".help") with false.
  rewrite andb_false_r. reflexivity.
Qed.

Lemma strategy_tables (dbPath : string) : strategyOf [dbPath; ".tables"] = TableList.
Proof.
  unfold strategyOf. change (String.eqb ".tables" ".help") with false.
  rewrite andb_false_r. reflexivity.
Qed.

Lemma strategy_full_dump (dbPath : string) : strategyOf [dbPath; ".dump"] = FullDump.
Proof.
  unfold strategyOf. change (String.eqb ".dump" ".help") with false.
  rewrite andb_false_r. reflexivity.
Qed.

Ltac silent := solve [apply staged_silent; reflexivity].

Lemma staged_await (r : Z) (b : behaviour) (w : world) : staged r r (trace (awaitChild b w)).
Proof. rewrite trace_awaitChild. now apply staged_silent. Qed.

Lemma staged_writeFile (E : env) (r : Z) (p c : string) (w : world) :
  staged r r (trace (writeFile E p c w)).
Proof. rewrite trace_writeFile. now apply staged_silent. Qed.

Lemma staged_appendFile (E : env) (r : Z) (p c : string) (w : world) :
  staged r r (trace (appendFile E p c w)).
Proof. rewrite trace_appendFile. now apply staged_silent. Qed.

(** One step of a strategy whose children all have the same rank. *)
Ltac stage r :=
  repeat first
    [ apply (staged_bind r r r); [lia| |intros ? ?]
    | apply (staged_try r r r); [lia| |intros ? ?]
    | apply staged_await
    | apply staged_writeFile
    | apply staged_appendFile
    | silent
    | match goal with
      | |- staged _ _ (trace (match ?x with _ => _ end _)) => destruct x
      | |- staged _ _ (trace ((if ?b then _ else _) _)) => destruct b
      end ].

Lemma staged_testRecoverCommand (E : env) (w : world) :
  staged 0 0 (trace (Server.testRecoverCommand E w)).
Proof.
  unfold Server.testRecoverCommand. stage 0.
  apply staged_spawn; [reflexivity|lia].
Qed.

Lemma staged_checkSqliteVersion (E : env) (w : world) :
  staged 0 0 (trace (Server.checkSqliteVersion E w)).
Proof.
  unfold Server.checkSqliteVersion. stage 0.
  all: apply staged_spawn; [reflexivity|lia].
Qed.

Lemma staged_queryDatabase (E : env) (dbPath query : string) (w : world) :
  staged 3 3 (trace (Server.queryDatabase E dbPath query w)).
Proof.
  unfold Server.queryDatabase. stage 3.
  apply staged_spawn; [reflexivity|lia].
Qed.

Lemma staged_dumpSingleTable (E : env) (dbPath tableName : string) (w : world) :
  staged 3 3 (trace (Server.dumpSingleTable E dbPath tableName w)).
Proof.
  unfold Server.dumpSingleTable. stage 3.
  apply staged_spawn; [now rewrite strategy_table_dump|lia].
Qed.

Lemma staged_recoverTables (E : env) (inputPath outputPath sessionId : string) (total : Z)
    (rows : list row) :
  forall (i successCount : Z) (failedTables : list string) (w : world),
    staged 3 3 (trace (Server.recoverTables E inputPath outputPath sessionId total i rows
                         successCount failedTables w)).
Proof.
  induction rows as [|row rows IH]; intros i sc ft w; cbn [Server.recoverTables].
  - silent.
  - unfold sendProgress.
    apply (staged_bind 3 3 3); [lia|silent|intros _ w1].
    apply (staged_bind 3 3 3); [lia|apply staged_dumpSingleTable|intros res w2].
    destruct (success res).
    + apply (staged_bind 3 3 3); [lia|apply staged_appendFile|intros _ w3]. apply IH.
    + apply (staged_bind 3 3 3); [lia|apply staged_appendFile|intros _ w3]. apply IH.
Qed.

Lemma staged_tryTableByTableRecovery (E : env) (inputPath outputPath sessionId : string)
    (w : world) :
  staged 3 3 (trace (Server.tryTableByTableRecovery E inputPath outputPath sessionId w)).
Proof.
  unfold Server.tryTableByTableRecovery.
  apply (staged_try 3 3 3); [lia| |intros; silent].
  apply (staged_bind 3 3 3); [lia|apply staged_queryDatabase|intros tables w1].
  destruct tables as [[|row rows]|]; try silent.
  apply (staged_bind 3 3 3); [lia|apply staged_writeFile|intros _ w2].
  apply (staged_bind 3 3 3); [lia|apply staged_recoverTables|intros counts w3].
  apply (staged_bind 3 3 3); [lia|apply staged_appendFile|intros _ w4].
  destruct (0 <? fst counts); silent.
Qed.

Lemma staged_trySchemaExtraction (E : env) (inputPath outputPath : string) (w : world) :
  staged 4 4 (trace (Server.trySchemaExtraction E inputPath outputPath w)).
Proof.
  unfold Server.trySchemaExtraction. stage 4.
  apply staged_spawn; [now rewrite strategy_schema|lia].
Qed.

Lemma staged_tryBasicExtraction (E : env) (inputPath outputPath : string) (w : world) :
  staged 5 5 (trace (Server.tryBasicExtraction E inputPath outputPath w)).
Proof.
  unfold Server.tryBasicExtraction. stage 5.
  apply staged_spawn; [now rewrite strategy_tables|lia].
Qed.

Lemma staged_tryAlternativeRecovery (E : env) (inputPath outputPath sessionId : string)
    (w : world) :
  staged 3 5 (trace (Server.tryAlternativeRecovery E inputPath outputPath sessionId w)).
Proof.
  unfold Server.tryAlternativeRecovery, sendProgress.
  apply (staged_bind 3 3 5); [lia|silent|intros _ w1].
  apply (staged_bind 3 3 5); [lia|apply staged_tryTableByTableRecovery|intros tableResult w2].
  destruct (success tableResult); [silent|].
  apply (staged_bind 3 4 5); [lia| |intros schemaResult w3].
  - eapply staged_weaken; [apply staged_trySchemaExtraction|lia|lia].
  - destruct (success schemaResult); [silent|].
    eapply staged_weaken; [apply staged_tryBasicExtraction|lia|lia].
Qed.



Lemma bind_run {A B} (m : M A) (k : A -> M B) (w : world) :
  bind m k w
  = match outcome (m w) with
    | Resolved a => after (trace (m w)) (k a (final (m w)))
    | Rejected e => Run (Rejected e) (final (m w)) (trace (m w))
    | Pending => Run Pending (final (m w)) (trace (m w))
    end.
Proof. unfold bind, after. destruct (outcome (m w)); reflexivity. Qed.

Lemma staged_members (r : Z) (tr : list action) (s : strategy) :
  staged r r tr -> In s (strategiesOf tr) -> rank s = r.
Proof.
  intros (Hr & _ & _) Hin. unfold ranksWithin in Hr.
  rewrite List.Forall_forall in Hr. specialize (Hr s Hin). lia.
Qed.


(** The fallbacks, one after the other: each one starts in the world that
    the one before has left, and only when that one has resolved with a
    failure. *)
Lemma alternative_chain_steps (E : env) (inputPath outputPath sessionId : string) (w : world) :
  let a := Server.tryAlternativeRecovery E inputPath outputPath sessionId w in
  let t := Server.tryTableByTableRecovery E inputPath outputPath sessionId w in
  let p := Progress sessionId "recovery" 30 "Using table-by-table recovery" in
  match outcome t with
  | Resolved res1 =>
      if success res1 then a = Run (Resolved res1) (final t) (p :: trace t)
      else
        let s := Server.trySchemaExtraction E inputPath outputPath (final t) in
        match outcome s with
        | Resolved res2 =>
            if success res2 then a = Run (Resolved res2) (final s) (p :: trace t ++ trace s)
            else
              let b := Server.tryBasicExtraction E inputPath outputPath (final s) in
              a = Run (outcome b) (final b) (p :: trace t ++ trace s ++ trace b)
        | Rejected e => a = Run (Rejected e) (final s) (p :: trace t ++ trace s)
        | Pending => a = Run Pending (final s) (p :: trace t ++ trace s)
        end
  | Rejected e => a = Run (Rejected e) (final t) (p :: trace t)
  | Pending => a = Run Pending (final t) (p :: trace t)
  end.
Proof.
  cbv zeta. unfold Server.tryAlternativeRecovery, sendProgress.
  erewrite bind_resolved by reflexivity.
  rewrite bind_run.
  destruct (outcome (Server.tryTableByTableRecovery E inputPath outputPath sessionId w))
    as [res1|e|]; try reflexivity.
  destruct (success res1).
  - unfold after, ret. cbn [outcome final trace app]. now rewrite app_nil_r.
  - rewrite bind_run.
    destruct (outcome (Server.trySchemaExtraction E inputPath outputPath _)) as [res2|e|].
    + destruct (success res2); unfold after, ret; cbn [outcome final trace app].
      * now rewrite app_nil_r.
      * reflexivity.
    + reflexivity.
    + reflexivity.
Qed.


Lemma staged_bounds (lo hi : Z) (tr : list action) (s : strategy) :
  staged lo hi tr -> In s (strategiesOf tr) -> lo <= rank s <= hi.
Proof.
  intros (Hr & _ & _) Hin. unfold ranksWithin in Hr.
  rewrite List.Forall_forall in Hr. now apply Hr.
Qed.






(** The primary strategy is attempted only when the probe of the session
    has found [.recover]. *)
Lemma primary_needs_support (E : env) (w : world)
    (inputPath outputPath sessionId ignoreFreelist noRowids lostFoundTable : string) :
  let command := Server.buildRecoverCommand ignoreFreelist noRowids lostFoundTable in
  let r := Server.executeRecovery E inputPath command outputPath sessionId w in
  let c := Server.checkSqliteVersion E w in
  In Primary (strategiesOf (trace r)) ->
  exists v, outcome c = Resolved v /\ VersionCheck.success v = true /\
            VersionCheck.hasRecover v = true.
Proof.
  cbv zeta. unfold Server.executeRecovery.
  pose proof (staged_checkSqliteVersion E w) as Hc.
  set (c := Server.checkSqliteVersion E w) in *.
  assert (Hprobe : ~ In Primary (strategiesOf (trace c))).
  { intros Hin. pose proof (staged_members 0 (trace c) _ Hc Hin). discriminate. }
  rewrite bind_run. fold c.
  destruct (outcome c) as [v|e|] eqn:Hoc; cbn [trace];
    [|intros Hin; now exfalso|intros Hin; now exfalso].
  destruct (VersionCheck.success v) eqn:Hsucc; cbn [negb].
  2:{ unfold after, ret. cbn [trace]. rewrite app_nil_r. intros Hin. now exfalso. }
  destruct (VersionCheck.hasRecover v) eqn:Hrec; cbn [negb].
  { intros _. exists v. split; [reflexivity|]. now split. }
  pose proof (staged_tryAlternativeRecovery E inputPath outputPath sessionId (final c)) as Ha.
  unfold after. cbn [trace]. rewrite strategiesOf_app.
  intros Hin. apply in_app_or in Hin. destruct Hin as [Hin|Hin]; [now exfalso|].
  pose proof (staged_bounds 3 5 _ _ Ha Hin) as Hb. cbn in Hb. lia.
Qed.






(** The older revision of the server has the chain of the specification's
    second step, and no table-by-table recovery: after a failed full
    recover it attempts the full dump. *)
Example older_revision_attempts_full_dump :
  strategiesOf
    (trace (ServerV1.executeRecovery Scenario.damagedFile "uploads/corrupt_1_shop.db"
              (Server.buildRecoverCommand EmptyString EmptyString EmptyString)
              "uploads/recovery_1_shop.sql" Scenario.staleTarget))
  = [Probe; Probe; Primary; FullDump; SchemaOnly; TableList].
Proof. vm_compute. reflexivity. Qed.

(** C7, as amended. The capability probe runs at startup and again at the
    start of every recovery session: the [--version] child is spawned by
    [startServer], and it is the first thing a session does. The session
    decides on its own probe: when that probe reports that [.recover] is
    missing, the session attempts no primary strategy. *)
Theorem every_session_probes_again (E : env) (w0 w : world)
    (inputPath outputPath sessionId ignoreFreelist noRowids lostFoundTable : string) :
  let command := Server.buildRecoverCommand ignoreFreelist noRowids lostFoundTable in
  let r := Server.executeRecovery E inputPath command outputPath sessionId w in
  let c := Server.checkSqliteVersion E w in
  In ["--version"] (spawnsOf (trace (Server.startServer E w0))) /\
  (exists rest, trace r = Spawn (spawned w) "sqlite3" ["--version"] :: rest) /\
  (forall v, outcome c = Resolved v -> VersionCheck.hasRecover v = false ->
   ~ In Primary (strategiesOf (trace r))).
Proof.
  cbv zeta. split; [|split].
  - unfold Server.startServer. rewrite trace_bind.
    destruct (outcome (Server.ensureUploadsDir w0)) eqn:Hd.
    + rewrite trace_bind. unfold Server.checkSqliteVersion at 1.
      rewrite trace_bind, spawn_run. cbn [trace].
      rewrite !spawnsOf_app. apply in_or_app. right. apply in_or_app. left.
      apply in_or_app. left. now left.
    + exfalso. revert Hd. unfold Server.ensureUploadsDir, try_catch, access, mkdir.
      destruct (files w0 !! "uploads"); [discriminate|].
      destruct (decide ("uploads" ∈ dirs w0)); discriminate.
    + exfalso. revert Hd. unfold Server.ensureUploadsDir, try_catch, access, mkdir.
      destruct (files w0 !! "uploads"); [discriminate|].
      destruct (decide ("uploads" ∈ dirs w0)); discriminate.
  - unfold Server.executeRecovery. rewrite trace_bind.
    unfold Server.checkSqliteVersion at 1. rewrite trace_bind, spawn_run.
    cbn [trace app]. eexists. reflexivity.
  - intros v Hc Hr Hin.
    destruct (primary_needs_support E w inputPath outputPath sessionId
                ignoreFreelist noRowids lostFoundTable Hin) as (v' & Hc' & _ & Hr').
    rewrite Hc in Hc'. injection Hc' as <-. congruence.
Qed.

(** A session on a tool without [.recover]: its own probe finds the
    command missing and no primary child is spawned. *)
Lemma every_session_probes_again_witness :
  let E := Scenario.restrictedTool in
  let v := VersionCheck.Make true EmptyString false true in
  outcome (Server.checkSqliteVersion E Scenario.staleTarget) = Resolved v /\
  VersionCheck.hasRecover v = false /\
  ~ In Primary
      (strategiesOf
         (trace (Server.executeRecovery E "uploads/corrupt_1_shop.db"
                   (Server.buildRecoverCommand EmptyString EmptyString EmptyString)
                   "uploads/recovery_1_shop.sql" "s1" Scenario.staleTarget))).
Proof.
  cbv zeta.
  assert (Hc : outcome (Server.checkSqliteVersion Scenario.restrictedTool Scenario.staleTarget)
               = Resolved (VersionCheck.Make true EmptyString false true))
    by (vm_compute; reflexivity).
  split; [exact Hc|]. split; [reflexivity|].
  exact (proj2 (proj2
           (every_session_probes_again Scenario.restrictedTool Scenario.staleTarget
              Scenario.staleTarget "uploads/corrupt_1_shop.db" "uploads/recovery_1_shop.sql"
              "s1" EmptyString EmptyString EmptyString))
         _ Hc eq_refl).
Defined.

(** C7, the reading of the specification refuted: on a host whose tool
    lacks [.recover], the server starts, and then one recovery session
    runs. The version and help checks are spawned twice, once at startup
    and once more by the session. *)
Lemma session_spawns_the_probe_again :
  let served :=
    bind (Server.startServer Scenario.restrictedTool)
         (fun _ => Server.executeRecovery Scenario.restrictedTool "uploads/corrupt_1_shop.db"
                     (Server.buildRecoverCommand EmptyString EmptyString EmptyString)
                     "uploads/recovery_1_shop.sql" "s1") in
  spawnsOf (trace (served Scenario.staleTarget))
  = [ ["--version"]; [":memory:"; ".help"];
      ["--version"]; [":memory:"; ".help"];
      ["uploads/corrupt_1_shop.db"; "-json"; Server.tablesQuery];
      ["uploads/corrupt_1_shop.db"; Server.dumpTableCommand "t"] ].
Proof. vm_compute. reflexivity. Qed.

(** ** The wrappers around the children *)


Lemma queryDatabase_outcome (E : env) (dbPath query : string) (w : world) :
  outcome (Server.queryDatabase E dbPath query w)
  = match proc E (spawned w) "sqlite3" [dbPath; "-json"; query] with
    | Exits _ code output _ =>
        Resolved (if ((code =? 0) && Js.truthy output)%bool then JSON_parse E output
                  else None)
    | SpawnFails _ => Resolved None
    | Hangs => Pending
    end.
Proof.
  unfold Server.queryDatabase.
  rewrite (bind_resolved _ _ _ _ _ _ (spawn_run _ _ _ _)). cbn [snd].
  unfold after. cbn [outcome]. rewrite outcome_bind, awaitChild_run.
  destruct (proc E (spawned w) "sqlite3" [dbPath; "-json"; query]) as [d code out err|m|];
    cbn [outcome final]; [|reflexivity|reflexivity].
  destruct ((code =? 0) && Js.truthy out)%bool; reflexivity.
Qed.





(** A child of the metadata query that emits no event leaves the promise
    unsettled: the wrapper has no timer of its own. *)
Lemma query_on_hung_child_stays_pending (E : env) (dbPath query : string) (w : world) :
  proc E (spawned w) "sqlite3" [dbPath; "-json"; query] = Hangs ->
  outcome (Server.queryDatabase E dbPath query w) = Pending.
Proof. intros H. now rewrite queryDatabase_outcome, H. Qed.




(** ** The choice of the database inside an archive *)

Lemma firstFile_spec (test : Zip.entry -> bool) (zipEntries : list Zip.entry) :
  match Zip.firstFile test zipEntries with
  | Some e =>
      exists before rest,
        zipEntries = before ++ e :: rest /\
        Zip.isDirectory e = false /\ test e = true /\
        Forall (fun g => Zip.isDirectory g = true \/ test g = false) before
  | None => Forall (fun g => Zip.isDirectory g = true \/ test g = false) zipEntries
  end.
Proof.
  induction zipEntries as [|x l IH]; cbn [Zip.firstFile]; [constructor|].
  destruct (Zip.isDirectory x) eqn:Hd.
  - destruct (Zip.firstFile test l) as [e|].
    + destruct IH as (before & rest & -> & He & Ht & Hb).
      exists (x :: before), rest. repeat split; try assumption.
      constructor; [now left|exact Hb].
    + constructor; [now left|exact IH].
  - destruct (test x) eqn:Ht.
    + exists [], l. repeat split; try assumption. constructor.
    + destruct (Zip.firstFile test l) as [e|].
      * destruct IH as (before & rest & -> & He & Hte & Hb).
        exists (x :: before), rest. repeat split; try assumption.
        constructor; [now right|exact Hb].
      * constructor; [now right|exact IH].
Qed.

(** The loop for the largest file keeps an entry of the size it holds, at
    least as large as every file it has passed. *)
Lemma largest_spec (zipEntries : list Zip.entry) :
  forall (largestEntry : option Zip.entry) (largestSize : Z),
    match Zip.largest zipEntries largestEntry largestSize with
    | Some e =>
        (largestEntry = Some e /\
         Forall (fun g => Zip.isDirectory g = true \/ Zip.size g <= largestSize) zipEntries)
        \/
        (In e zipEntries /\ Zip.isDirectory e = false /\ largestSize < Zip.size e /\
         Forall (fun g => Zip.isDirectory g = true \/ Zip.size g <= Zip.size e) zipEntries)
    | None =>
        largestEntry = None /\
        Forall (fun g => Zip.isDirectory g = true \/ Zip.size g <= largestSize) zipEntries
    end.
Proof.
  induction zipEntries as [|x l IH]; intros le ls; cbn [Zip.largest].
  - destruct le; [left|]; split; try reflexivity; constructor.
  - destruct (Zip.isDirectory x) eqn:Hd.
    + specialize (IH le ls). destruct (Zip.largest l le ls) as [e|].
      * destruct IH as [[-> Hall]|(Hin & He & Hlt & Hall)].
        -- left. split; [reflexivity|]. constructor; [now left|exact Hall].
        -- right. repeat split; try assumption; [now right|].
           constructor; [now left|exact Hall].
      * destruct IH as [-> Hall]. split; [reflexivity|].
        constructor; [now left|exact Hall].
    + destruct (Z.ltb_spec ls (Zip.size x)) as [Hlt|Hge].
      * specialize (IH (Some x) (Zip.size x)).
        destruct (Zip.largest l (Some x) (Zip.size x)) as [e|].
        -- right. destruct IH as [[[= <-] Hall]|(Hin & He & Hlt' & Hall)].
           ++ repeat split; try assumption; [now left|].
              constructor; [right; lia|exact Hall].
           ++ repeat split; try assumption; [now right|lia|].
              constructor; [right; lia|exact Hall].
        -- destruct IH as [[=] _].
      * specialize (IH le ls). destruct (Zip.largest l le ls) as [e|].
        -- destruct IH as [[-> Hall]|(Hin & He & Hlt & Hall)].
           ++ left. split; [reflexivity|]. constructor; [now right|exact Hall].
           ++ right. repeat split; try assumption; [now right|].
              constructor; [right; lia|exact Hall].
        -- destruct IH as [-> Hall]. split; [reflexivity|].
           constructor; [now right|exact Hall].
Qed.

(** The entry chosen is a file of the archive, never a directory. *)
Theorem selectEntry_picks_a_file (zipEntries : list Zip.entry) (e : Zip.entry) :
  Zip.selectEntry zipEntries = Some e ->
  In e zipEntries /\ Zip.isDirectory e = false.
Proof.
  unfold Zip.selectEntry.
  pose proof (firstFile_spec Zip.hasSqliteExtension zipEntries) as H1.
  pose proof (firstFile_spec Zip.looksLikeDatabase zipEntries) as H2.
  pose proof (largest_spec zipEntries None 0) as H3.
  destruct (Zip.firstFile Zip.hasSqliteExtension zipEntries) as [a|].
  { intros [= <-]. destruct H1 as (before & rest & -> & Hd & _). split; [|exact Hd].
    apply in_or_app. right. now left. }
  destruct (Zip.firstFile Zip.looksLikeDatabase zipEntries) as [a|].
  { intros [= <-]. destruct H2 as (before & rest & -> & Hd & _). split; [|exact Hd].
    apply in_or_app. right. now left. }
  intros Hl. rewrite Hl in H3. destruct H3 as [[[=] _]|(Hin & Hd & _)]. now split.
Qed.

Lemma selectEntry_picks_a_file_witness :
  let db := Zip.Entry "data/shop.db" false 4096 in
  Zip.selectEntry [Zip.Entry "data/" true 0; Zip.Entry "readme.txt" false 9000; db] = Some db /\
  In db [Zip.Entry "data/" true 0; Zip.Entry "readme.txt" false 9000; db] /\
  Zip.isDirectory db = false.
Proof.
  cbv zeta. split; [vm_compute; reflexivity|].
  apply (selectEntry_picks_a_file
           [Zip.Entry "data/" true 0; Zip.Entry "readme.txt" false 9000;
            Zip.Entry "data/shop.db" false 4096]).
  vm_compute. reflexivity.
Defined.

(** A file with a SQLite extension wins over names and sizes: the first
    such file of the archive is chosen, whatever the other entries are. *)
Theorem selectEntry_prefers_extension (before rest : list Zip.entry) (e : Zip.entry) :
  Zip.isDirectory e = false ->
  Zip.hasSqliteExtension e = true ->
  Forall (fun g => Zip.isDirectory g = true \/ Zip.hasSqliteExtension g = false) before ->
  Zip.selectEntry (before ++ e :: rest) = Some e.
Proof.
  intros Hd He Hb. unfold Zip.selectEntry.
  assert (H : Zip.firstFile Zip.hasSqliteExtension (before ++ e :: rest) = Some e).
  { induction Hb as [|g l Hg _ IH]; cbn [app Zip.firstFile].
    - now rewrite Hd, He.
    - destruct Hg as [Hg|Hg]; rewrite Hg; [exact IH|].
      destruct (Zip.isDirectory g); exact IH. }
  now rewrite H.
Qed.

Lemma selectEntry_prefers_extension_witness :
  Zip.selectEntry ([Zip.Entry "database-notes.txt" false 900000] ++
                   Zip.Entry "a.SQLite" false 1 :: [Zip.Entry "b.db" false 5000])
  = Some (Zip.Entry "a.SQLite" false 1).
Proof.
  apply selectEntry_prefers_extension.
  - reflexivity.
  - vm_compute. reflexivity.
  - constructor; [right; vm_compute; reflexivity|constructor].
Defined.

(** No entry is chosen exactly when every entry is a directory or a file
    without a SQLite extension, without a telling name, and of size zero. *)
Theorem selectEntry_none_iff (zipEntries : list Zip.entry) :
  Zip.selectEntry zipEntries = None <->
  Forall (fun g => Zip.isDirectory g = true \/
                   (Zip.hasSqliteExtension g = false /\ Zip.looksLikeDatabase g = false /\
                    Zip.size g <= 0)) zipEntries.
Proof.
  unfold Zip.selectEntry.
  pose proof (firstFile_spec Zip.hasSqliteExtension zipEntries) as H1.
  pose proof (firstFile_spec Zip.looksLikeDatabase zipEntries) as H2.
  pose proof (largest_spec zipEntries None 0) as H3.
  split.
  - destruct (Zip.firstFile Zip.hasSqliteExtension zipEntries); [discriminate|].
    destruct (Zip.firstFile Zip.looksLikeDatabase zipEntries); [discriminate|].
    intros Hl. rewrite Hl in H3. destruct H3 as [_ H3].
    rewrite List.Forall_forall in *. intros g Hg.
    destruct (H1 g Hg) as [?|?]; [now left|].
    destruct (H2 g Hg) as [?|?]; [now left|].
    destruct (H3 g Hg) as [?|?]; [now left|]. right. now repeat split.
  - intros Hall. rewrite List.Forall_forall in Hall.
    destruct (Zip.firstFile Zip.hasSqliteExtension zipEntries) as [a|].
    { exfalso. destruct H1 as (before & rest & -> & Hd & He & _).
      destruct (Hall a) as [?|(? & _)]; [apply in_or_app; right; now left|congruence..]. }
    destruct (Zip.firstFile Zip.looksLikeDatabase zipEntries) as [a|].
    { exfalso. destruct H2 as (before & rest & -> & Hd & He & _).
      destruct (Hall a) as [?|(_ & ? & _)]; [apply in_or_app; right; now left|congruence..]. }
    destruct (Zip.largest zipEntries None 0) as [a|]; [exfalso|reflexivity].
    destruct H3 as [[[=] _]|(Hin & Hd & Hlt & _)].
    destruct (Hall a Hin) as [?|(_ & _ & ?)]; [congruence|lia].
Qed.

Lemma largest_first (zipEntries : list Zip.entry) (e : Zip.entry) :
  forall (largestEntry : option Zip.entry) (largestSize : Z),
    Zip.largest zipEntries largestEntry largestSize = Some e ->
    (largestEntry = Some e /\
     Forall (fun g => Zip.isDirectory g = true \/ Zip.size g <= largestSize) zipEntries)
    \/
    (largestSize < Zip.size e /\ Zip.isDirectory e = false /\
     exists before rest,
       zipEntries = before ++ e :: rest /\
       Forall (fun g => Zip.isDirectory g = true \/ Zip.size g < Zip.size e) before /\
       Forall (fun g => Zip.isDirectory g = true \/ Zip.size g <= Zip.size e) rest).
Proof.
  induction zipEntries as [|x l IH]; intros le ls; cbn [Zip.largest].
  - intros ->. left. split; [reflexivity|constructor].
  - destruct (Zip.isDirectory x) eqn:Hd.
    + intros H. destruct (IH _ _ H) as [[-> Hall]|(Hlt & He & b & r & -> & Hb & Hr)].
      * left. split; [reflexivity|]. constructor; [now left|exact Hall].
      * right. split; [exact Hlt|]. split; [exact He|].
        exists (x :: b), r. repeat split; [|exact Hr].
        constructor; [now left|exact Hb].
    + destruct (Z.ltb_spec ls (Zip.size x)) as [Hlt|Hge]; intros H.
      * right. destruct (IH _ _ H) as [[[= <-] Hall]|(Hlt' & He & b & r & -> & Hb & Hr)].
        -- split; [exact Hlt|]. split; [exact Hd|].
           exists [], l. repeat split; [constructor|exact Hall].
        -- split; [lia|]. split; [exact He|].
           exists (x :: b), r. repeat split; [|exact Hr].
           constructor; [right; lia|exact Hb].
      * destruct (IH _ _ H) as [[-> Hall]|(Hlt & He & b & r & -> & Hb & Hr)].
        -- left. split; [reflexivity|]. constructor; [now right|exact Hall].
        -- right. split; [exact Hlt|]. split; [exact He|].
           exists (x :: b), r. repeat split; [|exact Hr].
           constructor; [right; lia|exact Hb].
Qed.

(** When neither an extension nor a name decides, the entry chosen is
    the first of the largest files, and it is not empty. *)
Theorem selectEntry_falls_back_to_largest (zipEntries : list Zip.entry) (e : Zip.entry) :
  Zip.firstFile Zip.hasSqliteExtension zipEntries = None ->
  Zip.firstFile Zip.looksLikeDatabase zipEntries = None ->
  Zip.selectEntry zipEntries = Some e ->
  0 < Zip.size e /\
  exists before rest,
    zipEntries = before ++ e :: rest /\
    Forall (fun g => Zip.isDirectory g = true \/ Zip.size g < Zip.size e) before /\
    Forall (fun g => Zip.isDirectory g = true \/ Zip.size g <= Zip.size e) rest.
Proof.
  unfold Zip.selectEntry. intros -> -> H.
  destruct (largest_first _ _ _ _ H) as [[[=] _]|(Hlt & _ & Hsplit)].
  split; [exact Hlt|exact Hsplit].
Qed.

Lemma selectEntry_falls_back_to_largest_witness :
  let l := [Zip.Entry "notes.txt" false 5; Zip.Entry "a.bin" false 9;
            Zip.Entry "c.bin" false 9] in
  let e := Zip.Entry "a.bin" false 9 in
  0 < Zip.size e /\
  exists before rest,
    l = before ++ e :: rest /\
    Forall (fun g => Zip.isDirectory g = true \/ Zip.size g < Zip.size e) before /\
    Forall (fun g => Zip.isDirectory g = true \/ Zip.size g <= Zip.size e) rest.
Proof.
  cbv zeta.
  apply (selectEntry_falls_back_to_largest
           [Zip.Entry "notes.txt" false 5; Zip.Entry "a.bin" false 9;
            Zip.Entry "c.bin" false 9]); vm_compute; reflexivity.
Defined.

(** ** The progress channel *)

Lemma removeFirst_fresh (res : nat) (clients : list nat) :
  ~ In res clients -> ProgressStore.removeFirst res (clients ++ [res]) = clients.
Proof.
  induction clients as [|c l IH]; intros Hn; cbn [app ProgressStore.removeFirst].
  - now rewrite Nat.eqb_refl.
  - destruct (Nat.eqb_spec c res) as [->|Hne].
    + exfalso. apply Hn. now left.
    + f_equal. apply IH. intros Hin. apply Hn. now right.
Qed.

Lemma subscribe_store (sessionId : string) (res : nat)
    (store : gmap string (list nat)) :
  fst (ProgressStore.subscribe sessionId res store)
  = <[sessionId := match store !! sessionId with Some l => l | None => [] end ++ [res]]> store.
Proof.
  unfold ProgressStore.subscribe. cbv zeta. cbn [fst].
  destruct (store !! sessionId) as [l|] eqn:Hs.
  - now rewrite Hs.
  - rewrite lookup_insert_eq. apply insert_insert_eq.
Qed.

(** No session of the store is left with an empty list of clients. *)
Lemma step_keeps_sessions_inhabited (store : gmap string (list nat)) (e : ProgressStore.event) :
  (forall s, store !! s <> Some []) ->
  forall s, ProgressStore.step store e !! s <> Some [].
Proof.
  intros Hinv s. destruct e as [sessionId res|sessionId res]; cbn [ProgressStore.step].
  - rewrite subscribe_store.
    destruct (decide (sessionId = s)) as [->|Hne].
    + rewrite lookup_insert_eq. intros [= H]. now destruct (match store !! s with
                                                             | Some l => l | None => [] end).
    + rewrite lookup_insert_ne by exact Hne. apply Hinv.
  - unfold ProgressStore.onClose.
    destruct (store !! sessionId) as [clients|] eqn:Hs; [|apply Hinv].
    destruct (ProgressStore.removeFirst res clients) as [|c l] eqn:Hr.
    + destruct (decide (sessionId = s)) as [->|Hne].
      * now rewrite lookup_delete_eq.
      * rewrite lookup_delete_ne by exact Hne. apply Hinv.
    + destruct (decide (sessionId = s)) as [->|Hne].
      * rewrite lookup_insert_eq. discriminate.
      * rewrite lookup_insert_ne by exact Hne. apply Hinv.
Qed.

Lemma after_sessions_inhabited (events : list ProgressStore.event) (s : string) :
  ProgressStore.after events !! s <> Some [].
Proof.
  unfold ProgressStore.after.
  assert (H : forall store, (forall s, store !! s <> Some []) ->
                            forall s, fold_left ProgressStore.step events store !! s <> Some []).
  { induction events as [|e l IH]; intros store Hinv; [exact Hinv|].
    cbn [fold_left]. apply IH. now apply step_keeps_sessions_inhabited. }
  apply H. intros s'. now rewrite lookup_empty.
Qed.

(** The store holds no session without a client: whatever connections
    and disconnections have happened, a session of the store has at least
    one client, and a session whose only client disconnects is removed
    from the store. *)
Theorem progress_store_keeps_no_empty_session (events : list ProgressStore.event)
    (sessionId : string) (res : nat) :
  ProgressStore.after events !! sessionId <> Some [] /\
  (ProgressStore.after events !! sessionId = Some [res] ->
   ProgressStore.after (events ++ [ProgressStore.Disconnect sessionId res]) !! sessionId
   = None).
Proof.
  split; [apply after_sessions_inhabited|].
  intros H. unfold ProgressStore.after in *. rewrite fold_left_app. cbn [fold_left].
  cbn [ProgressStore.step]. unfold ProgressStore.onClose. rewrite H.
  cbn [ProgressStore.removeFirst]. rewrite Nat.eqb_refl. apply lookup_delete_eq.
Qed.

(** A progress message goes to the clients of its session, in the order
    in which they connected, and to nobody else: a client that connects to
    the session is written to after the earlier ones, a client of another
    session changes nothing, and a message for a session without clients
    is written to nobody (it is not kept for later). *)
Theorem progress_reaches_the_session_only (store : gmap string (list nat))
    (sessionId other json : string) (res : nat) :
  let store' := fst (ProgressStore.subscribe sessionId res store) in
  ProgressStore.sendProgress sessionId json store'
  = ProgressStore.sendProgress sessionId json store
    ++ [(res, "data: " +:+ json +:+ nl +:+ nl)] /\
  (other <> sessionId ->
   ProgressStore.sendProgress other json store'
   = ProgressStore.sendProgress other json store) /\
  (store !! sessionId = None -> ProgressStore.sendProgress sessionId json store = []).
Proof.
  cbv zeta. rewrite subscribe_store. unfold ProgressStore.sendProgress.
  split; [|split].
  - rewrite lookup_insert_eq. destruct (store !! sessionId); [|reflexivity].
    now rewrite map_app.
  - intros Hne. now rewrite lookup_insert_ne by congruence.
  - now intros ->.
Qed.

(** A client that connects and then disconnects leaves the store as it
    was, its session included, whether the session had other clients or
    not. *)
Theorem connect_then_disconnect_restores_store (events : list ProgressStore.event)
    (sessionId : string) (res : nat) :
  let store := ProgressStore.after events in
  ~ In res (match store !! sessionId with Some l => l | None => [] end) ->
  ProgressStore.after
    (events ++ [ProgressStore.Connect sessionId res; ProgressStore.Disconnect sessionId res])
  = store.
Proof.
  cbv zeta. intros Hfresh.
  pose proof (after_sessions_inhabited events sessionId) as Hinv.
  unfold ProgressStore.after in *. rewrite fold_left_app. cbn [fold_left ProgressStore.step].
  set (store := fold_left ProgressStore.step events ∅) in *.
  rewrite subscribe_store. unfold ProgressStore.onClose. rewrite lookup_insert_eq.
  rewrite (removeFirst_fresh _ _ Hfresh).
  destruct (store !! sessionId) as [[|c l]|] eqn:Hs.
  - now exfalso.
  - rewrite insert_insert_eq. now apply insert_id.
  - rewrite delete_insert_eq. now apply delete_id.
Qed.

Lemma connect_then_disconnect_restores_store_witness :
  ProgressStore.after
    ([ProgressStore.Connect "s1" 1%nat] ++
     [ProgressStore.Connect "s1" 2%nat; ProgressStore.Disconnect "s1" 2%nat])
  = ProgressStore.after [ProgressStore.Connect "s1" 1%nat].
Proof.
  apply (connect_then_disconnect_restores_store [ProgressStore.Connect "s1" 1%nat] "s1" 2%nat).
  vm_compute. intros [H|[]]. discriminate H.
Defined.

(** ** Texts and paths *)

Lemma chars_append (a b : string) : Js.chars (a +:+ b) = Js.chars a ++ Js.chars b.
Proof.
  unfold Js.chars. induction a as [|c a IH]; [reflexivity|].
  rewrite append_cons. cbn [list_ascii_of_string app]. now rewrite IH.
Qed.

Lemma str_chars (s : string) : Js.str (Js.chars s) = s.
Proof. apply string_of_list_ascii_of_string. Qed.

Lemma chars_str (l : list ascii) : Js.chars (Js.str l) = l.
Proof. apply list_ascii_of_string_of_list_ascii. Qed.

Lemma str_app (a b : list ascii) : Js.str (a ++ b) = Js.str a +:+ Js.str b.
Proof.
  unfold Js.str. induction a as [|c a IH]; [reflexivity|].
  cbn [app string_of_list_ascii]. rewrite append_cons. now rewrite IH.
Qed.

Lemma append_nil_r (s : string) : s +:+ EmptyString = s.
Proof. induction s as [|c s IH]; [reflexivity|]. rewrite append_cons. now rewrite IH. Qed.

Lemma split_chars_plain (sep : ascii) (l cur : list ascii) :
  Forall (fun c => c <> sep) l ->
  Js.split_chars sep cur l = [rev cur ++ l].
Proof.
  revert cur. induction l as [|c l IH]; intros cur H; cbn [Js.split_chars].
  - now rewrite app_nil_r.
  - apply List.Forall_cons_iff in H. destruct H as [Hc Hl].
    destruct (Ascii.eqb_spec c sep) as [->|_]; [contradiction|].
    rewrite (IH _ Hl). cbn [rev]. now rewrite <- app_assoc.
Qed.

Lemma split_chars_app (sep : ascii) (a b cur : list ascii) :
  Js.split_chars sep cur (a ++ sep :: b)
  = Js.split_chars sep cur a ++ Js.split_chars sep [] b.
Proof.
  revert cur. induction a as [|c a IH]; intros cur; cbn [app Js.split_chars].
  - now rewrite Ascii.eqb_refl.
  - destruct (Ascii.eqb c sep); [|apply IH]. cbn [app]. now rewrite IH.
Qed.

(** A text cut at a separator splits into the segments of its two
    parts. *)
Lemma split_append (a b : string) :
  Js.split "/" (a +:+ "/" +:+ b) = Js.split "/" a ++ Js.split "/" b.
Proof.
  unfold Js.split. rewrite !chars_append.
  change (Js.chars "/") with ["/"%char]. cbn [app].
  now rewrite split_chars_app, map_app.
Qed.

Lemma split_plain (name : string) :
  Forall (fun c => c <> "/"%char) (Js.chars name) -> Js.split "/" name = [name].
Proof.
  intros H. unfold Js.split. rewrite (split_chars_plain _ _ _ H). cbn [rev app map].
  now rewrite str_chars.
Qed.



Lemma plainName_regular (name : string) :
  plainName name ->
  (String.eqb name EmptyString || String.eqb name ".")%bool = false /\
  Path.is_dots name = false /\ Js.truthy name = true.
Proof.
  intros (H0 & H1 & H2 & _). repeat split.
  - apply orb_false_iff. split; now apply String.eqb_neq.
  - now apply String.eqb_neq.
  - now destruct name.
Qed.

Lemma last_char_not_slash (a name : string) :
  plainName name -> Js.endsWith (a +:+ name) "/" = false.
Proof.
  intros (H0 & _ & _ & Hc). unfold Js.endsWith.
  rewrite chars_append, rev_app_distr.
  destruct (Js.chars name) as [|c l] eqn:Hn using rev_ind.
  - exfalso. apply H0. rewrite <- (str_chars name), Hn. reflexivity.
  - clear IHl. rewrite rev_app_distr. cbn [rev app Js.str string_of_list_ascii].
    change (Js.str (rev (Js.chars "/"))) with "/".
    cbn [String.prefix].
    apply List.Forall_app in Hc. destruct Hc as [_ Hc].
    apply List.Forall_cons_iff in Hc. destruct Hc as [Hc _].
    destruct (ascii_dec "/" c) as [<-|_]; [contradiction|reflexivity].
Qed.

(** [path.join ('uploads', name)] for a plain name. *)
Lemma join_uploads_plain (name : string) :
  plainName name -> Path.join "uploads" name = "uploads/" +:+ name.
Proof.
  intros Hp. destruct (plainName_regular _ Hp) as (Hx & Hd & Ht).
  unfold Path.join. rewrite Ht. cbn [Js.truthy].
  unfold Path.normalize.
  change ("uploads" +:+ "/" +:+ name) with ("uploads/" +:+ name).
  rewrite !append_cons. cbn [String.eqb Ascii.eqb Bool.eqb Path.isAbsolute Js.startsWith String.prefix].
  change (String "u" (String "p" (String "l" (String "o" (String "a" (String "d"
            (String "s" (String "/" (EmptyString +:+ name)))))))))
    with ("uploads/" +:+ name).
  rewrite (last_char_not_slash _ _ Hp).
  unfold Path.normalizeString.
  change ("uploads/" +:+ name) with ("uploads" +:+ "/" +:+ name).
  rewrite split_append, (split_plain name) by apply Hp.
  change (Js.split "/" "uploads") with ["uploads"].
  cbn [app Path.normalizeSegments String.eqb Ascii.eqb Bool.eqb orb Path.is_dots].
  rewrite Hx, Hd. cbn [rev app Js.join negb].
  destruct ("uploads" +:+ "/" +:+ name) eqn:He; [discriminate He|].
  rewrite <- He. reflexivity.
Qed.



Lemma startsWith_append (s b : string) : Js.startsWith (s +:+ b) s = true.
Proof. apply prefix_append. Qed.


Lemma includes_false_iff (s : string) :
  Js.includes s "/" = false <-> Forall (fun c => c <> "/"%char) (Js.chars s).
Proof.
  induction s as [|c s IH].
  - split; [constructor|reflexivity].
  - rewrite includes_unfold. cbn [String.prefix].
    change (Js.chars (String c s)) with (c :: Js.chars s).
    rewrite List.Forall_cons_iff, <- IH, orb_false_iff.
    destruct (ascii_dec "/" c) as [<-|Hne].
    + split; [intros [H _]|intros [H _]]; [|contradiction].
      now destruct s.
    + split; [intros [_ H]; split; [congruence|exact H]|intros [_ H]; now split].
Qed.

(** A plain name inside the uploads directory is listed under that
    name. *)
Lemma entryIn_uploads_plain (name : string) :
  plainName name -> entryIn "uploads" ("uploads/" +:+ name) = Some name.
Proof.
  intros Hp. destruct (plainName_regular _ Hp) as (_ & _ & Ht).
  unfold entryIn. change ("uploads" +:+ "/") with "uploads/".
  rewrite startsWith_append, chars_append.
  change (String.length "uploads" + 1)%nat with (length (Js.chars "uploads/")).
  rewrite drop_app_length, str_chars, Ht.
  destruct Hp as (_ & _ & _ & Hc). apply includes_false_iff in Hc. now rewrite Hc.
Qed.


(** The digits of a number hold no separator. *)
Lemma pretty_N_go_no_slash (x : N) :
  forall s, Forall (fun c => c <> "/"%char) (Js.chars s) ->
            Forall (fun c => c <> "/"%char) (Js.chars (pretty_N_go x s)).
Proof.
  induction (N.lt_wf_0 x) as [x _ IH]; intros s Hs.
  destruct (N.eq_dec x 0%N) as [->|Hx]; [now rewrite pretty_N_go_0|].
  rewrite pretty_N_go_step by lia. apply IH.
  - apply N.div_lt; lia.
  - change (Js.chars (String (pretty_N_char (x `mod` 10)) s))
      with (pretty_N_char (x `mod` 10) :: Js.chars s).
    constructor; [|exact Hs].
    unfold pretty_N_char. repeat case_match; discriminate.
Qed.

Lemma pretty_Z_no_slash (z : Z) : Forall (fun c => c <> "/"%char) (Js.chars (pretty z)).
Proof.
  assert (HN : forall n : N, Forall (fun c => c <> "/"%char) (Js.chars (pretty n))).
  { intros n. unfold pretty, pretty_N. destruct (decide (n = 0%N)).
    - repeat constructor; discriminate.
    - apply pretty_N_go_no_slash. constructor. }
  destruct z as [|p|p]; unfold pretty, pretty_Z.
  - repeat constructor; discriminate.
  - apply HN.
  - rewrite chars_append. apply List.Forall_app. split; [|apply HN].
    repeat constructor; discriminate.
Qed.

(** ** Names of extracted files *)

(** A [catch] block that returns a value lets no rejection through. *)
Lemma try_ret_never_rejects {A} (m : M A) (f : string -> A) (w : world) (e : string) :
  outcome (try_catch m (fun message => ret (f message)) w) <> Rejected e.
Proof.
  unfold try_catch. cbv zeta. destruct (outcome (m w)) eqn:H; cbn [outcome ret].
  - rewrite H. discriminate.
  - discriminate.
  - rewrite H. discriminate.
Qed.

Lemma sanitize_char_safe (c : ascii) : safeChar (Server.sanitize_char c) = true.
Proof. destruct c as [[] [] [] [] [] [] [] []]; vm_compute; reflexivity. Qed.

Lemma sanitize_char_idem (c : ascii) :
  Server.sanitize_char (Server.sanitize_char c) = Server.sanitize_char c.
Proof. destruct c as [[] [] [] [] [] [] [] []]; vm_compute; reflexivity. Qed.

Lemma safeChar_not_slash (c : ascii) : safeChar c = true -> c <> "/"%char.
Proof. intros H ->. vm_compute in H. discriminate H. Qed.

Lemma sanitize_chars (s : string) :
  Js.chars (Server.sanitize s) = map Server.sanitize_char (Js.chars s).
Proof. unfold Server.sanitize. apply chars_str. Qed.

Lemma string_length_chars (s : string) : String.length s = length (Js.chars s).
Proof. induction s as [|c s IH]; [reflexivity|]. cbn. now rewrite IH. Qed.

(** [sanitize] keeps the length of a name, leaves only letters, digits,
    dots, dashes and underscores, no separator among them, and changes
    nothing when applied again. *)
Theorem sanitize_leaves_safe_names (s : string) :
  String.length (Server.sanitize s) = String.length s /\
  Forall (fun c => safeChar c = true) (Js.chars (Server.sanitize s)) /\
  Js.includes (Server.sanitize s) "/" = false /\
  Server.sanitize (Server.sanitize s) = Server.sanitize s.
Proof.
  assert (Hsafe : Forall (fun c => safeChar c = true) (Js.chars (Server.sanitize s))).
  { rewrite sanitize_chars. apply List.Forall_forall. intros c Hc.
    apply in_map_iff in Hc. destruct Hc as (x & <- & _). apply sanitize_char_safe. }
  split; [|split; [exact Hsafe|split]].
  - now rewrite !string_length_chars, sanitize_chars, length_map.
  - apply includes_false_iff. eapply List.Forall_impl; [|exact Hsafe].
    intros c. apply safeChar_not_slash.
  - unfold Server.sanitize at 1 3. f_equal. rewrite sanitize_chars, map_map.
    apply map_ext. intros c. apply sanitize_char_idem.
Qed.

Lemma extracted_name_plain (timestamp : Z) (entryName : string) :
  plainName ("extracted_" +:+ pretty timestamp +:+ "_" +:+
             Server.sanitize (Path.basename entryName)).
Proof.
  repeat split; try (rewrite append_cons; discriminate).
  rewrite !chars_append. repeat (apply List.Forall_app; split).
  - repeat constructor; discriminate.
  - apply pretty_Z_no_slash.
  - repeat constructor; discriminate.
  - rewrite sanitize_chars. apply List.Forall_forall. intros c Hc.
    apply in_map_iff in Hc. destruct Hc as (x & <- & _).
    apply safeChar_not_slash, sanitize_char_safe.
Qed.

(** What a successful extraction has done: the entry picked in the
    archive has been written under its sanitised name. *)
Lemma extractSqliteFromZip_some (E : env) (zipPath sessionId : string) (timestamp : Z)
    (w : world) (x : Extracted.t) :
  let r := Server.extractSqliteFromZip E zipPath timestamp sessionId w in
  outcome r = Resolved (Some x) ->
  exists sqliteEntry,
    (content <$> files w !! zipPath) ≫= zip_pick E = Some sqliteEntry /\
    x = Extracted.Make
          ("uploads/" +:+ ("extracted_" +:+ pretty timestamp +:+ "_" +:+
                           Server.sanitize (Path.basename (entryName sqliteEntry))))
          (Js.or_else (Path.basename_ext (entryName sqliteEntry)
                         (Path.extname (entryName sqliteEntry)))
                      "extracted_database") /\
    content <$> files (final r) !! Extracted.path x = Some (data sqliteEntry).
Proof.
  cbv zeta. unfold Server.extractSqliteFromZip.
  set (h := fun _ : string => ret None).
  match goal with |- context [try_catch ?m h w] => set (body := m) end.
  assert (Hbody :
    match (content <$> files w !! zipPath) ≫= zip_pick E with
    | None => outcome (body w) = Resolved None
    | Some sqliteEntry =>
        let name := "extracted_" +:+ pretty timestamp +:+ "_" +:+
                    Server.sanitize (Path.basename (entryName sqliteEntry)) in
        if writable E ("uploads/" +:+ name) then
          outcome (body w)
          = Resolved (Some (Extracted.Make ("uploads/" +:+ name)
                              (Js.or_else (Path.basename_ext (entryName sqliteEntry)
                                             (Path.extname (entryName sqliteEntry)))
                                          "extracted_database"))) /\
          content <$> files (final (body w)) !! ("uploads/" +:+ name)
          = Some (data sqliteEntry)
        else exists e, outcome (body w) = Rejected e
    end).
  { subst body. cbv beta.
    erewrite bind_resolved by reflexivity.
    erewrite bind_resolved by reflexivity.
    destruct ((content <$> files w !! zipPath) ≫= zip_pick E) as [sqliteEntry|];
      [|reflexivity].
    cbv zeta.
    rewrite (join_uploads_plain _ (extracted_name_plain timestamp (entryName sqliteEntry))).
    set (name := "extracted_" +:+ pretty timestamp +:+ "_" +:+
                 Server.sanitize (Path.basename (entryName sqliteEntry))).
    destruct (writable E ("uploads/" +:+ name)) eqn:Hw.
    - rewrite (bind_resolved _ _ _ _ _ _ (writeFile_ok E _ _ _ Hw)).
      erewrite (bind_resolved (stat _)); cycle 1.
      { apply stat_present. cbn [files set_files]. apply lookup_insert_eq. }
      world_simpl. split; [reflexivity|].
      now rewrite lookup_insert_eq.
    - rewrite (bind_rejected _ _ _ _ _ _ (writeFile_denied E _ _ _ Hw)).
      world_simpl. eexists. reflexivity. }
  intros Hx.
  destruct ((content <$> files w !! zipPath) ≫= zip_pick E) as [sqliteEntry|].
  - cbv zeta in Hbody.
    set (name := "extracted_" +:+ pretty timestamp +:+ "_" +:+
                 Server.sanitize (Path.basename (entryName sqliteEntry))) in *.
    destruct (writable E ("uploads/" +:+ name)).
    + destruct Hbody as (Ho & Hc).
      revert Hx. unfold try_catch. cbv zeta. rewrite Ho. intros Hx.
      rewrite Ho in Hx. injection Hx as <-. cbn [Extracted.path].
      exists sqliteEntry. split; [reflexivity|]. split; [reflexivity|exact Hc].
    + destruct Hbody as (e & Ho).
      revert Hx. unfold try_catch. cbv zeta. rewrite Ho. unfold h, ret. cbn [outcome].
      discriminate.
  - revert Hx. unfold try_catch. cbv zeta. rewrite Hbody. intros Hx.
    rewrite Hbody in Hx. discriminate Hx.
Qed.

(** The extraction of an archive never rejects; when it yields a
    database, the file has been written directly into the uploads
    directory under a name that begins with [extracted_], whatever the
    name of the entry inside the archive (separators and dot segments
    included), and it holds the data of the entry. *)
Theorem extraction_lands_in_uploads (E : env) (zipPath sessionId : string) (timestamp : Z)
    (w : world) :
  let r := Server.extractSqliteFromZip E zipPath timestamp sessionId w in
  (forall e, outcome r <> Rejected e) /\
  (forall x, outcome r = Resolved (Some x) ->
   exists name sqliteEntry,
     (content <$> files w !! zipPath) ≫= zip_pick E = Some sqliteEntry /\
     Extracted.path x = "uploads/" +:+ name /\
     entryIn "uploads" (Extracted.path x) = Some name /\
     Js.startsWith name "extracted_" = true /\
     content <$> files (final r) !! Extracted.path x = Some (data sqliteEntry)).
Proof.
  cbv zeta. split.
  - intros e. unfold Server.extractSqliteFromZip.
    match goal with
    | |- outcome (try_catch ?m _ w) <> _ => apply (try_ret_never_rejects m (fun _ => None))
    end.
  - intros x Hx.
    destruct (extractSqliteFromZip_some E zipPath sessionId timestamp w x Hx)
      as (sqliteEntry & Hpick & -> & Hc).
    cbn [Extracted.path] in *.
    exists ("extracted_" +:+ pretty timestamp +:+ "_" +:+
            Server.sanitize (Path.basename (entryName sqliteEntry))), sqliteEntry.
    split; [exact Hpick|]. split; [reflexivity|].
    split; [apply entryIn_uploads_plain, extracted_name_plain|].
    split; [apply startsWith_append|exact Hc].
Qed.

(** ** The cleanup of old artefacts *)

Lemma cleaned_refl (limit : Z) (w : world) : cleaned limit w w.
Proof. intros p. now left. Qed.

(** One turn of the loop of the cleanup. *)
Lemma cleanup_turn (limit : Z) (file : string) (w : world) :
  let r := try_catch
             (bind (stat (Path.join "uploads" file))
                (fun stats =>
                   if (Server.isRecoveryArtifact file && (mtime stats <? limit))%bool
                   then unlink (Path.join "uploads" file)
                   else ret tt))
             (fun _ : string => ret tt) w in
  outcome r = Resolved tt /\ dirs (final r) = dirs w /\ now (final r) = now w /\
  match files w !! Path.join "uploads" file with
  | Some f =>
      if (Server.isRecoveryArtifact file && (mtime f <? limit))%bool
      then files (final r) = delete (Path.join "uploads" file) (files w)
      else files (final r) = files w
  | None => files (final r) = files w
  end.
Proof.
  cbv zeta. set (p := Path.join "uploads" file).
  destruct (files w !! p) as [f|] eqn:Hf.
  - rewrite (try_resolved _ _ w
               (if (Server.isRecoveryArtifact file && (mtime f <? limit))%bool
                then set_files (delete p) w else w)
               tt
               (FsStat p :: if (Server.isRecoveryArtifact file && (mtime f <? limit))%bool
                            then [FsUnlink p] else [])).
    + destruct (Server.isRecoveryArtifact file && (mtime f <? limit))%bool;
        repeat split.
    + rewrite (bind_resolved _ _ _ _ _ _ (stat_present _ _ _ Hf)).
      destruct (Server.isRecoveryArtifact file && (mtime f <? limit))%bool.
      * rewrite (unlink_present _ _ _ Hf). reflexivity.
      * reflexivity.
  - rewrite (try_rejected _ _ _ _ _ _
               (bind_rejected _ _ _ _ _ _ (stat_absent _ _ Hf))).
    repeat split.
Qed.

Lemma cleanup_loop (limit : Z) (w0 : world) (names : list string) :
  forall w,
    cleaned limit w0 w ->
    let r := Server.forEach names
               (fun file =>
                  try_catch
                    (bind (stat (Path.join "uploads" file))
                       (fun stats =>
                          if (Server.isRecoveryArtifact file && (mtime stats <? limit))%bool
                          then unlink (Path.join "uploads" file)
                          else ret tt))
                    (fun _ : string => ret tt)) w in
    outcome r = Resolved tt /\ cleaned limit w0 (final r) /\
    (forall p, files w !! p = None -> files (final r) !! p = None) /\
    (forall name f,
       In name names -> files w0 !! Path.join "uploads" name = Some f ->
       Server.isRecoveryArtifact name = true -> mtime f < limit ->
       files (final r) !! Path.join "uploads" name = None).
Proof.
  induction names as [|file rest IH]; intros w Hw; cbv zeta; cbn [Server.forEach].
  - repeat split; [exact Hw|auto|intros name f []].
  - destruct (cleanup_turn limit file w) as (Ho & _ & _ & Hfiles).
    set (turn := try_catch _ _ w) in *.
    rewrite bind_run. fold turn. rewrite Ho.
    assert (Hw1 : cleaned limit w0 (final turn)).
    { intros p. destruct (files w !! Path.join "uploads" file) as [f|] eqn:Hf;
        [|rewrite Hfiles; apply Hw].
      destruct (Server.isRecoveryArtifact file && (mtime f <? limit))%bool eqn:Hc;
        [|rewrite Hfiles; apply Hw].
      rewrite Hfiles. apply andb_true_iff in Hc. destruct Hc as [Ha Hm].
      apply Z.ltb_lt in Hm.
      destruct (decide (p = Path.join "uploads" file)) as [->|Hne].
      - right. rewrite lookup_delete_eq. split; [reflexivity|].
        destruct (Hw (Path.join "uploads" file)) as [Heq|[Hnone _]]; [|congruence].
        exists file, f. repeat split; try assumption. now rewrite <- Heq.
      - rewrite lookup_delete_ne by congruence. apply Hw. }
    assert (Hgone1 : forall p, files w !! p = None -> files (final turn) !! p = None).
    { intros p Hp. destruct (files w !! Path.join "uploads" file) as [f|];
        [|now rewrite Hfiles].
      destruct (Server.isRecoveryArtifact file && (mtime f <? limit))%bool;
        [|now rewrite Hfiles].
      rewrite Hfiles. destruct (decide (p = Path.join "uploads" file)) as [->|Hne].
      - apply lookup_delete_eq.
      - now rewrite lookup_delete_ne by congruence. }
    destruct (IH (final turn) Hw1) as (Ho' & Hc' & Hgone' & Hdone').
    cbv zeta in Ho', Hc', Hgone', Hdone'.
    unfold after. cbn [outcome final].
    split; [exact Ho'|]. split; [exact Hc'|]. split; [auto|].
    intros name f [<-|Hin] Hf Ha Hm; [|now apply (Hdone' name f)].
    apply Hgone'.
    destruct (Hw (Path.join "uploads" file)) as [Heq|[Hnone _]]; [|now apply Hgone1].
    rewrite Heq, Hf in Hfiles.
    assert (Hm' : (mtime f <? limit) = true) by now apply Z.ltb_lt.
    rewrite Ha, Hm' in Hfiles. cbn [andb] in Hfiles.
    rewrite Hfiles. apply lookup_delete_eq.
Qed.

Lemma cleanup_run (w : world) :
  let r := Server.cleanupOldRecoveryFiles w in
  let limit := now w - 5 * 60 * 1000 in
  outcome r = Resolved tt /\ cleaned limit w (final r) /\
  ("uploads" ∈ dirs w ->
   forall name f,
     In name (omap (fun e => entryIn "uploads" (fst e)) (map_to_list (files w))) ->
     files w !! Path.join "uploads" name = Some f ->
     Server.isRecoveryArtifact name = true -> mtime f < limit ->
     files (final r) !! Path.join "uploads" name = None).
Proof.
  cbv zeta. unfold Server.cleanupOldRecoveryFiles.
  destruct (decide ("uploads" ∈ dirs w)) as [Hd|Hd].
  - assert (Hread : readdir "uploads" w
                    = Run (Resolved (omap (fun e => entryIn "uploads" (fst e))
                                       (map_to_list (files w)))) w []).
    { unfold readdir. now destruct (decide ("uploads" ∈ dirs w)). }
    set (names := omap (fun e => entryIn "uploads" (fst e)) (map_to_list (files w))) in *.
    destruct (cleanup_loop (now w - 5 * 60 * 1000) w names w (cleaned_refl _ w))
      as (Ho & Hc & _ & Hdone).
    cbv zeta in Ho, Hc, Hdone.
    erewrite try_resolved.
    + split; [reflexivity|]. split; [exact Hc|]. intros _. exact Hdone.
    + rewrite (bind_resolved _ _ _ _ _ _ Hread).
      erewrite bind_resolved by reflexivity.
      cbv zeta. unfold after at 1 2. cbn [app].
      rewrite (run_eta (Server.forEach names _ w)) at 1. rewrite Ho.
      cbn [outcome final trace]. reflexivity.
  - assert (Hread : readdir "uploads" w
                    = Run (Rejected ("ENOENT: no such file or directory, scandir " +:+ "uploads"))
                          w []).
    { unfold readdir. now destruct (decide ("uploads" ∈ dirs w)). }
    rewrite (try_rejected _ _ _ _ _ _ (bind_rejected _ _ _ _ _ _ Hread)).
    split; [reflexivity|]. split; [apply cleaned_refl|]. intros H. contradiction.
Qed.

(** The cleanup never fails, and it only removes: every file is left
    as it was, except recovery artefacts of the uploads directory whose
    last modification is more than five minutes old, which are gone. *)
Theorem cleanup_removes_only_old_artefacts (w : world) :
  let r := Server.cleanupOldRecoveryFiles w in
  outcome r = Resolved tt /\
  forall p,
    files (final r) !! p = files w !! p \/
    (files (final r) !! p = None /\
     exists name f, p = Path.join "uploads" name /\ files w !! p = Some f /\
                    Server.isRecoveryArtifact name = true /\
                    mtime f < now w - 5 * 60 * 1000).
Proof.
  cbv zeta. destruct (cleanup_run w) as (Ho & Hc & _). split; [exact Ho|exact Hc].
Qed.

Lemma artefact_name_plain (name : string) :
  Server.isRecoveryArtifact name = true -> Js.includes name "/" = false -> plainName name.
Proof.
  intros Ha Hs. repeat split.
  - intros ->. discriminate Ha.
  - intros ->. discriminate Ha.
  - intros ->. discriminate Ha.
  - now apply includes_false_iff.
Qed.

(** After the cleanup no recovery artefact of the uploads directory is
    older than five minutes: each one that was is deleted. *)
Theorem cleanup_removes_every_old_artefact (w : world) (name : string) (f : file) :
  "uploads" ∈ dirs w ->
  Server.isRecoveryArtifact name = true ->
  Js.includes name "/" = false ->
  files w !! ("uploads/" +:+ name) = Some f ->
  mtime f < now w - 5 * 60 * 1000 ->
  files (final (Server.cleanupOldRecoveryFiles w)) !! ("uploads/" +:+ name) = None.
Proof.
  intros Hd Ha Hs Hf Hm.
  pose proof (artefact_name_plain _ Ha Hs) as Hp.
  destruct (cleanup_run w) as (_ & _ & Hdone). cbv zeta in Hdone.
  rewrite <- (join_uploads_plain _ Hp).
  apply (Hdone Hd name f); try assumption.
  - apply list_elem_of_In, list_elem_of_omap.
    exists ("uploads/" +:+ name, f). split.
    + now apply elem_of_map_to_list.
    + cbn [fst]. now apply entryIn_uploads_plain.
  - now rewrite (join_uploads_plain _ Hp).
Qed.

Lemma cleanup_removes_every_old_artefact_witness :
  let w := World {[ "uploads/recovery_1_shop.sql" := File "CREATE TABLE t(a);" 1000 ]}
                 {[ "uploads" ]} 1000000 0 in
  files (final (Server.cleanupOldRecoveryFiles w)) !! ("uploads/" +:+ "recovery_1_shop.sql")
  = None.
Proof.
  cbv zeta.
  apply (cleanup_removes_every_old_artefact _ "recovery_1_shop.sql"
           (File "CREATE TABLE t(a);" 1000)).
  - cbn [dirs]. apply elem_of_singleton_2. reflexivity.
  - reflexivity.
  - reflexivity.
  - reflexivity.
  - simpl. lia.
Defined.

(** ** The download of an artefact *)


(** ** From a recovery to the download of its artefacts *)














(** ** More on the watchdog of the streaming dump *)

Section WatchdogMore.

Import Watchdog.

(** Once the run is finished and a signal has been sent, nothing sends
    another one, the escalation timer included: it finds [killed] set. *)
Lemma finished_and_killed_is_silent (t : Z) (e : event) (s : state) :
  processComplete s = true -> signals s <> [] ->
  processComplete (step t e s) = true /\ signals (step t e s) = signals s.
Proof.
  intros Hc Hs.
  assert (He : e = KillEscalation \/ e <> KillEscalation)
    by (destruct e; (now left) || (right; discriminate)).
  destruct He as [->|He].
  - cbn [step]. unfold onKillEscalation, killed.
    destruct (signals s) as [|x l] eqn:Hsig; [contradiction|]. now split.
  - now apply step_keeps_finished.
Qed.

Lemma events_after_kill (events : list (Z * event)) :
  forall s, processComplete s = true -> signals s <> [] ->
            signals (fold_left (fun a te => step (fst te) (snd te) a) events s) = signals s.
Proof.
  induction events as [|[t e] l IH]; intros s Hc Hs; [reflexivity|].
  cbn [fold_left fst snd].
  destruct (finished_and_killed_is_silent t e s Hc Hs) as [Hc' Hs'].
  rewrite IH; [exact Hs'|exact Hc'|now rewrite Hs'].
Qed.

(** A child that the heartbeat ends for lack of progress gets SIGTERM
    and nothing else: whatever happens afterwards, the timer set to
    escalate after one second included, no SIGKILL follows. *)
Theorem stalled_child_gets_sigterm_only (t : Z) (s : state) (events : list (Z * event)) :
  signals (step t HeartbeatTick s) <> signals s ->
  signals (fold_left (fun a te => step (fst te) (snd te) a) events (step t HeartbeatTick s))
  = signals s ++ [(t, "SIGTERM")].
Proof.
  intros Hsent.
  assert (H : processComplete (step t HeartbeatTick s) = true /\
              signals (step t HeartbeatTick s) = signals s ++ [(t, "SIGTERM")]).
  { revert Hsent. cbn [step]. unfold onHeartbeatTick. cbv zeta. st_simpl.
    destruct (heartbeatArmed s); [|congruence]. st_simpl.
    destruct (processComplete s) eqn:Hc; st_simpl; [congruence|].
    destruct (MB <? bytesWritten s - bytesAtLastCheck s); st_simpl;
      match goal with
      | |- context [if ?b then _ else _] => destruct b; st_simpl
      end; unfold resolve; st_simpl;
      try congruence;
      match goal with
      | |- context [match resolved ?x with _ => _ end] => destruct (resolved x); st_simpl
      end; intros _; split; reflexivity. }
  destruct H as [Hc Hs]. rewrite events_after_kill; [exact Hs|exact Hc|].
  rewrite Hs. now destruct (signals s).
Qed.

Lemma stalled_child_gets_sigterm_only_witness :
  let s := step 100 (Data 5) (init 0) in
  signals (fold_left (fun a te => step (fst te) (snd te) a)
             [(131000, KillEscalation); (135000, WatchdogTick); (140000, KillEscalation)]
             (step 130000 HeartbeatTick s))
  = signals s ++ [(130000, "SIGTERM")].
Proof.
  cbv zeta. apply stalled_child_gets_sigterm_only. vm_compute. discriminate.
Defined.


(** What every callback keeps in a run started at [t0]: the start time,
    a byte count that is not negative, the watchdog armed as long as the
    run is not finished, and a promise that the 20 second timer has not
    settled. *)
Lemma step_keeps_base (t0 t : Z) (e : event) (s : state) :
  e <> ZeroOutputTimer ->
  (forall len, e = Data len -> 0 <= len) ->
  processStartTime s = t0 /\ 0 <= bytesWritten s /\
  (processComplete s = false -> watchdogArmed s = true) /\
  (forall t', resolved s <> Some (t', zeroOutputResult)) ->
  processStartTime (step t e s) = t0 /\ 0 <= bytesWritten (step t e s) /\
  (processComplete (step t e s) = false -> watchdogArmed (step t e s) = true) /\
  (forall t', resolved (step t e s) <> Some (t', zeroOutputResult)).
Proof.
  intros He Hlen (Hstart & Hb & Harm & Hres).
  destruct e; try congruence;
    try (specialize (Hlen _ eq_refl));
    unfold step, onData, onWatchdogTick, onHeartbeatTick, onKillEscalation, onClose,
      onError, resolve, killed; cbv zeta; st_simpl;
    repeat match goal with
           | |- context [if ?b then _ else _] =>
               match type of b with bool => destruct b eqn:?; st_simpl end
           | |- context [match writeError ?x with _ => _ end] =>
               destruct (writeError x) eqn:?; st_simpl
           | |- context [match signals ?x with _ => _ end] =>
               destruct (signals x) eqn:?; st_simpl
           | |- context [match resolved ?x with _ => _ end] =>
               destruct (resolved x) eqn:?; st_simpl
           end;
    repeat split; try assumption; try lia; try congruence;
    try (intros; discriminate);
    try (intros t' [= _ Hr]; discriminate Hr);
    try (intros Hx; specialize (Harm Hx); congruence);
    try (intros _; now apply Harm).
Qed.

Lemma step_keeps_started (t : Z) (e : event) (s : state) :
  e <> KillEscalation ->
  (forall len, e = Data len -> 0 <= len) ->
  0 <= bytesWritten s ->
  processComplete s = true \/ 0 < bytesWritten s ->
  processComplete (step t e s) = true \/ 0 < bytesWritten (step t e s).
Proof.
  intros He Hlen Hb [Hc|Hpos].
  - left. now apply step_keeps_finished.
  - destruct e; try congruence;
      try (specialize (Hlen _ eq_refl));
      unfold step, onData, onZeroOutputTimer, onWatchdogTick, onHeartbeatTick, onClose,
        onError, resolve; cbv zeta; st_simpl;
      repeat match goal with
             | |- context [if ?b then _ else _] =>
                 match type of b with bool => destruct b eqn:?; st_simpl end
             | |- context [match writeError ?x with _ => _ end] =>
                 destruct (writeError x) eqn:?; st_simpl
             | |- context [match resolved ?x with _ => _ end] =>
                 destruct (resolved x) eqn:?; st_simpl
             end;
      first [now left | right; lia].
Qed.

(** The 20 second timer changes nothing in a run that is finished or has
    written a byte. *)
Lemma zero_timer_idle (t : Z) (s : state) :
  processComplete s = true \/ 0 < bytesWritten s -> step t ZeroOutputTimer s = s.
Proof.
  intros H. cbn [step]. unfold onZeroOutputTimer.
  destruct H as [->|H]; [now rewrite andb_false_r|].
  destruct (Z.eqb_spec (bytesWritten s) 0); [lia|reflexivity].
Qed.

(** The watchdog tick of the 15th second leaves a run finished or with a
    byte written. *)
Lemma watchdog_at_15s (t0 : Z) (s : state) :
  processStartTime s = t0 -> 0 <= bytesWritten s ->
  (processComplete s = false -> watchdogArmed s = true) ->
  let s' := step (t0 + 5000 * Z.of_nat 3) WatchdogTick s in
  processComplete s' = true \/ 0 < bytesWritten s'.
Proof.
  intros Hstart Hb Harm. cbv zeta. cbn [step].
  destruct (processComplete s) eqn:Hc.
  - left. destruct (watchdogArmed s); [|exact Hc]. unfold onWatchdogTick. now rewrite Hc.
  - rewrite (Harm eq_refl). unfold onWatchdogTick. rewrite Hc, Hstart. cbv zeta.
    rewrite round_tick.
    destruct (Z.eqb_spec (bytesWritten s) 0) as [H0|H0].
    + cbn. left. unfold resolve. st_simpl. destruct (resolved s); reflexivity.
    + cbn [andb].
      match goal with
      | |- context [if ?b then _ else _] => destruct b
      end.
      * left. unfold resolve. st_simpl. destruct (resolved s); reflexivity.
      * right. lia.
Qed.


Lemma fold_steps_keep (t0 : Z) (events : list (Z * event)) :
  Forall (fun te => snd te <> ZeroOutputTimer /\ snd te <> KillEscalation /\
                    forall len, snd te = Data len -> 0 <= len) events ->
  forall s,
    processStartTime s = t0 /\ 0 <= bytesWritten s /\
    (processComplete s = false -> watchdogArmed s = true) /\
    (forall t', resolved s <> Some (t', zeroOutputResult)) ->
    let s' := fold_left (fun a te => step (fst te) (snd te) a) events s in
    (processStartTime s' = t0 /\ 0 <= bytesWritten s' /\
     (processComplete s' = false -> watchdogArmed s' = true) /\
     (forall t', resolved s' <> Some (t', zeroOutputResult))) /\
    (processComplete s = true \/ 0 < bytesWritten s ->
     processComplete s' = true \/ 0 < bytesWritten s').
Proof.
  induction 1 as [|[t e] l (Hz & Hk & Hlen) _ IH]; intros s Hbase; cbv zeta.
  - cbn [fold_left]. now split.
  - cbn [fold_left fst snd] in *.
    pose proof (step_keeps_base t0 t e s Hz Hlen Hbase) as Hbase'.
    destruct (IH _ Hbase') as [Hb Hs]. split; [exact Hb|].
    intros Hst. apply Hs.
    apply step_keeps_started; try assumption. apply Hbase.
Qed.

Lemma fold_left_map {A B C} (f : A -> B -> A) (g : C -> B) (l : list C) (a : A) :
  fold_left f (map g l) a = fold_left (fun x c => f x (g c)) l a.
Proof. revert a. induction l as [|c l IH]; intros a; [reflexivity|]. cbn. apply IH. Qed.

(** One tick of the schedule keeps the invariant of the run; from the
    third tick on the run is finished or has written a byte. *)
Lemma tick_keeps (t0 : Z) (c : child) (k : nat) (s : state) :
  Forall (fun d => 0 <= snd d) (output c) ->
  (1 <= k)%nat ->
  processStartTime s = t0 /\ 0 <= bytesWritten s /\
  (processComplete s = false -> watchdogArmed s = true) /\
  (forall t', resolved s <> Some (t', zeroOutputResult)) ->
  ((4 <= k)%nat -> processComplete s = true \/ 0 < bytesWritten s) ->
  let s' := tick t0 c s k in
  (processStartTime s' = t0 /\ 0 <= bytesWritten s' /\
   (processComplete s' = false -> watchdogArmed s' = true) /\
   (forall t', resolved s' <> Some (t', zeroOutputResult))) /\
  ((3 <= k)%nat -> processComplete s' = true \/ 0 < bytesWritten s').
Proof.
  intros Hout Hk Hbase Hstarted. cbv zeta. unfold tick.
  (* what the child does in the window *)
  assert (Hdel : let d := deliver t0 c k s in
            (processStartTime d = t0 /\ 0 <= bytesWritten d /\
             (processComplete d = false -> watchdogArmed d = true) /\
             (forall t', resolved d <> Some (t', zeroOutputResult))) /\
            (processComplete s = true \/ 0 < bytesWritten s ->
             processComplete d = true \/ 0 < bytesWritten d)).
  { cbv zeta. unfold deliver. cbv zeta.
    set (chunks := List.filter (fun d => inWindow k (fst d)) (output c)).
    assert (Hchunks : Forall (fun d => 0 <= snd d) chunks).
    { apply List.Forall_forall. intros d Hd. apply filter_In in Hd.
      rewrite List.Forall_forall in Hout. now apply Hout. }
    assert (Hev : Forall (fun te => snd te <> ZeroOutputTimer /\ snd te <> KillEscalation /\
                                    forall len, snd te = Data len -> 0 <= len)
                    (map (fun d => (t0 + fst d, Data (snd d))) chunks)).
    { apply List.Forall_forall. intros te Hte. apply in_map_iff in Hte.
      destruct Hte as (d & <- & Hd). cbn [snd].
      repeat split; try discriminate. intros len [= <-].
      rewrite List.Forall_forall in Hchunks. now apply Hchunks. }
    destruct (fold_steps_keep t0 _ Hev s Hbase) as [Hb1 Hs1]. cbv zeta in Hb1, Hs1.
    rewrite fold_left_map in Hb1, Hs1. cbn [fst snd] in Hb1, Hs1.
    set (s1 := fold_left _ chunks s) in *.
    destruct (exit c) as [[offset code]|]; [|split; [exact Hb1|exact Hs1]].
    destruct (inWindow k offset && negb (killed s1))%bool; [|split; [exact Hb1|exact Hs1]].
    split.
    - apply step_keeps_base; [discriminate|discriminate|exact Hb1].
    - intros Hst. apply step_keeps_started; [discriminate|discriminate|apply Hb1|].
      now apply Hs1. }
  cbv zeta in Hdel. destruct Hdel as [Hb Hs].
  set (d := deliver t0 c k s) in *.
  set (t := t0 + 5000 * Z.of_nat k).
  assert (Hk4 : k = 3%nat \/ k = 4%nat \/ (k <> 3%nat /\ k <> 4%nat)) by lia.
  destruct Hk4 as [->|[->|[H3 H4]]].
  - (* the tick of the 15th second: the watchdog *)
    change (timersAt 3) with [WatchdogTick]. cbn [fold_left].
    split; [apply step_keeps_base; [discriminate|discriminate|exact Hb]|].
    intros _. subst t. apply watchdog_at_15s; apply Hb.
  - (* the tick of the 20th second: the one-shot timer, then the heartbeat *)
    change (timersAt 4) with [ZeroOutputTimer; HeartbeatTick]. cbn [fold_left].
    assert (Hst : processComplete d = true \/ 0 < bytesWritten d)
      by (apply Hs, Hstarted; lia).
    rewrite (zero_timer_idle t d Hst).
    split; [apply step_keeps_base; [discriminate|discriminate|exact Hb]|].
    intros _. apply step_keeps_started; [discriminate|discriminate|apply Hb|exact Hst].
  - assert (Hev : Forall (fun te => snd te <> ZeroOutputTimer /\ snd te <> KillEscalation /\
                                    forall len, snd te = Data len -> 0 <= len)
                    (map (fun e => (t, e)) (timersAt k))).
    { unfold timersAt. destruct (Nat.eqb_spec k 4) as [?|_]; [contradiction|].
      cbn [app]. destruct (Nat.eqb (k mod 3) 0), (Nat.eqb (k mod 2) 0); cbn [app map];
        repeat constructor; cbn [snd]; discriminate. }
    destruct (fold_steps_keep t0 _ Hev d Hb) as [Hb2 Hs2]. cbv zeta in Hb2, Hs2.
    rewrite fold_left_map in Hb2, Hs2. cbn [fst snd] in Hb2, Hs2.
    split; [exact Hb2|]. intros Hk3. apply Hs2, Hs, Hstarted. lia.
Qed.

Lemma run_keeps (t0 : Z) (c : child) (n : nat) :
  Forall (fun d => 0 <= snd d) (output c) ->
  let s := runFor t0 c n in
  (processStartTime s = t0 /\ 0 <= bytesWritten s /\
   (processComplete s = false -> watchdogArmed s = true) /\
   (forall t', resolved s <> Some (t', zeroOutputResult))) /\
  ((3 <= n)%nat -> processComplete s = true \/ 0 < bytesWritten s).
Proof.
  intros Hout. cbv zeta. induction n as [|n IH].
  - split; [|intros H; inversion H].
    unfold runFor. cbn [seq fold_left init]. st_simpl.
    repeat split; try reflexivity; try lia. intros t'. discriminate.
  - rewrite runFor_succ. destruct IH as [Hb Hs].
    apply tick_keeps; [exact Hout|lia|exact Hb|]. intros H. apply Hs. lia.
Qed.

(** On the schedule of the timers, the one-shot timer of the 20th
    second never settles a run: the watchdog tick of the 15th second has
    already ended every run that has written nothing, so the outcome
    "too corrupted for full dump - switching to table recovery" is never
    the result. *)
Theorem zero_output_timer_never_settles (t0 : Z) (c : child) (n : nat) (t : Z) :
  Forall (fun d => 0 <= snd d) (output c) ->
  resolved (runFor t0 c n) <> Some (t, zeroOutputResult) /\
  step (t0 + 20000) ZeroOutputTimer (deliver t0 c 4 (runFor t0 c 3))
  = deliver t0 c 4 (runFor t0 c 3).
Proof.
  intros Hout. split.
  - apply (run_keeps t0 c n Hout).
  - apply zero_timer_idle.
    destruct (run_keeps t0 c 3 Hout) as [Hb Hs].
    pose proof (Hs (le_n 3)) as Hst.
    unfold deliver. cbv zeta.
    set (chunks := List.filter (fun d => inWindow 4 (fst d)) (output c)).
    assert (Hev : Forall (fun te => snd te <> ZeroOutputTimer /\ snd te <> KillEscalation /\
                                    forall len, snd te = Data len -> 0 <= len)
                    (map (fun d => (t0 + fst d, Data (snd d))) chunks)).
    { apply List.Forall_forall. intros te Hte. apply in_map_iff in Hte.
      destruct Hte as (d & <- & Hd). cbn [snd].
      repeat split; try discriminate. intros len [= <-].
      apply filter_In in Hd. rewrite List.Forall_forall in Hout. now apply Hout. }
    destruct (fold_steps_keep t0 _ Hev _ Hb) as [Hb1 Hs1]. cbv zeta in Hb1, Hs1.
    rewrite fold_left_map in Hb1, Hs1. cbn [fst snd] in Hb1, Hs1.
    set (s1 := fold_left _ chunks (runFor t0 c 3)) in *.
    destruct (exit c) as [[offset code]|]; [|auto].
    destruct (inWindow 4 offset && negb (killed s1))%bool; [|auto].
    apply step_keeps_started; [discriminate|discriminate|apply Hb1|auto].
Qed.

Lemma zero_output_timer_never_settles_witness :
  resolved (runFor 0 (Child [(17000, 4096)] None) 8) <> Some (20000, zeroOutputResult) /\
  step (0 + 20000) ZeroOutputTimer (deliver 0 (Child [(17000, 4096)] None) 4
                                      (runFor 0 (Child [(17000, 4096)] None) 3))
  = deliver 0 (Child [(17000, 4096)] None) 4 (runFor 0 (Child [(17000, 4096)] None) 3).
Proof.
  apply zero_output_timer_never_settles. repeat constructor. simpl. lia.
Defined.

End WatchdogMore.

(** ** What the strategies leave behind *)

(** The whole run of [queryDatabase]: one child, no file touched. *)
Lemma queryDatabase_run (E : env) (dbPath query : string) (w : world) :
  exists w',
    Server.queryDatabase E dbPath query w
    = Run (match proc E (spawned w) "sqlite3" [dbPath; "-json"; query] with
           | Exits _ code output _ =>
               Resolved (if ((code =? 0) && Js.truthy output)%bool then JSON_parse E output
                         else None)
           | SpawnFails _ => Resolved None
           | Hangs => Pending
           end) w' [Spawn (spawned w) "sqlite3" [dbPath; "-json"; query]] /\
    files w' = files w /\ dirs w' = dirs w /\ spawned w' = S (spawned w).
Proof.
  unfold Server.queryDatabase.
  rewrite (bind_resolved _ _ _ _ _ _ (spawn_run _ _ _ _)). cbn [snd].
  rewrite bind_run, awaitChild_run.
  destruct (proc E (spawned w) "sqlite3" [dbPath; "-json"; query]) as [d code out err|m|];
    cbn [outcome final trace].
  - destruct ((code =? 0) && Js.truthy out)%bool; eexists; (split; [reflexivity|]);
      repeat split.
  - eexists. split; [reflexivity|]. repeat split.
  - eexists. split; [reflexivity|]. repeat split.
Qed.

Lemma tableResults_length (E : env) (inputPath : string) (rows : list row) :
  forall pid, length (tableResults E pid inputPath rows) = length rows.
Proof. induction rows as [|r rows IH]; intros pid; cbn; [reflexivity|]. now rewrite IH. Qed.

(** Every table is counted once, as recovered or as failed. *)
Lemma counts_add_up (rows : list row) :
  forall results,
    length results = length rows ->
    recoveredCount results + Z.of_nat (length (failedNames rows results))
    = Z.of_nat (length rows).
Proof.
  induction rows as [|r rows IH]; intros [|res results] Hlen; try discriminate Hlen.
  - reflexivity.
  - injection Hlen as Hlen. specialize (IH _ Hlen).
    rewrite recoveredCount_cons. cbn [failedNames].
    destruct (success res); cbn [length]; lia.
Qed.

Lemma recoveredCount_nonneg (results : list result) : 0 <= recoveredCount results.
Proof. unfold recoveredCount. lia. Qed.

(** The outcomes of table-by-table recovery, by what the enumeration of
    the tables answers and whether the output can be written. *)
Lemma tryTableByTableRecovery_cases (E : env) (inputPath outputPath sessionId : string)
    (w : world) :
  let r := Server.tryTableByTableRecovery E inputPath outputPath sessionId w in
  let query := [inputPath; "-json"; Server.tablesQuery] in
  match outcome (Server.queryDatabase E inputPath Server.tablesQuery w) with
  | Resolved (Some (row :: rows)) =>
      if writable E outputPath then
        let results := tableResults E (S (spawned w)) inputPath (row :: rows) in
        let n := recoveredCount results in
        let failedTables := failedNames (row :: rows) results in
        outcome r
        = Resolved (if 0 <? n
                    then Result true None None (Some n)
                           (Some (Z.of_nat (length failedTables))) false false
                    else failed "All tables failed to recover") /\
        is_Some (files (final r) !! outputPath) /\
        spawnsOf (trace r)
        = query :: map (fun t => [inputPath; Server.dumpTableCommand (name t)]) (row :: rows)
      else
        outcome r = Resolved (failed ("EACCES: permission denied, open " +:+ outputPath)) /\
        files (final r) = files w /\ spawnsOf (trace r) = [query]
  | Resolved _ =>
      outcome r = Resolved (failed "No tables found") /\
      files (final r) = files w /\ spawnsOf (trace r) = [query]
  | Rejected e => False
  | Pending => outcome r = Pending /\ files (final r) = files w /\ spawnsOf (trace r) = [query]
  end.
Proof.
  cbv zeta. unfold Server.tryTableByTableRecovery.
  destruct (queryDatabase_run E inputPath Server.tablesQuery w) as (w1 & Hq & Hf1 & Hd1 & Hs1).
  rewrite Hq. cbn [outcome].
  set (o := match proc E (spawned w) "sqlite3" [inputPath; "-json"; Server.tablesQuery] with
            | Exits _ code output _ =>
                Resolved (if ((code =? 0) && Js.truthy output)%bool
                          then JSON_parse E output else None)
            | SpawnFails _ => Resolved None
            | Hangs => Pending
            end) in *.
  assert (Ho : forall x, o <> Rejected x).
  { intros x. subst o. destruct (proc E _ _ _); discriminate. }
  set (q := Spawn (spawned w) "sqlite3" [inputPath; "-json"; Server.tablesQuery]) in *.
  destruct o as [[[|row rows]|]|e|] eqn:Heq.
  - rewrite (try_resolved _ _ w w1 (failed "No tables found") [q]).
    + repeat split. exact Hf1.
    + rewrite (bind_resolved _ _ _ _ _ _ Hq). reflexivity.
  - destruct (writable E outputPath) eqn:Hw.
    + pose proof (writeFile_ok E outputPath Server.tableHeader w1 Hw) as Hwrite.
      set (w2 := set_files (insert outputPath (File Server.tableHeader (now w1))) w1) in *.
      assert (Hf2 : files w2 !! outputPath = Some (File Server.tableHeader (now w1))).
      { subst w2. cbn [files set_files]. apply lookup_insert_eq. }
      destruct (recoverTables_run E inputPath outputPath sessionId
                  (Z.of_nat (length (row :: rows))) (row :: rows) Hw 0 0 [] w2 _ Hf2)
        as (w3 & t3 & Hloop & Hs3 & Hc3 & Ht3).
      assert (Hsp2 : spawned w2 = S (spawned w)) by (subst w2; exact Hs1).
      rewrite Hsp2 in Hloop, Hc3.
      set (results := tableResults E (S (spawned w)) inputPath (row :: rows)) in *.
      cbn [app] in Hloop. rewrite Z.add_0_l in Hloop.
      pose proof (appendFile_ok E outputPath
                    (Server.tableFooter (recoveredCount results)
                       (Z.of_nat (length (row :: rows)))
                       (failedNames (row :: rows) results)) w3 Hw) as Happ.
      set (w4 := set_files _ w3) in Happ.
      rewrite (try_resolved _ _ w w4
                 (if 0 <? recoveredCount results
                  then Result true None None (Some (recoveredCount results))
                         (Some (Z.of_nat (length (failedNames (row :: rows) results))))
                         false false
                  else failed "All tables failed to recover")
                 ([q] ++ [FsWrite outputPath] ++ t3 ++ [FsAppend outputPath])).
      * cbn [outcome final trace]. split; [reflexivity|]. split.
        -- subst w4. cbn [files set_files]. rewrite lookup_insert_eq. now eexists.
        -- rewrite !spawnsOf_app, Ht3.
           change (spawnsOf [q]) with [[inputPath; "-json"; Server.tablesQuery]].
           change (spawnsOf [FsWrite outputPath]) with (@nil (list string)).
           change (spawnsOf [FsAppend outputPath]) with (@nil (list string)).
           cbn [app]. now rewrite app_nil_r.
      * rewrite (bind_resolved _ _ _ _ _ _ Hq).
        cbv zeta.
        rewrite (bind_resolved _ _ _ _ _ _ Hwrite).
        rewrite (bind_resolved _ _ _ _ _ _ Hloop). cbn [fst snd].
        rewrite (bind_resolved _ _ _ _ _ _ Happ).
        rewrite !after_after.
        destruct (0 <? recoveredCount results); unfold ret; rewrite after_Run;
          now rewrite app_nil_r, <- !app_assoc.
    + pose proof (writeFile_denied E outputPath Server.tableHeader w1 Hw) as Hwrite.
      rewrite (try_rejected _ _ w w1 ("EACCES: permission denied, open " +:+ outputPath)
                 ([q] ++ [FsWrite outputPath])).
      * cbn [outcome final trace after ret]. repeat split. exact Hf1.
      * rewrite (bind_resolved _ _ _ _ _ _ Hq). cbv zeta.
        rewrite (bind_rejected _ _ _ _ _ _ Hwrite). reflexivity.
  - rewrite (try_resolved _ _ w w1 (failed "No tables found") [q]).
    + repeat split. exact Hf1.
    + rewrite (bind_resolved _ _ _ _ _ _ Hq). reflexivity.
  - now apply (Ho e).
  - rewrite (try_pending _ _ w w1 [q]).
    + repeat split. exact Hf1.
    + now rewrite (bind_pending _ _ _ _ _ Hq).
Qed.

(** Table-by-table recovery never rejects. When it reports success, at
    least one table was recovered, every table that the enumeration
    listed is counted once, as recovered or as failed, and the output file
    exists; when it reports failure, the result carries a message. *)
Theorem table_recovery_counts_every_table (E : env) (inputPath outputPath sessionId : string)
    (w : world) :
  let r := Server.tryTableByTableRecovery E inputPath outputPath sessionId w in
  let listed := outcome (Server.queryDatabase E inputPath Server.tablesQuery w) in
  (forall e, outcome r <> Rejected e) /\
  (forall res, outcome r = Resolved res -> success res = true ->
   exists rows n f,
     listed = Resolved (Some rows) /\
     tablesRecovered res = Some n /\ tablesFailed res = Some f /\
     0 < n /\ 0 <= f /\ n + f = Z.of_nat (length rows) /\
     is_Some (files (final r) !! outputPath)) /\
  (forall res, outcome r = Resolved res -> success res = false ->
   exists message, error res = Some message).
Proof.
  cbv zeta.
  pose proof (tryTableByTableRecovery_cases E inputPath outputPath sessionId w) as H.
  cbv zeta in H.
  destruct (outcome (Server.queryDatabase E inputPath Server.tablesQuery w))
    as [[[|row rows]|]|e|]; try contradiction.
  - destruct H as (Ho & _). rewrite Ho. split; [discriminate|].
    split; intros res [= <-]; [discriminate|]. intros _. now eexists.
  - destruct (writable E outputPath).
    + destruct H as (Ho & Hfile & _). rewrite Ho.
      set (results := tableResults E (S (spawned w)) inputPath (row :: rows)) in *.
      pose proof (counts_add_up (row :: rows) results
                    (tableResults_length E inputPath (row :: rows) _)) as Hsum.
      split; [discriminate|].
      destruct (Z.ltb_spec 0 (recoveredCount results)) as [Hpos|Hzero].
      * split; intros res [= <-]; [|discriminate]. intros _.
        exists (row :: rows), (recoveredCount results),
               (Z.of_nat (length (failedNames (row :: rows) results))).
        repeat split; try assumption; try reflexivity; lia.
      * split; intros res [= <-]; [discriminate|]. intros _. now eexists.
    + destruct H as (Ho & _). rewrite Ho. split; [discriminate|].
      split; intros res [= <-]; [discriminate|]. intros _. now eexists.
  - destruct H as (Ho & _). rewrite Ho. split; [discriminate|].
    split; intros res [= <-]; [discriminate|]. intros _. now eexists.
  - destruct H as (Ho & _). rewrite Ho. split; [discriminate|].
    split; intros res [=].
Qed.


(** A write under a [catch] that turns the error into a failure result:
    it resolves, and with success only when the file has been written. *)
Lemma guarded_write_run (E : env) (p c : string) (f : string -> string) (w : world) :
  let r := try_catch (bind (writeFile E p c) (fun _ : unit => ret succeeded))
                     (fun message : string => ret (failed (f message))) w in
  (exists res, outcome r = Resolved res /\
               (success res = true -> is_Some (files (final r) !! p))).
Proof.
  cbv zeta. destruct (writable E p) eqn:Hw.
  - rewrite (try_resolved _ _ w (set_files (insert p (File c (now w))) w) succeeded
               [FsWrite p]).
    + eexists. split; [reflexivity|]. intros _. cbn [final files set_files].
      rewrite lookup_insert_eq. now eexists.
    + rewrite (bind_resolved _ _ _ _ _ _ (writeFile_ok E _ _ _ Hw)). reflexivity.
  - rewrite (try_rejected _ _ w w ("EACCES: permission denied, open " +:+ p) [FsWrite p]).
    + eexists. split; [reflexivity|]. discriminate.
    + now rewrite (bind_rejected _ _ _ _ _ _ (writeFile_denied E _ _ _ Hw)).
Qed.

Lemma trySchemaExtraction_file (E : env) (inputPath outputPath : string) (w : world) :
  let r := Server.trySchemaExtraction E inputPath outputPath w in
  (forall e, outcome r <> Rejected e) /\
  (forall res, outcome r = Resolved res -> success res = true ->
               is_Some (files (final r) !! outputPath)).
Proof.
  cbv zeta. unfold Server.trySchemaExtraction.
  rewrite (bind_resolved _ _ _ _ _ _ (spawn_run _ _ _ _)). cbn [snd].
  rewrite bind_run, awaitChild_run.
  destruct (proc E (spawned w) "sqlite3" [inputPath; ".schema"]) as [d code out err|m|];
    cbn [outcome final trace].
  - destruct ((code =? 0) && (0 <? Js.slen out))%bool.
    + cbv zeta.
      match goal with
      | |- context [try_catch (bind (writeFile E ?p ?c) _) _ ?w0] =>
          destruct (guarded_write_run E p c (fun m => m) w0) as (res & Ho & Hf)
      end.
      cbv zeta in Ho, Hf. unfold after. cbn [outcome final].
      rewrite Ho. split; [discriminate|]. intros res' [= <-]. exact Hf.
    + unfold after, try_catch, ret. cbn [outcome final].
      split; [discriminate|]. intros res [= <-]. discriminate.
  - unfold after, ret. cbn [outcome final].
    split; [discriminate|]. intros res [= <-]. discriminate.
  - unfold after. cbn [outcome final]. split; [discriminate|]. discriminate.
Qed.

Lemma tryBasicExtraction_file (E : env) (inputPath outputPath : string) (w : world) :
  let r := Server.tryBasicExtraction E inputPath outputPath w in
  (forall e, outcome r <> Rejected e) /\
  (forall res, outcome r = Resolved res -> success res = true ->
               is_Some (files (final r) !! outputPath)).
Proof.
  cbv zeta. unfold Server.tryBasicExtraction.
  rewrite (bind_resolved _ _ _ _ _ _ (spawn_run _ _ _ _)). cbn [snd].
  rewrite bind_run, awaitChild_run.
  destruct (proc E (spawned w) "sqlite3" [inputPath; ".tables"]) as [d code out err|m|];
    cbn [outcome final trace].
  - cbv zeta.
    match goal with
    | |- context [try_catch (bind (writeFile E ?p ?c) _) _ ?w0] =>
        destruct (guarded_write_run E p c (fun m => m) w0) as (res & Ho & Hf)
    end.
    cbv zeta in Ho, Hf. unfold after. cbn [outcome final].
    rewrite Ho. split; [discriminate|]. intros res' [= <-]. exact Hf.
  - unfold after, ret. cbn [outcome final].
    split; [discriminate|]. intros res [= <-]. discriminate.
  - unfold after. cbn [outcome final]. split; [discriminate|]. discriminate.
Qed.

Lemma tryTableByTableRecovery_file (E : env) (inputPath outputPath sessionId : string)
    (w : world) :
  let r := Server.tryTableByTableRecovery E inputPath outputPath sessionId w in
  (forall e, outcome r <> Rejected e) /\
  (forall res, outcome r = Resolved res -> success res = true ->
               is_Some (files (final r) !! outputPath)).
Proof.
  cbv zeta.
  pose proof (tryTableByTableRecovery_cases E inputPath outputPath sessionId w) as H.
  cbv zeta in H.
  destruct (outcome (Server.queryDatabase E inputPath Server.tablesQuery w))
    as [[[|row rows]|]|e|]; try contradiction.
  - destruct H as (Ho & _). rewrite Ho. split; [discriminate|]. intros res [= <-]. discriminate.
  - destruct (writable E outputPath).
    + destruct H as (Ho & Hfile & _). rewrite Ho. split; [discriminate|].
      intros res _ _. exact Hfile.
    + destruct H as (Ho & _). rewrite Ho. split; [discriminate|].
      intros res [= <-]. discriminate.
  - destruct H as (Ho & _). rewrite Ho. split; [discriminate|]. intros res [= <-]. discriminate.
  - destruct H as (Ho & _). rewrite Ho. split; discriminate.
Qed.

Lemma tryAlternativeRecovery_file (E : env) (inputPath outputPath sessionId : string)
    (w : world) :
  let r := Server.tryAlternativeRecovery E inputPath outputPath sessionId w in
  (forall e, outcome r <> Rejected e) /\
  (forall res, outcome r = Resolved res -> success res = true ->
               is_Some (files (final r) !! outputPath)).
Proof.
  cbv zeta.
  pose proof (alternative_chain_steps E inputPath outputPath sessionId w) as H.
  cbv zeta in H.
  destruct (tryTableByTableRecovery_file E inputPath outputPath sessionId w) as [Ht1 Ht2].
  cbv zeta in Ht1, Ht2.
  set (t := Server.tryTableByTableRecovery E inputPath outputPath sessionId w) in *.
  destruct (outcome t) as [res1|e|] eqn:Hot; [|now destruct (Ht1 e)|].
  - destruct (success res1) eqn:Hs1.
    + rewrite H. cbn [outcome final]. split; [discriminate|].
      intros res [= <-] _. now apply (Ht2 res1).
    + destruct (trySchemaExtraction_file E inputPath outputPath (final t)) as [Hs Hs'].
      cbv zeta in Hs, Hs'.
      set (s := Server.trySchemaExtraction E inputPath outputPath (final t)) in *.
      destruct (outcome s) as [res2|e|] eqn:Hos; [|now destruct (Hs e)|].
      * destruct (success res2) eqn:Hs2.
        -- rewrite H. cbn [outcome final]. split; [discriminate|].
           intros res [= <-] _. now apply (Hs' res2).
        -- rewrite H. cbn [outcome final].
           apply tryBasicExtraction_file.
      * rewrite H. cbn [outcome final]. split; discriminate.
  - rewrite H. cbn [outcome final]. split; discriminate.
Qed.

Lemma try_of_never_rejecting {A} (m : M A) (h : string -> M A) (w : world) :
  (forall e, outcome (m w) <> Rejected e) -> try_catch m h w = m w.
Proof.
  intros H. unfold try_catch. cbv zeta.
  destruct (outcome (m w)) as [a|e|] eqn:Ho; [reflexivity| |reflexivity].
  now destruct (H e).
Qed.

(** The probe never rejects. *)
Lemma checkSqliteVersion_never_rejects (E : env) (w : world) (e : string) :
  outcome (Server.checkSqliteVersion E w) <> Rejected e.
Proof.
  unfold Server.checkSqliteVersion.
  rewrite (bind_resolved _ _ _ _ _ _ (spawn_run _ _ _ _)). cbn [snd].
  rewrite bind_run, awaitChild_run.
  destruct (proc E (spawned w) "sqlite3" ["--version"]) as [d code out err|m|];
    cbn [outcome final trace]; unfold after; cbn [outcome]; try discriminate.
  destruct ((code =? 0) && Js.truthy out)%bool; [|discriminate].
  rewrite outcome_bind. unfold Server.testRecoverCommand.
  rewrite (bind_resolved _ _ _ _ _ _ (spawn_run _ _ _ _)). cbn [snd].
  rewrite bind_run, awaitChild_run.
  destruct (proc E _ "sqlite3" [":memory:"; ".help"]) as [d' code' out' err'|m'|];
    cbn [outcome final trace]; unfold after; cbn [outcome]; discriminate.
Qed.

(** The primary strategy and what follows it, once the probe has found
    [.recover]. *)
Lemma primary_step_file (E : env) (w1 : world)
    (inputPath recoverCommand outputPath sessionId : string) :
  let r :=
    bind (spawn E "sqlite3" [inputPath; recoverCommand])
      (fun child =>
         bind (awaitChild (snd child))
           (fun ev =>
              match ev with
              | Closed code output _ =>
                  try_catch
                    (if ((code =? 0) && (0 <? Js.slen output))%bool then
                       bind (writeFile E outputPath output) (fun _ => ret succeeded)
                     else if ((code =? 0) && (Js.slen output =? 0))%bool then
                       bind (writeFile E outputPath ("-- No recoverable data found" +:+ nl))
                         (fun _ => ret succeeded)
                     else Server.tryAlternativeRecovery E inputPath outputPath sessionId)
                    (fun message =>
                       ret (failed ("Failed to write recovery file: " +:+ message)))
              | Errored message =>
                  ret (failed ("Failed to execute sqlite3: " +:+ message +:+
                               ". Make sure sqlite3 is installed and in PATH."))
              end)) w1 in
  (forall e, outcome r <> Rejected e) /\
  (forall res, outcome r = Resolved res -> success res = true ->
               is_Some (files (final r) !! outputPath)).
Proof.
  cbv zeta.
  rewrite (bind_resolved _ _ _ _ _ _ (spawn_run _ _ _ _)). cbn [snd].
  rewrite bind_run, awaitChild_run.
  destruct (proc E (spawned w1) "sqlite3" [inputPath; recoverCommand])
    as [d code out err|m|]; cbn [outcome final trace].
  - unfold after. cbn [outcome final]. world_simpl.
    set (w2 := World (files w1) (dirs w1) (now w1 + d) (S (spawned w1))).
    destruct ((code =? 0) && (0 <? Js.slen out))%bool.
    { destruct (guarded_write_run E outputPath out
                  (fun m => "Failed to write recovery file: " +:+ m) w2)
        as (res & Ho & Hf).
      cbv zeta in Ho, Hf. rewrite Ho. split; [discriminate|]. intros res' [= <-]. exact Hf. }
    destruct ((code =? 0) && (Js.slen out =? 0))%bool.
    { destruct (guarded_write_run E outputPath ("-- No recoverable data found" +:+ nl)
                  (fun m => "Failed to write recovery file: " +:+ m) w2)
        as (res & Ho & Hf).
      cbv zeta in Ho, Hf. rewrite Ho. split; [discriminate|]. intros res' [= <-]. exact Hf. }
    pose proof (tryAlternativeRecovery_file E inputPath outputPath sessionId w2) as Ha.
    cbv zeta in Ha. rewrite (try_of_never_rejecting _ _ _ (proj1 Ha)). exact Ha.
  - unfold after, ret. cbn [outcome final]. split; [discriminate|].
    intros res [= <-]. discriminate.
  - unfold after. cbn [outcome final]. split; discriminate.
Qed.

(** A recovery never rejects, and when it reports success the script
    is there: the output file exists in the world it leaves, whichever
    strategy has produced it. *)
Theorem successful_recovery_leaves_the_script (E : env) (w : world)
    (inputPath recoverCommand outputPath sessionId : string) :
  let r := Server.executeRecovery E inputPath recoverCommand outputPath sessionId w in
  (forall e, outcome r <> Rejected e) /\
  (forall res, outcome r = Resolved res -> success res = true ->
               is_Some (files (final r) !! outputPath)).
Proof.
  cbv zeta. unfold Server.executeRecovery. rewrite bind_run.
  pose proof (checkSqliteVersion_never_rejects E w) as Hprobe.
  destruct (outcome (Server.checkSqliteVersion E w)) as [v|e|];
    [|now destruct (Hprobe e)|cbn [outcome]; split; discriminate].
  set (w1 := final (Server.checkSqliteVersion E w)).
  unfold after. cbn [outcome final].
  destruct (VersionCheck.success v); cbn [negb].
  2:{ unfold ret. cbn [outcome final]. split; [discriminate|].
      intros res [= <-]. discriminate. }
  destruct (VersionCheck.hasRecover v); cbn [negb].
  - exact (primary_step_file E w1 inputPath recoverCommand outputPath sessionId).
  - exact (tryAlternativeRecovery_file E inputPath outputPath sessionId w1).
Qed.

(** ** The percentages published along a run *)

Lemma percentsOf_app (t1 t2 : list action) :
  percentsOf (t1 ++ t2) = percentsOf t1 ++ percentsOf t2.
Proof. unfold percentsOf. apply omap_app. Qed.

Lemma paced_silent (lo hi : Z) (tr : list action) : percentsOf tr = [] -> paced lo hi tr.
Proof. intros H. unfold paced. rewrite H. split; constructor. Qed.

Lemma paced_weaken (lo hi lo' hi' : Z) (tr : list action) :
  paced lo hi tr -> lo' <= lo -> hi <= hi' -> paced lo' hi' tr.
Proof.
  intros (Hr & Ho) Hlo Hhi. split; [|exact Ho].
  eapply List.Forall_impl; [|exact Hr]. cbn. intros p Hp. lia.
Qed.

Lemma paced_app (lo mid hi : Z) (t1 t2 : list action) :
  lo <= mid <= hi ->
  paced lo mid t1 -> paced mid hi t2 -> paced lo hi (t1 ++ t2).
Proof.
  intros Hm (Hr1 & Ho1) (Hr2 & Ho2). unfold paced in *.
  rewrite percentsOf_app. split.
  - apply List.Forall_app. split.
    + eapply List.Forall_impl; [|exact Hr1]. cbn. intros; lia.
    + eapply List.Forall_impl; [|exact Hr2]. cbn. intros; lia.
  - revert Ho1 Hr1. generalize (percentsOf t1) as l1. intros l1.
    induction l1 as [|s l1 IH]; intros Ho1 Hr1; [exact Ho2|].
    cbn [app]. inversion Ho1 as [|? ? Hs Hall]; subst. inversion Hr1; subst.
    constructor; [now apply IH|].
    apply List.Forall_app. split; [exact Hall|].
    eapply List.Forall_impl; [|exact Hr2]. cbn. intros; lia.
Qed.

Lemma paced_bind {A B} (lo mid hi : Z) (m : M A) (k : A -> M B) (w : world) :
  lo <= mid <= hi ->
  paced lo mid (trace (m w)) ->
  (forall a w', paced mid hi (trace (k a w'))) ->
  paced lo hi (trace (bind m k w)).
Proof.
  intros Hm H1 H2. rewrite trace_bind. apply (paced_app lo mid hi); try assumption.
  destruct (outcome (m w)); [apply H2|now apply paced_silent|now apply paced_silent].
Qed.

Lemma paced_try {A} (lo mid hi : Z) (m : M A) (h : string -> M A) (w : world) :
  lo <= mid <= hi ->
  paced lo mid (trace (m w)) ->
  (forall e w', paced mid hi (trace (h e w'))) ->
  paced lo hi (trace (try_catch m h w)).
Proof.
  intros Hm H1 H2. rewrite trace_try. apply (paced_app lo mid hi); try assumption.
  destruct (outcome (m w)); [now apply paced_silent|apply H2|now apply paced_silent].
Qed.

Lemma paced_progress (sessionId phase message : string) (percent : Z) (w : world) :
  paced percent percent (trace (sendProgress sessionId phase percent message w)).
Proof.
  cbn. split; [constructor; [lia|constructor]|repeat constructor].
Qed.

Lemma paced_await (r : Z) (b : behaviour) (w : world) : paced r r (trace (awaitChild b w)).
Proof. rewrite trace_awaitChild. now apply paced_silent. Qed.

Lemma paced_writeFile (E : env) (r : Z) (p c : string) (w : world) :
  paced r r (trace (writeFile E p c w)).
Proof. rewrite trace_writeFile. now apply paced_silent. Qed.

Lemma paced_appendFile (E : env) (r : Z) (p c : string) (w : world) :
  paced r r (trace (appendFile E p c w)).
Proof. rewrite trace_appendFile. now apply paced_silent. Qed.

Ltac hush := solve [apply paced_silent; reflexivity].

(** A step of a computation that publishes nothing. *)
Ltac pace r :=
  repeat first
    [ apply (paced_bind r r r); [lia| |intros ? ?]
    | apply (paced_try r r r); [lia| |intros ? ?]
    | apply paced_await
    | apply paced_writeFile
    | apply paced_appendFile
    | hush
    | match goal with
      | |- paced _ _ (trace (match ?x with _ => _ end _)) => destruct x
      | |- paced _ _ (trace ((if ?b then _ else _) _)) => destruct b
      end ].

Lemma paced_queryDatabase (E : env) (r : Z) (dbPath query : string) (w : world) :
  paced r r (trace (Server.queryDatabase E dbPath query w)).
Proof. unfold Server.queryDatabase. pace r. Qed.

Lemma paced_checkSqliteVersion (E : env) (r : Z) (w : world) :
  paced r r (trace (Server.checkSqliteVersion E w)).
Proof. unfold Server.checkSqliteVersion, Server.testRecoverCommand. pace r. Qed.

Lemma paced_dumpSingleTable (E : env) (r : Z) (dbPath tableName : string) (w : world) :
  paced r r (trace (Server.dumpSingleTable E dbPath tableName w)).
Proof. unfold Server.dumpSingleTable. pace r. Qed.

Lemma paced_trySchemaExtraction (E : env) (r : Z) (inputPath outputPath : string) (w : world) :
  paced r r (trace (Server.trySchemaExtraction E inputPath outputPath w)).
Proof. unfold Server.trySchemaExtraction. pace r. Qed.

Lemma paced_tryBasicExtraction (E : env) (r : Z) (inputPath outputPath : string) (w : world) :
  paced r r (trace (Server.tryBasicExtraction E inputPath outputPath w)).
Proof. unfold Server.tryBasicExtraction. cbv zeta. pace r. Qed.

(** [Math.round] of a part of thirty lies between nothing and thirty and
    grows with the part. *)
Lemma round_div_bounds (i total : Z) :
  0 <= i <= total -> 0 < total -> 0 <= Js.round_div (i * 30) total <= 30.
Proof.
  intros Hi Ht. unfold Js.round_div. split.
  - apply Z.div_pos; lia.
  - assert ((2 * (i * 30) + total) / (2 * total) < 31); [|lia].
    apply Z.div_lt_upper_bound; lia.
Qed.

Lemma round_div_mono (i j total : Z) :
  i <= j -> 0 < total -> Js.round_div (i * 30) total <= Js.round_div (j * 30) total.
Proof.
  intros Hij Ht. unfold Js.round_div. apply Z.div_le_mono; lia.
Qed.

(** The loop over the tables publishes percentages that grow from 35
    towards 65. *)
Lemma paced_recoverTables (E : env) (inputPath outputPath sessionId : string) (total : Z)
    (tables : list row) :
  forall (i successCount : Z) (failedTables : list string) (w : world),
    0 <= i -> i + Z.of_nat (length tables) = total ->
    paced (35 + Js.round_div (i * 30) total) 65
      (trace (Server.recoverTables E inputPath outputPath sessionId total i tables
                successCount failedTables w)).
Proof.
  induction tables as [|t rest IH]; intros i sc ft w Hi Htotal; cbn [Server.recoverTables].
  - hush.
  - cbn [length] in Htotal. cbv zeta.
    assert (Hpos : 0 < total) by lia.
    pose proof (round_div_bounds i total ltac:(lia) Hpos) as Hb.
    pose proof (round_div_bounds (i + 1) total ltac:(lia) Hpos) as Hb1.
    pose proof (round_div_mono i (i + 1) total ltac:(lia) Hpos) as Hm.
    set (p := 35 + Js.round_div (i * 30) total) in *.
    apply (paced_bind p p 65); [lia|apply paced_progress|intros _ w1].
    apply (paced_bind p p 65); [lia|apply paced_dumpSingleTable|intros tableResult w2].
    destruct (success tableResult).
    + apply (paced_bind p p 65); [lia|apply paced_appendFile|intros _ w3].
      eapply paced_weaken; [apply IH; lia|lia|lia].
    + apply (paced_bind p p 65); [lia|apply paced_appendFile|intros _ w3].
      eapply paced_weaken; [apply IH; lia|lia|lia].
Qed.

Lemma paced_tryTableByTableRecovery (E : env) (inputPath outputPath sessionId : string)
    (w : world) :
  paced 35 65 (trace (Server.tryTableByTableRecovery E inputPath outputPath sessionId w)).
Proof.
  unfold Server.tryTableByTableRecovery.
  apply (paced_try 35 65 65); [lia| |intros; hush].
  apply (paced_bind 35 35 65); [lia|apply paced_queryDatabase|intros tables w1].
  destruct tables as [[|row rows]|]; [hush| |hush]. cbv zeta.
  apply (paced_bind 35 35 65); [lia|apply paced_writeFile|intros _ w2].
  apply (paced_bind 35 65 65); [lia| |intros counts w3].
  - pose proof (paced_recoverTables E inputPath outputPath sessionId
                  (Z.of_nat (length (row :: rows))) (row :: rows) 0 0 [] w2
                  ltac:(lia) ltac:(lia)) as H.
    change (0 * 30) with 0 in H. unfold Js.round_div at 1 in H.
    rewrite Z.div_small in H by (cbn [length]; lia). exact H.
  - apply (paced_bind 65 65 65); [lia|apply paced_appendFile|intros _ w4].
    destruct (0 <? fst counts); hush.
Qed.

Lemma paced_tryAlternativeRecovery (E : env) (inputPath outputPath sessionId : string)
    (w : world) :
  paced 30 65 (trace (Server.tryAlternativeRecovery E inputPath outputPath sessionId w)).
Proof.
  unfold Server.tryAlternativeRecovery.
  apply (paced_bind 30 30 65); [lia|apply paced_progress|intros _ w1].
  apply (paced_bind 30 65 65); [lia| |intros tableResult w2].
  - eapply paced_weaken; [apply paced_tryTableByTableRecovery|lia|lia].
  - destruct (success tableResult); [hush|].
    apply (paced_bind 65 65 65); [lia|apply paced_trySchemaExtraction|intros schemaResult w3].
    destruct (success schemaResult); [hush|apply paced_tryBasicExtraction].
Qed.

(** While the fallback chain of a recovery runs, every percentage it
    publishes on the progress channel lies between 30 and 65, and no
    percentage is lower than one published before it. *)
Theorem recovery_progress_never_goes_back (E : env) (w : world)
    (inputPath recoverCommand outputPath sessionId : string) :
  let published :=
    percentsOf (trace (Server.executeRecovery E inputPath recoverCommand outputPath
                         sessionId w)) in
  Forall (fun p => 30 <= p <= 65) published /\ StronglySorted Z.le published.
Proof.
  cbv zeta.
  change (paced 30 65 (trace (Server.executeRecovery E inputPath recoverCommand outputPath
                                sessionId w))).
  unfold Server.executeRecovery.
  apply (paced_bind 30 30 65); [lia|apply paced_checkSqliteVersion|intros v w1].
  destruct (negb (VersionCheck.success v)); [hush|].
  destruct (negb (VersionCheck.hasRecover v)); [apply paced_tryAlternativeRecovery|].
  apply (paced_bind 30 30 65); [lia|hush|intros child w2].
  apply (paced_bind 30 30 65); [lia|apply paced_await|intros ev w3].
  destruct ev as [code output err|message]; [|hush].
  apply (paced_try 30 65 65); [lia| |intros; hush].
  destruct ((code =? 0) && (0 <? Js.slen output))%bool.
  - apply (paced_bind 30 30 65); [lia|apply paced_writeFile|intros; hush].
  - destruct ((code =? 0) && (Js.slen output =? 0))%bool.
    + apply (paced_bind 30 30 65); [lia|apply paced_writeFile|intros; hush].
    + apply paced_tryAlternativeRecovery.
Qed.

(** ** The manual submission *)

Section Children.

(** [phi] holds of every child spawned along a trace. *)
Variable phi : list string -> Prop.

Lemma children_silent (tr : list action) : spawnsOf tr = [] -> Forall phi (spawnsOf tr).
Proof. intros ->. constructor. Qed.

Lemma children_bind {A B} (m : M A) (k : A -> M B) (w : world) :
  Forall phi (spawnsOf (trace (m w))) ->
  (forall a w', Forall phi (spawnsOf (trace (k a w')))) ->
  Forall phi (spawnsOf (trace (bind m k w))).
Proof.
  intros H1 H2. rewrite trace_bind, spawnsOf_app. apply List.Forall_app. split; [exact H1|].
  destruct (outcome (m w)); [apply H2|constructor|constructor].
Qed.

Lemma children_try {A} (m : M A) (h : string -> M A) (w : world) :
  Forall phi (spawnsOf (trace (m w))) ->
  (forall e w', Forall phi (spawnsOf (trace (h e w')))) ->
  Forall phi (spawnsOf (trace (try_catch m h w))).
Proof.
  intros H1 H2. rewrite trace_try, spawnsOf_app. apply List.Forall_app. split; [exact H1|].
  destruct (outcome (m w)); [constructor|apply H2|constructor].
Qed.

Lemma children_await (b : behaviour) (w : world) :
  Forall phi (spawnsOf (trace (awaitChild b w))).
Proof. rewrite trace_awaitChild. constructor. Qed.

Lemma children_writeFile (E : env) (p c : string) (w : world) :
  Forall phi (spawnsOf (trace (writeFile E p c w))).
Proof. rewrite trace_writeFile. constructor. Qed.

Lemma children_stat (p : string) (w : world) : Forall phi (spawnsOf (trace (stat p w))).
Proof. unfold stat. destruct (files w !! p); constructor. Qed.

Lemma children_unlink (p : string) (w : world) : Forall phi (spawnsOf (trace (unlink p w))).
Proof. unfold unlink. destruct (files w !! p); constructor. Qed.

Lemma children_readdir (p : string) (w : world) : Forall phi (spawnsOf (trace (readdir p w))).
Proof. unfold readdir. destruct (decide (p ∈ dirs w)); constructor. Qed.


End Children.

(** A step of a computation that spawns nothing. *)
Ltac childless :=
  repeat first
    [ apply children_stat
    | apply children_unlink
    | apply children_readdir
    | apply children_await
    | apply children_writeFile
    | apply children_bind; [|intros ? ?]
    | apply children_try; [|intros ? ?]
    | solve [apply children_silent; reflexivity]
    | match goal with
      | |- Forall _ (spawnsOf (trace (match ?x with _ => _ end _))) => destruct x
      | |- Forall _ (spawnsOf (trace ((if ?b then _ else _) _))) => destruct b
      end ].














(** ** The chain of the older revision *)

Lemma sequence_bind {A B} (l1 l2 : list (list string)) (m : M A) (k : A -> M B) (w : world) :
  spawnsOf (trace (m w)) `sublist_of` l1 ->
  (forall a w', spawnsOf (trace (k a w')) `sublist_of` l2) ->
  spawnsOf (trace (bind m k w)) `sublist_of` l1 ++ l2.
Proof.
  intros H1 H2. rewrite trace_bind, spawnsOf_app. apply sublist_app; [exact H1|].
  destruct (outcome (m w)); [apply H2|apply sublist_nil_l|apply sublist_nil_l].
Qed.

Lemma sequence_try {A} (l1 l2 : list (list string)) (m : M A) (h : string -> M A)
    (w : world) :
  spawnsOf (trace (m w)) `sublist_of` l1 ->
  (forall e w', spawnsOf (trace (h e w')) `sublist_of` l2) ->
  spawnsOf (trace (try_catch m h w)) `sublist_of` l1 ++ l2.
Proof.
  intros H1 H2. rewrite trace_try, spawnsOf_app. apply sublist_app; [exact H1|].
  destruct (outcome (m w)); [apply sublist_nil_l|apply H2|apply sublist_nil_l].
Qed.

Lemma sequence_silent (l : list (list string)) (tr : list action) :
  Forall (fun _ => False) (spawnsOf tr) -> spawnsOf tr `sublist_of` l.
Proof.
  intros H. destruct (spawnsOf tr) as [|x r]; [apply sublist_nil_l|].
  now apply List.Forall_inv in H.
Qed.

(** A strategy that spawns one child and then only reads its output and
    writes the script. *)
Ltac one_child :=
  apply (sequence_bind [_] []); [reflexivity|intros ? ?];
  apply sequence_silent; childless.

Lemma tryDumpCommand_v1_child (E : env) (inputPath outputPath : string) (w : world) :
  spawnsOf (trace (ServerV1.tryDumpCommand E inputPath outputPath w))
  `sublist_of` [[inputPath; ".dump"]].
Proof. unfold ServerV1.tryDumpCommand. one_child. Qed.

Lemma trySchemaExtraction_child (E : env) (inputPath outputPath : string) (w : world) :
  spawnsOf (trace (Server.trySchemaExtraction E inputPath outputPath w))
  `sublist_of` [[inputPath; ".schema"]].
Proof. unfold Server.trySchemaExtraction. one_child. Qed.

Lemma tryBasicExtraction_child (E : env) (inputPath outputPath : string) (w : world) :
  spawnsOf (trace (Server.tryBasicExtraction E inputPath outputPath w))
  `sublist_of` [[inputPath; ".tables"]].
Proof. unfold Server.tryBasicExtraction. cbv zeta. one_child. Qed.

Lemma testRecoverCommand_child (E : env) (w : world) :
  spawnsOf (trace (Server.testRecoverCommand E w)) `sublist_of` [[":memory:"; ".help"]].
Proof. unfold Server.testRecoverCommand. one_child. Qed.

Lemma checkSqliteVersion_children (E : env) (w : world) :
  spawnsOf (trace (Server.checkSqliteVersion E w))
  `sublist_of` [["--version"]; [":memory:"; ".help"]].
Proof.
  unfold Server.checkSqliteVersion.
  apply (sequence_bind [["--version"]] [[":memory:"; ".help"]]); [reflexivity|intros child w1].
  apply (sequence_bind [] [[":memory:"; ".help"]]);
    [apply sequence_silent; childless|intros ev w2].
  destruct ev as [code output err|message]; [|apply sublist_nil_l].
  destruct ((code =? 0) && Js.truthy output)%bool; [|apply sublist_nil_l].
  apply (sequence_bind [[":memory:"; ".help"]] []);
    [apply testRecoverCommand_child|intros; apply sublist_nil_l].
Qed.

Lemma tryAlternativeRecovery_v1_children (E : env) (inputPath outputPath : string)
    (w : world) :
  spawnsOf (trace (ServerV1.tryAlternativeRecovery E inputPath outputPath w))
  `sublist_of` [[inputPath; ".dump"]; [inputPath; ".schema"]; [inputPath; ".tables"]].
Proof.
  unfold ServerV1.tryAlternativeRecovery.
  apply (sequence_bind [[inputPath; ".dump"]] [[inputPath; ".schema"]; [inputPath; ".tables"]]);
    [apply tryDumpCommand_v1_child|intros dumpResult w1].
  destruct (success dumpResult); [apply sublist_nil_l|].
  apply (sequence_bind [[inputPath; ".schema"]] [[inputPath; ".tables"]]);
    [apply trySchemaExtraction_child|intros schemaResult w2].
  destruct (success schemaResult); [apply sublist_nil_l|apply tryBasicExtraction_child].
Qed.

(** The older revision works through a fixed chain: the children that a
    recovery spawns are, in this order and each at most once, the two
    probes, [.recover], the full [.dump], [.schema] and [.tables]. It has
    no table-by-table step. *)
Theorem older_revision_follows_its_chain (E : env) (w : world)
    (inputPath recoverCommand outputPath : string) :
  spawnsOf (trace (ServerV1.executeRecovery E inputPath recoverCommand outputPath w))
  `sublist_of` [["--version"]; [":memory:"; ".help"]; [inputPath; recoverCommand];
                [inputPath; ".dump"]; [inputPath; ".schema"]; [inputPath; ".tables"]].
Proof.
  unfold ServerV1.executeRecovery.
  apply (sequence_bind [["--version"]; [":memory:"; ".help"]]
           [[inputPath; recoverCommand];
            [inputPath; ".dump"]; [inputPath; ".schema"]; [inputPath; ".tables"]]);
    [apply checkSqliteVersion_children|intros versionCheck w1].
  destruct (negb (VersionCheck.success versionCheck)); [apply sublist_nil_l|].
  destruct (negb (VersionCheck.hasRecover versionCheck)).
  - apply sublist_cons, tryAlternativeRecovery_v1_children.
  - apply (sequence_bind [[inputPath; recoverCommand]]
             [[inputPath; ".dump"]; [inputPath; ".schema"]; [inputPath; ".tables"]]);
      [reflexivity|intros child w2].
    apply (sequence_bind []
             [[inputPath; ".dump"]; [inputPath; ".schema"]; [inputPath; ".tables"]]);
      [apply sequence_silent; childless|intros ev w3].
    destruct ev as [code output err|message]; [|apply sublist_nil_l].
    rewrite <- (app_nil_r [[inputPath; ".dump"]; [inputPath; ".schema"]; [inputPath; ".tables"]]).
    apply sequence_try; [|intros; apply sublist_nil_l].
    destruct ((code =? 0) && (0 <? Js.slen output))%bool;
      [apply sequence_silent; childless|].
    destruct ((code =? 0) && (Js.slen output =? 0))%bool;
      [apply sequence_silent; childless|].
    apply tryAlternativeRecovery_v1_children.
Qed.

(** ** The statistics of a recovery *)

Lemma outcome_try {A} (m : M A) (h : string -> M A) (w : world) :
  outcome (try_catch m h w)
  = match outcome (m w) with
    | Rejected e => outcome (h e (final (m w)))
    | o => o
    end.
Proof. unfold try_catch. cbv zeta. destruct (outcome (m w)) eqn:H; cbn [outcome]; now rewrite ?H. Qed.

Lemma queryDatabase_never_rejects (E : env) (dbPath query : string) (w : world) (e : string) :
  outcome (Server.queryDatabase E dbPath query w) <> Rejected e.
Proof.
  destruct (queryDatabase_run E dbPath query w) as (w' & -> & _). cbn [outcome].
  destruct (proc E (spawned w) "sqlite3" [dbPath; "-json"; query]); discriminate.
Qed.

Lemma countRows_never_rejects (E : env) (dbPath : string) (tables : list row) :
  forall totalRows w e, outcome (Server.countRows E dbPath tables totalRows w) <> Rejected e.
Proof.
  induction tables as [|t rest IH]; intros totalRows w e; cbn [Server.countRows];
    [discriminate|].
  rewrite outcome_bind.
  pose proof (queryDatabase_never_rejects E dbPath
                ("SELECT COUNT(*) as count FROM " +:+ dq +:+ name t +:+ dq) w) as Hq.
  destruct (outcome (Server.queryDatabase E dbPath _ w)) as [rowCount|e'|];
    [|now destruct (Hq e')|discriminate].
  destruct rowCount as [[|x l]|]; apply IH.
Qed.

(** The statistics never fail a recovery: [getRecoveryStats] is never
    rejected. When the database or the script is missing it answers with
    zeros and spawns no child. When both are there, whatever it answers
    carries the sizes that the two files had when it was called. *)
Theorem stats_never_fail (E : env) (sqlPath dbPath : string) (w : world) :
  let r := Server.getRecoveryStats E sqlPath dbPath w in
  (forall e, outcome r <> Rejected e) /\
  (files w !! dbPath = None \/ files w !! sqlPath = None ->
   outcome r = Resolved (Stats.Make 0 0 0 0) /\ spawnsOf (trace r) = []) /\
  (forall db sql s,
     files w !! dbPath = Some db -> files w !! sqlPath = Some sql ->
     outcome r = Resolved s ->
     Stats.dataSize s = size db /\ Stats.sqlSize s = size sql).
Proof.
  cbv zeta. unfold Server.getRecoveryStats. split; [|split].
  - intros e. rewrite outcome_try.
    destruct (outcome _) as [s|e'|]; try discriminate.
    apply (try_ret_never_rejects _ (fun _ => Stats.Make 0 0 0 0)).
  - intros Hmissing.
    destruct (files w !! dbPath) as [db|] eqn:Hdb.
    + destruct Hmissing as [Hmissing|Hsql]; [discriminate Hmissing|].
      erewrite try_rejected.
      2:{ rewrite (bind_resolved _ _ _ _ _ _ (stat_present _ _ _ Hdb)).
          rewrite (bind_rejected _ _ _ _ _ _ (stat_absent _ _ Hsql)). reflexivity. }
      erewrite try_rejected.
      2:{ rewrite (bind_resolved _ _ _ _ _ _ (stat_present _ _ _ Hdb)).
          rewrite (bind_rejected _ _ _ _ _ _ (stat_absent _ _ Hsql)). reflexivity. }
      split; reflexivity.
    + erewrite try_rejected.
      2:{ rewrite (bind_rejected _ _ _ _ _ _ (stat_absent _ _ Hdb)). reflexivity. }
      erewrite try_rejected.
      2:{ rewrite (bind_rejected _ _ _ _ _ _ (stat_absent _ _ Hdb)). reflexivity. }
      split; reflexivity.
  - intros db sql s Hdb Hsql. rewrite outcome_try.
    rewrite (bind_resolved _ _ _ _ _ _ (stat_present _ _ _ Hdb)).
    rewrite (bind_resolved _ _ _ _ _ _ (stat_present _ _ _ Hsql)).
    rewrite !after_after.
    match goal with
    | |- context [outcome (after ?t ?x)] => change (outcome (after t x)) with (outcome x)
    end.
    rewrite outcome_bind.
    pose proof (queryDatabase_never_rejects E dbPath Server.countQuery w) as Hq1.
    destruct (outcome (Server.queryDatabase E dbPath Server.countQuery w))
      as [tableCount|e1|]; [|now destruct (Hq1 e1)|discriminate].
    rewrite outcome_bind.
    match goal with
    | |- context [Server.queryDatabase E dbPath Server.tablesQuery ?w1] =>
        pose proof (queryDatabase_never_rejects E dbPath Server.tablesQuery w1) as Hq2;
        destruct (outcome (Server.queryDatabase E dbPath Server.tablesQuery w1))
          as [tables|e2|]; [|now destruct (Hq2 e2)|discriminate]
    end.
    rewrite outcome_bind.
    match goal with
    | |- context [Server.countRows E dbPath ?l 0 ?w2] =>
        pose proof (countRows_never_rejects E dbPath l 0 w2) as Hc;
        destruct (outcome (Server.countRows E dbPath l 0 w2))
          as [totalRows|e3|]; [|now destruct (Hc e3)|discriminate]
    end.
    cbn [outcome ret]. intros [= <-]. split; reflexivity.
Qed.

(** ** The diagnostic script *)

Lemma filter_recovery_scripts (listing : list Server.dirent) :
  (forall f, In f listing -> Js.startsWith (Server.d_name f) "manual_recovery_" = false) ->
  List.filter Server.isRecoverySql listing = List.filter CheckStuck.isRecoverySql listing.
Proof.
  intros H. apply List.filter_ext_in. intros f Hf.
  unfold Server.isRecoverySql, CheckStuck.isRecoverySql.
  rewrite (H f Hf). now rewrite orb_false_r.
Qed.

(** The diagnostic script and the status probe of the server agree on a
    directory that holds no script of a manual recovery: the script says
    "stuck" exactly when the probe sets [isStuck], "active" exactly when
    the probe sets [isActive], both about the same file and with the same
    age; and the countdown that the script prints is never negative. *)
Theorem check_stuck_agrees_with_status (t : Z) (listing : list Server.dirent) :
  (forall f, In f listing -> Js.startsWith (Server.d_name f) "manual_recovery_" = false) ->
  let report := Server.statusOf t listing in
  match CheckStuck.main t listing with
  | CheckStuck.NoFiles =>
      Status.isActive report = false /\ Status.isStuck report = false /\
      Status.fileName report = None
  | CheckStuck.Stuck name sizeMB ageSeconds =>
      Status.isStuck report = true /\ Status.isActive report = false /\
      Status.fileName report = Some name /\ Status.fileSizeMB report = Some sizeMB /\
      Status.idleSeconds report = Some ageSeconds /\ 120 < ageSeconds
  | CheckStuck.Active name sizeMB ageSeconds checkAgainIn =>
      Status.isActive report = true /\ Status.isStuck report = false /\
      Status.fileName report = Some name /\ Status.fileSizeMB report = Some sizeMB /\
      Status.idleSeconds report = Some ageSeconds /\
      checkAgainIn = 120 - ageSeconds /\ 0 <= checkAgainIn
  end.
Proof.
  intros H. cbv zeta. unfold CheckStuck.main, Server.statusOf.
  rewrite (filter_recovery_scripts listing H).
  destruct (Server.sortNewestFirst (List.filter CheckStuck.isRecoverySql listing))
    as [|latestFile rest]; [now repeat split|]. cbv zeta.
  destruct (Z.ltb_spec 120 (Js.round_div (t - Server.d_mtime latestFile) 1000)) as [Hlt|Hle];
    cbn [Status.isActive Status.isStuck Status.fileName Status.fileSizeMB Status.idleSeconds].
  - repeat split; try reflexivity; [|exact Hlt].
    apply Z.leb_gt. exact Hlt.
  - repeat split; try reflexivity; [|lia].
    apply Z.leb_le. exact Hle.
Qed.

Lemma check_stuck_agrees_with_status_witness :
  let listing := [Server.Dirent "recovery_1_shop.sql" 1000 2097152;
                  Server.Dirent "corrupt_1_shop.db" 900 4096] in
  CheckStuck.main 61000 listing = CheckStuck.Active "recovery_1_shop.sql" 2 60 60 /\
  Status.isActive (Server.statusOf 61000 listing) = true.
Proof.
  cbv zeta. split; [reflexivity|].
  refine (proj1 (check_stuck_agrees_with_status 61000
                   [Server.Dirent "recovery_1_shop.sql" 1000 2097152;
                    Server.Dirent "corrupt_1_shop.db" 900 4096] _)).
  intros f [<-|[<-|[]]]; reflexivity.
Defined.
